(** * tsf_nmt: bucketed batching, training schedule and beam search

    A shallow embedding of the algorithmic core of [tsf_nmt/translate.py]
    and [tsf_nmt/nmt_model.py]: reading a corpus into length buckets,
    building a batch, feeding a model step, the checkpoint policy of the
    training loop, the weighted choice of a bucket, the validation block,
    the greedy decoding loop and the beam search of [gen_sample].

    Conventions.  Python lists are [list]; indexing [l[i]] is stdpp's
    lookup [l !! i] and an index out of range raises [IndexError].  Token
    ids are vocabulary indices, kept as [Z]; they fit the int32 arrays of
    a batch, whose conversion is left out.  The floating point values of
    training (losses, learning rate, bucket fractions, target weights) are
    kept as rationals [Q]; their rounding is outside the model.  The scores
    and probabilities of the beam search stay abstract, with the one
    operation and the sort the search applies to them.  Exceptions are the
    [Raise] case of [result].  The TensorFlow session, the two callbacks
    of the beam search, numpy's [argsort] and [argmax] and the random
    draws are parameters. *)

From Stdlib Require Import ZArith QArith Lia Permutation Ascii.
From stdpp Require Import base option list gmap strings pretty.

Local Open Scope nat_scope.

(** ** Exceptions *)

Inductive exn : Type :=
| IndexError
| ValueError
| ZeroDivisionError
| NameError.

Inductive result (A : Type) : Type :=
| Ok (a : A)
| Raise (e : exn).
Arguments Ok {A} a.
Arguments Raise {A} e.

#[global] Instance result_ret : MRet result := fun A a => Ok a.
#[global] Instance result_bind : MBind result := fun A B f m =>
  match m with
  | Ok a => f a
  | Raise e => Raise e
  end.
#[global] Instance result_fmap : FMap result := fun A B f m =>
  match m with
  | Ok a => Ok (f a)
  | Raise e => Raise e
  end.

(** A computation that raises nothing but [IndexError]. *)
Definition index_only {A} (m : result A) : Prop :=
  forall e, m = Raise e -> e = IndexError.

(** [l[i]] on a Python list, for an index that is not negative. *)
Definition index {A} (l : list A) (i : nat) : result A :=
  match l !! i with
  | Some x => Ok x
  | None => Raise IndexError
  end.

(** [l[-1]]. *)
Definition index_last {A} (l : list A) : result A :=
  match last l with
  | Some x => Ok x
  | None => Raise IndexError
  end.

(** [for x in xs: acc = body(acc, x)], stopping at the first exception. *)
Fixpoint for_each {A S} (body : S -> A -> result S) (xs : list A) (acc : S)
  : result S :=
  match xs with
  | [] => Ok acc
  | x :: xs' => acc' ← body acc x; for_each body xs' acc'
  end.

(** [[f(i) for i in xs]], stopping at the first exception. *)
Fixpoint comprehension {A B} (f : A -> result B) (xs : list A)
  : result (list B) :=
  match xs with
  | [] => Ok []
  | x :: xs' => y ← f x; ys ← comprehension f xs'; Ok (y :: ys)
  end.

(** [xrange(n)]. *)
Definition xrange (n : nat) : list nat := seq 0 n.

(** ** data_utils *)

Module data_utils.

(** Modelled from the spec: the module [data_utils] is imported by both
    source files but is not part of them; the spec reserves ids 0-3 for
    PAD, GO, EOS and the unknown-word sentinel, in this order. *)
Definition PAD_ID : Z := 0.
Definition GO_ID : Z := 1.
Definition EOS_ID : Z := 2.

End data_utils.

(** A sentence is a list of token ids; an example is the list
    [[source_ids, source_ids_r, target_ids]] stored by [read_data]. *)
Abbreviation sentence := (list Z).
Abbreviation example := (list Z * list Z * list Z)%type.
Abbreviation bucket := (nat * nat)%type.

(** ** nmt_model.py *)

Module nmt_model.

(** *** get_batch *)

(** [[x] * n]: a list repeated a negative number of times is empty. *)
Definition py_repeat {A} (x : A) (n : Z) : list A := replicate (Z.to_nat n) x.

(** [random.choice(d)] on the raw draw [r]; an empty sequence raises
    [IndexError]. *)
Definition choice {A} (d : list A) (r : nat) : result A :=
  match d with
  | [] => Raise IndexError
  | _ => index d (r mod length d)
  end.

Record batch : Type := Batch {
  batch_encoder_inputs : list (list Z);
  batch_encoder_inputs_r : list (list Z);
  batch_decoder_inputs : list (list Z);
  batch_weights : list (list Q)
}.

(** Body of the first loop: one draw, padded and appended to the three
    per-example lists. *)
Definition draw_example (data : list (list example)) (bucket_id : nat)
    (encoder_size decoder_size : nat)
    (acc : list sentence * list sentence * list sentence) (r : nat)
  : result (list sentence * list sentence * list sentence) :=
  let '(encoder_inputs, encoder_inputs_r, decoder_inputs) := acc in
  d ← index data bucket_id;
  '(encoder_input, encoder_input_r, decoder_input) ← choice d r;
  let encoder_pad :=
    py_repeat data_utils.PAD_ID
      (Z.of_nat encoder_size - Z.of_nat (length encoder_input)) in
  let encoder_pad_r :=
    py_repeat data_utils.PAD_ID
      (Z.of_nat encoder_size - Z.of_nat (length encoder_input_r)) in
  let decoder_pad_size :=
    (Z.of_nat decoder_size - Z.of_nat (length decoder_input) - 1)%Z in
  Ok (encoder_inputs ++ [encoder_input ++ encoder_pad],
      encoder_inputs_r ++ [encoder_input_r ++ encoder_pad_r],
      decoder_inputs ++ [[data_utils.GO_ID] ++ decoder_input
                         ++ py_repeat data_utils.PAD_ID decoder_pad_size]).

(** [np.array([inputs[batch_idx][length_idx] for batch_idx in
    xrange(batch_size)], dtype=np.int32)]. *)
Definition column (inputs : list sentence) (batch_size length_idx : nat)
  : result (list Z) :=
  comprehension
    (fun batch_idx => row ← index inputs batch_idx; index row length_idx)
    (xrange batch_size).

(** Body of the loop over [length_idx in xrange(encoder_size)]. *)
Definition encoder_row (encoder_inputs encoder_inputs_r : list sentence)
    (batch_size : nat) (acc : list (list Z) * list (list Z))
    (length_idx : nat) : result (list (list Z) * list (list Z)) :=
  let '(batch_encoder_inputs, batch_encoder_inputs_r) := acc in
  row ← column encoder_inputs batch_size length_idx;
  row_r ← column encoder_inputs_r batch_size length_idx;
  Ok (batch_encoder_inputs ++ [row], batch_encoder_inputs_r ++ [row_r]).

(** Body of the loop over [batch_idx] that fills one row of weights.  The
    variable [target] is a local of [get_batch]: it keeps its last value
    from one iteration to the next and is unbound ([None]) until its first
    assignment; [or] evaluates its right operand only when the left one is
    false. *)
Definition weight_cell (decoder_inputs : list sentence)
    (decoder_size length_idx : nat) (acc : list Q * option Z)
    (batch_idx : nat) : result (list Q * option Z) :=
  let '(batch_weight, target) := acc in
  target ←
    (if bool_decide (Z.of_nat length_idx < Z.of_nat decoder_size - 1)%Z
     then row ← index decoder_inputs batch_idx;
          x ← index row (length_idx + 1);
          Ok (Some x)
     else Ok target);
  is_zero ←
    (if bool_decide (Z.of_nat length_idx = Z.of_nat decoder_size - 1)%Z
     then Ok true
     else match target with
          | Some t => Ok (bool_decide (t = data_utils.PAD_ID))
          | None => Raise NameError
          end);
  Ok (if is_zero : bool then <[batch_idx := 0%Q]> batch_weight
      else batch_weight,
      target).

(** Body of the loop over [length_idx in xrange(decoder_size)]. *)
Definition decoder_row (decoder_inputs : list sentence)
    (batch_size decoder_size : nat)
    (acc : list (list Z) * list (list Q) * option Z) (length_idx : nat)
  : result (list (list Z) * list (list Q) * option Z) :=
  let '(batch_decoder_inputs, batch_weights, target) := acc in
  row ← column decoder_inputs batch_size length_idx;
  let batch_weight := replicate batch_size 1%Q in
  '(batch_weight, target) ←
    for_each (weight_cell decoder_inputs decoder_size length_idx)
             (xrange batch_size) (batch_weight, target);
  Ok (batch_decoder_inputs ++ [row], batch_weights ++ [batch_weight], target).

(** [NMTModel.get_batch]: [buckets] and [batch_size] are the fields of
    [self] it reads, [rnd j] is the raw value of the [j]-th random draw. *)
Definition get_batch (buckets : list bucket) (batch_size : nat)
    (rnd : nat -> nat) (data : list (list example)) (bucket_id : nat)
  : result batch :=
  '(encoder_size, decoder_size) ← index buckets bucket_id;
  '(encoder_inputs, encoder_inputs_r, decoder_inputs) ←
    for_each (draw_example data bucket_id encoder_size decoder_size)
             (rnd <$> xrange batch_size) ([], [], []);
  '(batch_encoder_inputs, batch_encoder_inputs_r) ←
    for_each (encoder_row encoder_inputs encoder_inputs_r batch_size)
             (xrange encoder_size) ([], []);
  '(batch_decoder_inputs, batch_weights, _) ←
    for_each (decoder_row decoder_inputs batch_size decoder_size)
             (xrange decoder_size) ([], [], None);
  Ok (Batch batch_encoder_inputs batch_encoder_inputs_r
            batch_decoder_inputs batch_weights).

(** *** Specification side of get_batch *)

(** The example of the [j]-th draw from the bucket [d]. *)
Definition drawn (rnd : nat -> nat) (d : list example) (j : nat) : example :=
  nth (rnd j mod length d) d ([], [], []).

(** A source sentence followed by its padding. *)
Definition encoder_line (encoder_size : nat) (x : sentence) : sentence :=
  x ++ py_repeat data_utils.PAD_ID (Z.of_nat encoder_size - Z.of_nat (length x)).

(** A target sentence after the GO id and followed by its padding. *)
Definition decoder_line (decoder_size : nat) (x : sentence) : sentence :=
  [data_utils.GO_ID] ++ x
  ++ py_repeat data_utils.PAD_ID
       (Z.of_nat decoder_size - Z.of_nat (length x) - 1).

Arguments encoder_line : simpl never.
Arguments decoder_line : simpl never.

(** Entry [b] of row [t] of a time-major array. *)
Definition cell {A} (rows : list (list A)) (t b : nat) : option A :=
  rows !! t ≫= (.!! b).

(** The weight of position [t] of example [b], read off the per-example
    decoder lines: zero at the last position and where the next position
    holds the padding id. *)
Definition weight_of (decoder_inputs : list sentence) (decoder_size t b : nat)
  : Q :=
  if bool_decide (t = decoder_size - 1) then 0%Q
  else if bool_decide (nth (t + 1) (nth b decoder_inputs []) 0%Z
                       = data_utils.PAD_ID)
  then 0%Q else 1%Q.

(** *** step *)

(** A value fed to a placeholder: an int32 vector or a float32 vector. *)
Inductive feed_value : Type :=
| IntVec (v : list Z)
| FloatVec (v : list Q).

(** What [session.run] is asked to evaluate, for a bucket [b]. *)
Inductive fetch : Type :=
| updates (b : nat)
| gradient_norms (b : nat)
| losses (b : nat)
| outputs (b l : nat).

(** The fields of [NMTModel] that [step] reads; the four lists hold the
    placeholders, each one known by the name it was created with. *)
Record NMTModel : Type := {
  buckets : list bucket;
  batch_size : nat;
  encoder_inputs : list string;
  encoder_inputs_r : list string;
  decoder_inputs : list string;
  target_weights : list string
}.

(** The part of [__init__] that creates the placeholders: as many encoder
    ones as the last bucket is long, and one decoder one more than that. *)
Definition init (buckets : list bucket) (batch_size : nat) : result NMTModel :=
  '(last_encoder, last_decoder) ← index_last buckets;
  Ok {| buckets := buckets;
        batch_size := batch_size;
        encoder_inputs :=
          (fun i => "encoder" +:+ pretty i) <$> xrange last_encoder;
        encoder_inputs_r :=
          (fun i => "encoder_r" +:+ pretty i) <$> xrange last_encoder;
        decoder_inputs :=
          (fun i => "decoder" +:+ pretty i) <$> xrange (last_decoder + 1);
        target_weights :=
          (fun i => "weight" +:+ pretty i) <$> xrange (last_decoder + 1) |}.

(** [input_feed[names[l]] = values[l]]. *)
Definition feed {A} (names : list string) (wrap : A -> feed_value)
    (values : list A) (input_feed : gmap string feed_value) (l : nat)
  : result (gmap string feed_value) :=
  name ← index names l;
  v ← index values l;
  Ok (<[name := wrap v]> input_feed).

(** The statements of [step] that come before [session.run]: the three
    length checks, the input feed and the output feed. *)
Definition step_feeds (self : NMTModel)
    (encoder_inputs' encoder_inputs_r' decoder_inputs' : list (list Z))
    (target_weights' : list (list Q)) (bucket_id : nat) (forward_only : bool)
  : result (list fetch * gmap string feed_value) :=
  '(encoder_size, decoder_size) ← index (buckets self) bucket_id;
  if bool_decide (length encoder_inputs' ≠ encoder_size) then Raise ValueError
  else if bool_decide (length decoder_inputs' ≠ decoder_size)
  then Raise ValueError
  else if bool_decide (length target_weights' ≠ decoder_size)
  then Raise ValueError
  else
    let input_feed : gmap string feed_value := ∅ in
    input_feed ←
      for_each (feed (encoder_inputs self) IntVec encoder_inputs')
               (xrange encoder_size) input_feed;
    input_feed ←
      for_each (feed (encoder_inputs_r self) IntVec encoder_inputs_r')
               (xrange encoder_size) input_feed;
    input_feed ←
      for_each
        (fun input_feed l =>
           input_feed ← feed (decoder_inputs self) IntVec decoder_inputs'
                             input_feed l;
           feed (target_weights self) FloatVec target_weights' input_feed l)
        (xrange decoder_size) input_feed;
    last_target ← index (decoder_inputs self) decoder_size;
    let input_feed :=
      <[last_target := IntVec (replicate (batch_size self) 0%Z)]> input_feed in
    let output_feed :=
      if forward_only
      then [losses bucket_id] ++ (outputs bucket_id <$> xrange decoder_size)
      else [updates bucket_id; gradient_norms bucket_id; losses bucket_id] in
    Ok (output_feed, input_feed).

Section step.

(** The TensorFlow session: its state holds the trainable parameters and
    [session_run] evaluates the fetches under a feed, returning one value
    for each fetch. *)
Context {session value : Type}.
Variable session_run :
  session -> list fetch -> gmap string feed_value -> session * list value.

(** [NMTModel.step]: the result is the session after the call and either
    the exception raised or the returned triple. *)
Definition step (self : NMTModel) (sess : session)
    (encoder_inputs' encoder_inputs_r' decoder_inputs' : list (list Z))
    (target_weights' : list (list Q)) (bucket_id : nat) (forward_only : bool)
  : session * result (option value * value * option (list value)) :=
  match step_feeds self encoder_inputs' encoder_inputs_r' decoder_inputs'
                   target_weights' bucket_id forward_only with
  | Raise e => (sess, Raise e)
  | Ok (output_feed, input_feed) =>
      let '(sess, outs) := session_run sess output_feed input_feed in
      (sess,
       if forward_only
       then loss ← index outs 0; Ok (None, loss, Some (drop 1 outs))
       else norm ← index outs 1; loss ← index outs 2;
            Ok (Some norm, loss, None))
  end.

End step.

End nmt_model.

(** ** translate.py *)

Module translate.

(** *** read_data *)

Definition _buckets : list bucket := [(5, 10); (10, 15); (20, 25); (40, 50)].

(** The [for bucket_id, (source_size, target_size) in enumerate(_buckets)]
    loop with its [break]: [bs] is the part of the bucket list not yet
    visited and [bucket_id] the index of its head. *)
Fixpoint place (source_ids source_ids_r target_ids : sentence)
    (bs : list bucket) (bucket_id : nat)
    (data_set : list (list example)) : list (list example) :=
  match bs with
  | [] => data_set
  | (source_size, target_size) :: bs' =>
      if bool_decide (length source_ids < source_size)
         && bool_decide (length target_ids < target_size)
      then alter (fun d => d ++ [(source_ids, source_ids_r, target_ids)])
                 bucket_id data_set
      else place source_ids source_ids_r target_ids bs' (S bucket_id) data_set
  end.

(** [not max_size or counter < max_size]; [max_size] is [None] or an
    integer. *)
Definition within_limit (max_size : option Z) (counter : Z) : bool :=
  match max_size with
  | None => true
  | Some m => bool_decide (m = 0%Z) || bool_decide (counter < m)%Z
  end.

(** The [while] loop.  The two files are given as the lists of their
    lines, each line already split into integers; [readline] returns the
    empty string once a file is exhausted, which ends the loop. *)
Fixpoint read_loop (buckets : list bucket) (max_size : option Z)
    (source_file target_file : list sentence) (counter : Z)
    (data_set : list (list example)) : list (list example) :=
  match source_file, target_file with
  | source :: source_rest, target :: target_rest =>
      if within_limit max_size counter then
        let counter := (counter + 1)%Z in
        let source_ids := source in
        let source_ids_r := reverse source_ids in
        let target_ids := target ++ [data_utils.EOS_ID] in
        let data_set :=
          place source_ids source_ids_r target_ids buckets 0 data_set in
        read_loop buckets max_size source_rest target_rest counter data_set
      else data_set
  | _, _ => data_set
  end.

Definition read_data (buckets : list bucket)
    (source_file target_file : list sentence) (max_size : option Z)
  : list (list example) :=
  let data_set := replicate (length buckets) [] in
  read_loop buckets max_size source_file target_file 0 data_set.

(** *** Specification side of read_data *)

(** Bucket [i] has room for the pair: the bounds are strict and the
    target counts one more position for the end-of-sequence id. *)
Definition fits (buckets : list bucket) (source target : sentence)
    (i : nat) : bool :=
  match buckets !! i with
  | Some (max_source, max_target) =>
      bool_decide (length source < max_source)
      && bool_decide (length target + 1 < max_target)
  | None => false
  end.

(** Bucket [i] is the one of smallest index with room for the pair. *)
Definition first_fit (buckets : list bucket) (i : nat)
    (p : sentence * sentence) : bool :=
  fits buckets p.1 p.2 i
  && forallb (fun j => negb (fits buckets p.1 p.2 j)) (seq 0 i).

(** The pairs the loop gets to see: line [n] of one file with line [n]
    of the other, up to the shorter file and up to the limit. *)
Definition loaded (source_file target_file : list sentence)
    (max_size : option Z) : list (sentence * sentence) :=
  let pairs := zip source_file target_file in
  match max_size with
  | None => pairs
  | Some m => if bool_decide (m = 0%Z) then pairs else take (Z.to_nat m) pairs
  end.

Definition stored (p : sentence * sentence) : example :=
  (p.1, reverse p.1, p.2 ++ [data_utils.EOS_ID]).

(** The pairs the loop still reads when it is at line [counter]. *)
Definition remaining (max_size : option Z) (counter : Z)
    (pairs : list (sentence * sentence)) : list (sentence * sentence) :=
  match max_size with
  | None => pairs
  | Some m =>
      if bool_decide (m = 0%Z) then pairs
      else take (Z.to_nat (m - counter)) pairs
  end.

(** *** train: choice of a bucket *)

(** [a > b] on floats. *)
Definition Qgt_bool (a b : Q) : bool := negb (Qle_bool a b).

(** [train_buckets_scale]: the cumulated sizes over the total size; the
    division of a Python number by [0.0] raises [ZeroDivisionError]. *)
Definition train_buckets_scale (train_bucket_sizes : list nat)
  : result (list Q) :=
  let train_total_size := inject_Z (Z.of_nat (sum_list train_bucket_sizes)) in
  comprehension
    (fun i =>
       if Qeq_bool train_total_size 0 then Raise ZeroDivisionError
       else Ok (inject_Z (Z.of_nat (sum_list (take (i + 1) train_bucket_sizes)))
                / train_total_size)%Q)
    (xrange (length train_bucket_sizes)).

(** [min(l)] on a list of integers; [min([])] raises [ValueError]. *)
Definition py_min (l : list nat) : result nat :=
  match l with
  | [] => Raise ValueError
  | x :: l' => Ok (foldl Nat.min x l')
  end.

(** [min([i for i in xrange(len(scale)) if scale[i] > random_number_01])]. *)
Definition choose_bucket (scale : list Q) (random_number_01 : Q)
  : result nat :=
  candidates ←
    comprehension
      (fun i => s ← index scale i; Ok (i, Qgt_bool s random_number_01))
      (xrange (length scale));
  py_min (fst <$> List.filter snd candidates).

(** The bucket drawn in one training step, from the bucket sizes. *)
Definition draw_bucket (train_bucket_sizes : list nat) (random_number_01 : Q)
  : result nat :=
  scale ← train_buckets_scale train_bucket_sizes;
  choose_bucket scale random_number_01.

(** The cumulative fraction of bucket [i]: the sizes of the buckets up to
    [i] over the total. *)
Definition fraction (train_bucket_sizes : list nat) (i : nat) : Q :=
  (inject_Z (Z.of_nat (sum_list (take (i + 1) train_bucket_sizes)))
   / inject_Z (Z.of_nat (sum_list train_bucket_sizes)))%Q.

(** *** train: the checkpoint policy *)

(** [l[start:]] for an integer [start]: a negative start counts from the
    end and both are clipped to the list. *)
Definition py_slice_from {A} (l : list A) (start : Z) : list A :=
  if bool_decide (start < 0)%Z
  then drop (Z.to_nat (Z.of_nat (length l) + start)) l
  else drop (Z.to_nat start) l.

(** [max(l)] on floats; [max([])] raises [ValueError]. *)
Definition py_max (l : list Q) : result Q :=
  match l with
  | [] => Raise ValueError
  | x :: l' => Ok (foldl (fun m y => if Qgt_bool y m then y else m) x l')
  end.

Record flags : Type := {
  learning_rate_decay_factor : Q;
  steps_per_checkpoint : Z;
  steps_per_validation : Z;
  steps_verbosity : Z;
  lr_rate_patience : Z;
  early_stop_patience : Z
}.

(** The variables of the training loop, with the learning rate of the
    model. *)
Record train_state : Type := {
  loss : Q;
  current_step : Z;
  previous_losses : list Q;
  total_loss : Q;
  learning_rate : Q
}.

(** [len(previous_losses) > (prevs-1) and loss > max(previous_losses[-prevs:])];
    [and] evaluates its right operand only when the left one is true. *)
Definition no_improvement (previous_losses : list Q) (prevs : Z) (loss : Q)
  : result bool :=
  if bool_decide (Z.of_nat (length previous_losses) > prevs - 1)%Z
  then m ← py_max (py_slice_from previous_losses (- prevs)); Ok (Qgt_bool loss m)
  else Ok false.

(** The block run when [current_step % steps_per_checkpoint == 0]; the
    boolean tells whether the [break] of the early stop was reached. *)
Definition checkpoint (FLAGS : flags) (st : train_state)
  : result (train_state * bool) :=
  let prevs := lr_rate_patience FLAGS in
  decay ← no_improvement (previous_losses st) prevs (loss st);
  let learning_rate :=
    if decay : bool
    then (learning_rate st * learning_rate_decay_factor FLAGS)%Q
    else learning_rate st in
  let previous_losses := previous_losses st ++ [loss st] in
  let loss := 0%Q in
  let prevs := early_stop_patience FLAGS in
  stop ← no_improvement previous_losses prevs loss;
  Ok ({| loss := loss;
         current_step := current_step st;
         previous_losses := previous_losses;
         total_loss := total_loss st;
         learning_rate := learning_rate |}, stop).

(** One turn of the [while True] loop, given the loss that [model.step]
    returned for the batch.  The statements are taken in their order: the
    four updates (the first one, of [step_time], divides by
    [steps_per_checkpoint]), the test of [steps_verbosity] before the
    line it prints, the checkpoint block with its [break], and the test
    of [steps_per_validation] before the validation block.  A modulo by
    zero raises [ZeroDivisionError].  [validate s] is the outcome of the
    validation block when it is run at step [s]: the average it prints or
    the exception it raises; the block assigns none of the variables of
    the loop. *)
Definition train_iteration (FLAGS : flags) (validate : Z -> result Q)
    (st : train_state) (step_loss : Q) : result (train_state * bool) :=
  if bool_decide (steps_per_checkpoint FLAGS = 0)%Z then Raise ZeroDivisionError
  else
    let st :=
      {| loss := (loss st + step_loss / inject_Z (steps_per_checkpoint FLAGS))%Q;
         current_step := (current_step st + 1)%Z;
         previous_losses := previous_losses st;
         total_loss := (total_loss st + step_loss)%Q;
         learning_rate := learning_rate st |} in
    if bool_decide (steps_verbosity FLAGS = 0)%Z then Raise ZeroDivisionError
    else
      '(st, stop) ←
        (if bool_decide (current_step st mod steps_per_checkpoint FLAGS = 0)%Z
         then checkpoint FLAGS st
         else Ok (st, false));
      if stop : bool then Ok (st, true)
      else if bool_decide (steps_per_validation FLAGS = 0)%Z
      then Raise ZeroDivisionError
      else if bool_decide
                (current_step st mod steps_per_validation FLAGS = 0)%Z
      then _ ← validate (current_step st); Ok (st, false)
      else Ok (st, false).

(** The loop over the losses of the successive steps; it ends at the
    early stop, or here at the end of the given losses. *)
Fixpoint train_loop (FLAGS : flags) (validate : Z -> result Q)
    (st : train_state) (step_losses : list Q)
  : result (train_state * bool) :=
  match step_losses with
  | [] => Ok (st, false)
  | step_loss :: rest =>
      '(st, stop) ← train_iteration FLAGS validate st step_loss;
      if stop : bool then Ok (st, true)
      else train_loop FLAGS validate st rest
  end.

(** The state before the first step, for the initial learning rate. *)
Definition train_init (learning_rate : Q) : train_state :=
  {| loss := 0; current_step := 0; previous_losses := [];
     total_loss := 0; learning_rate := learning_rate |}.

(** The last [n] entries of a list. *)
Definition last_n {A} (n : nat) (l : list A) : list A :=
  drop (length l - n) l.

(** *** gen_sample *)

(** [l[:n]] for an integer [n]. *)
Definition py_slice_to {A} (l : list A) (n : Z) : list A :=
  if bool_decide (n < 0)%Z
  then take (Z.to_nat (Z.of_nat (length l) + n)) l
  else take (Z.to_nat n) l.

(** [a[i] = x] on an array. *)
Definition set_item {A} (a : list A) (i : nat) (x : A) : result (list A) :=
  if bool_decide (i < length a) then Ok (<[i := x]> a) else Raise IndexError.

(** [a.shape[1]] of a two-dimensional array given by its rows. *)
Definition shape1 {A} (a : list (list A)) : nat :=
  match a with
  | [] => 0
  | row :: _ => length row
  end.

Section gen_sample.

(** Scores and probabilities are floats; the search only subtracts the
    logarithm of a probability from a score and sorts scores.  [sub_log s p]
    is [s - numpy.log(p)], [zero] is the entry of [numpy.zeros] and
    [argsort] is numpy's [argsort] with its default arguments.  [f_init]
    and [f_next] are the two callbacks; the decoder states and the
    context are opaque. *)
Context {score prob state context input : Type}.
Variable zero : score.
Variable sub_log : score -> prob -> score.
Variable argsort : list score -> list nat.
Variable f_init : input -> list state * context.
Variable f_next :
  list Z -> list context -> list state -> list (list prob) * list Z * list state.

Record beam : Type := Beam {
  sample : list (list Z);
  sample_score : list score;
  live_k : nat;
  dead_k : nat;
  hyp_samples : list (list Z);
  hyp_scores : list score;
  next_w : list Z;
  next_state : list state
}.

(** [hyp_scores[:, None] - numpy.log(next_p)], of shape
    (rows, voc_size); an axis of length one is broadcast. *)
Definition cand_scores (hyp_scores : list score) (next_p : list (list prob))
  : result (list (list score)) :=
  match hyp_scores, next_p with
  | [s], _ => Ok (map (map (sub_log s)) next_p)
  | _, [row] => Ok (map (fun s => map (sub_log s) row) hyp_scores)
  | _, _ =>
      if bool_decide (length hyp_scores = length next_p)
      then Ok (zip_with (fun s row => map (sub_log s) row) hyp_scores next_p)
      else Raise ValueError
  end.

(** Body of [for idx, [ti, wi] in enumerate(zip(trans_indices, word_indices))]. *)
Definition extend (hyp_samples : list (list Z)) (costs : list score)
    (next_state : list state)
    (acc : list (list Z) * list score * list state)
    (item : nat * (nat * nat))
  : result (list (list Z) * list score * list state) :=
  let '(new_hyp_samples, new_hyp_scores, new_hyp_states) := acc in
  let '(idx, (ti, wi)) := item in
  h ← index hyp_samples ti;
  c ← index costs ti;
  new_hyp_scores ← set_item new_hyp_scores idx c;
  s ← index next_state ti;
  Ok (new_hyp_samples ++ [h ++ [Z.of_nat wi]], new_hyp_scores,
      new_hyp_states ++ [s]).

(** The lists filled by the loop that checks the finished samples. *)
Record sorted_out : Type := SortedOut {
  so_sample : list (list Z);
  so_sample_score : list score;
  so_dead_k : nat;
  so_new_live_k : nat;
  so_hyp_samples : list (list Z);
  so_hyp_scores : list score;
  so_hyp_states : list state
}.

(** Body of [for idx in xrange(len(new_hyp_samples))]. *)
Definition sort_out (new_hyp_samples : list (list Z))
    (new_hyp_scores : list score) (new_hyp_states : list state)
    (acc : sorted_out) (idx : nat) : result sorted_out :=
  h ← index new_hyp_samples idx;
  w ← index_last h;
  if bool_decide (w = 0%Z) then
    h ← index new_hyp_samples idx;
    c ← index new_hyp_scores idx;
    Ok (SortedOut (so_sample acc ++ [h]) (so_sample_score acc ++ [c])
                  (so_dead_k acc + 1) (so_new_live_k acc)
                  (so_hyp_samples acc) (so_hyp_scores acc) (so_hyp_states acc))
  else
    h ← index new_hyp_samples idx;
    c ← index new_hyp_scores idx;
    s ← index new_hyp_states idx;
    Ok (SortedOut (so_sample acc) (so_sample_score acc)
                  (so_dead_k acc) (so_new_live_k acc + 1)
                  (so_hyp_samples acc ++ [h]) (so_hyp_scores acc ++ [c])
                  (so_hyp_states acc ++ [s])).

(** The candidates of one step: [ranks_flat], [trans_indices],
    [word_indices] and [costs]. *)
Definition select (k : nat) (b : beam) (next_p : list (list prob))
  : result (list nat * list nat * list nat * list score) :=
  cand ← cand_scores (hyp_scores b) next_p;
  let cand_flat := concat cand in
  let ranks_flat :=
    py_slice_to (argsort cand_flat) (Z.of_nat k - Z.of_nat (dead_k b)) in
  let voc_size := shape1 next_p in
  let trans_indices := (fun r => r / voc_size) <$> ranks_flat in
  let word_indices := (fun r => r mod voc_size) <$> ranks_flat in
  costs ← comprehension (index cand_flat) ranks_flat;
  Ok (ranks_flat, trans_indices, word_indices, costs).

(** The body of [for ii in xrange(maxlen)]; the boolean tells whether one
    of the two [break]s was reached. *)
Definition search_step (ctx0 : context) (k : nat) (b : beam)
  : result (beam * bool) :=
  let ctx := replicate (live_k b) ctx0 in
  let '(next_p, next_w', next_state') := f_next (next_w b) ctx (next_state b) in
  '(ranks_flat, trans_indices, word_indices, costs) ← select k b next_p;
  new_hyp_scores ←
    (if bool_decide (Z.of_nat k - Z.of_nat (dead_k b) < 0)%Z
     then Raise ValueError
     else Ok (replicate (k - dead_k b) zero));
  '(new_hyp_samples, new_hyp_scores, new_hyp_states) ←
    for_each (extend (hyp_samples b) costs next_state')
             (imap pair (zip trans_indices word_indices))
             (([] : list (list Z)), new_hyp_scores, ([] : list state));
  so ←
    for_each (sort_out new_hyp_samples new_hyp_scores new_hyp_states)
             (xrange (length new_hyp_samples))
             (SortedOut (sample b) (sample_score b) (dead_k b) 0 [] [] []);
  let live_k := so_new_live_k so in
  if bool_decide (so_new_live_k so < 1) then
    Ok (Beam (so_sample so) (so_sample_score so) live_k (so_dead_k so)
             (so_hyp_samples so) (so_hyp_scores so) next_w' next_state', true)
  else if bool_decide (k <= so_dead_k so) then
    Ok (Beam (so_sample so) (so_sample_score so) live_k (so_dead_k so)
             (so_hyp_samples so) (so_hyp_scores so) next_w' next_state', true)
  else
    next_w ← comprehension index_last (so_hyp_samples so);
    Ok (Beam (so_sample so) (so_sample_score so) live_k (so_dead_k so)
             (so_hyp_samples so) (so_hyp_scores so) next_w (so_hyp_states so),
        false).

(** The loop [for ii in xrange(maxlen)] with [n] iterations left.  Next to
    the variables at the exit it returns the variables as they were at the
    end of each iteration that ran, in order. *)
Fixpoint search_loop (ctx0 : context) (k : nat) (n : nat) (b : beam)
  : result (beam * list beam) :=
  match n with
  | 0 => Ok (b, [])
  | S n' =>
      '(b', stop) ← search_step ctx0 k b;
      if stop : bool then Ok (b', [b'])
      else '(b'', trace) ← search_loop ctx0 k n' b'; Ok (b'', b' :: trace)
  end.

(** The statements after the loop. *)
Definition dump (b : beam) : result (list (list Z) * list score) :=
  if bool_decide (0 < live_k b) then
    for_each
      (fun '(sample, sample_score) idx =>
         h ← index (hyp_samples b) idx;
         c ← index (hyp_scores b) idx;
         Ok (sample ++ [h], sample_score ++ [c]))
      (xrange (live_k b)) (sample b, sample_score b)
  else Ok (sample b, sample_score b).

Definition gen_sample_init (x : input) : beam * context :=
  let '(next_state, ctx0) := f_init x in
  (Beam [] [] 1 0 (replicate 1 []) (replicate 1 zero) [(-1)%Z] next_state,
   ctx0).

Definition gen_sample (x : input) (k maxlen : nat)
  : result (list (list Z) * list score) :=
  let '(b, ctx0) := gen_sample_init x in
  '(b, _) ← search_loop ctx0 k maxlen b;
  dump b.

(** *** Specification side of gen_sample *)

(** The last token of a hypothesis is the end-of-sequence id, which
    [gen_sample] takes to be 0. *)
Definition ends_with_eos (h : list Z) : bool :=
  match last h with
  | Some w => bool_decide (w = 0%Z)
  | None => false
  end.

(** The bookkeeping of the search after [n] iterations, for a beam of
    width [k]. *)
Definition well_formed (k n : nat) (b : beam) : Prop :=
  length (hyp_samples b) = live_k b /\
  length (hyp_scores b) = live_k b /\
  length (sample b) = dead_k b /\
  length (sample_score b) = dead_k b /\
  live_k b + dead_k b <= k /\
  Forall (fun h => length h = n) (hyp_samples b) /\
  Forall (fun h => length h <= n) (sample b) /\
  Forall (fun h => ends_with_eos h = true) (sample b) /\
  Forall (fun h => ends_with_eos h = false) (hyp_samples b).

(** The variables are fit for one more iteration. *)
Definition ready (b : beam) : Prop :=
  length (next_w b) = live_k b /\ 1 <= live_k b.

(** What one iteration works on, read off the variables [b] at its
    start.  [answer] is what [f_next] returns for them and [voc_size] the
    length of its rows of probabilities. *)
Definition answer (ctx0 : context) (b : beam)
  : list (list prob) * list Z * list state :=
  f_next (next_w b) (replicate (live_k b) ctx0) (next_state b).

Definition voc_size (ctx0 : context) (b : beam) : nat :=
  shape1 (answer ctx0 b).1.1.

(** The candidates of the iteration, numbered row by row: candidate
    [i * voc_size + w] extends hypothesis [i] by the word [w], and its
    score is the score of hypothesis [i] minus the logarithm of the
    probability of [w] after it. *)
Definition candidate_scores (ctx0 : context) (b : beam) : list score :=
  concat (zip_with (fun s row => map (sub_log s) row)
                   (hyp_scores b) (answer ctx0 b).1.1).

Definition candidate (ctx0 : context) (b : beam) (r : nat) : list Z :=
  nth (r / voc_size ctx0 b) (hyp_samples b) []
  ++ [Z.of_nat (r mod voc_size ctx0 b)].

(** The candidates selected: the first [k - dead_k] of them in the order
    of [argsort] on their scores. *)
Definition selected (ctx0 : context) (k : nat) (b : beam) : list nat :=
  take (k - dead_k b) (argsort (candidate_scores ctx0 b)).

(** The last token of candidate [r] is the end-of-sequence id 0. *)
Definition finishes (ctx0 : context) (b : beam) (r : nat) : bool :=
  bool_decide (r mod voc_size ctx0 b = 0).

(** The score that the loop records with the selected candidate [r]: the
    entry of [costs], which holds the scores of the selected candidates
    in their order, at the index [r / voc_size] of the parent hypothesis
    of [r]. *)
Definition recorded_score (ctx0 : context) (k : nat) (b : beam) (r : nat)
  : score :=
  nth (nth (r / voc_size ctx0 b) (selected ctx0 k b) 0)
      (candidate_scores ctx0 b) zero.

(** From [b] to [b']: the selected candidates of [b] were sorted out in
    their order, those whose last token is the end-of-sequence id to the
    end of the finished samples and the others to the live hypotheses,
    which they replace; each goes with its recorded score.  When the
    search goes on, the next words are the last tokens of the live
    hypotheses and the next states the states that [f_next] returned for
    their parents; when it stops, both are left as [f_next] returned
    them. *)
Definition sorted_by_eos (ctx0 : context) (k : nat) (b b' : beam) : Prop :=
  let finished := List.filter (finishes ctx0 b) (selected ctx0 k b) in
  let live :=
    List.filter (fun r => negb (finishes ctx0 b r)) (selected ctx0 k b) in
  sample b' = sample b ++ (candidate ctx0 b <$> finished) /\
  sample_score b'
  = sample_score b ++ (recorded_score ctx0 k b <$> finished) /\
  dead_k b' = dead_k b + length finished /\
  hyp_samples b' = candidate ctx0 b <$> live /\
  hyp_scores b' = recorded_score ctx0 k b <$> live /\
  live_k b' = length live /\
  if bool_decide (length live < 1)
     || bool_decide (k <= dead_k b + length finished)
  then next_w b' = (answer ctx0 b).1.2 /\ next_state b' = (answer ctx0 b).2
  else next_w b' = (fun r => Z.of_nat (r mod voc_size ctx0 b)) <$> live /\
       Forall2 (fun s r => (answer ctx0 b).2 !! (r / voc_size ctx0 b) = Some s)
               (next_state b') live.

(** Every beam of the trace comes from the one before it by [step]. *)
Fixpoint chain (step : beam -> beam -> Prop) (b : beam) (trace : list beam)
  : Prop :=
  match trace with
  | [] => True
  | b' :: trace' => step b b' /\ chain step b' trace'
  end.

End gen_sample.

(** *** A run of gen_sample on integers *)

(** A stable [argsort] on integer scores: the indices are inserted one by
    one, each after the indices whose score is not larger. *)
Fixpoint insert_rank (a : list Z) (i : nat) (ranks : list nat) : list nat :=
  match ranks with
  | [] => [i]
  | j :: ranks' =>
      if bool_decide (nth i a 0 < nth j a 0)%Z then i :: j :: ranks'
      else j :: insert_rank a i ranks'
  end.

Definition argsort_Z (a : list Z) : list nat :=
  foldl (fun ranks i => insert_rank a i ranks) [] (seq 0 (length a)).

(** Scores in fixed-point units, a probability given by its logarithm in
    the same units. *)
Definition sub_log_Z (s log_p : Z) : Z := (s - log_p)%Z.

(** A model that gives every live hypothesis the same distribution over
    the vocabulary, [row] holding the logarithms. *)
Definition f_next_const (row : list Z) (w : list Z) (ctx : list unit)
    (st : list unit) : list (list Z) * list Z * list unit :=
  ((fun _ => row) <$> w, (fun _ => 0%Z) <$> w, (fun _ => tt) <$> w).

Definition f_init_unit (x : unit) : list unit * unit := ([tt], tt).

(** The beam search over integers with the constant model. *)
Definition gen_sample_Z (row : list Z) (k maxlen : nat)
  : result (list (list Z) * list Z) :=
  gen_sample 0%Z sub_log_Z argsort_Z f_init_unit (f_next_const row)
             tt k maxlen.

(** *** Settings used in the examples of train *)

Definition slow_decay : flags :=
  {| learning_rate_decay_factor := 99 # 100;
     steps_per_checkpoint := 1;
     steps_per_validation := 1000;
     steps_verbosity := 10;
     lr_rate_patience := 1;
     early_stop_patience := 10 |}.



(** *** train: the batch of a training step *)

(** [[len(train_set[b]) for b in xrange(len(_buckets))]]. *)
Definition train_bucket_sizes (buckets : list bucket)
    (train_set : list (list example)) : result (list nat) :=
  comprehension (fun b => d ← index train_set b; Ok (length d))
                (xrange (length buckets)).

(** The sizes and the scale of the buckets, which [train] computes once
    before its loop, followed by the first statements of a turn of the
    loop: the draw of a bucket and the batch built from that bucket.  The
    training set is not changed by the loop, so every turn sees the same
    scale. *)
Definition train_batch (buckets : list bucket) (batch_size : nat)
    (train_set : list (list example)) (random_number_01 : Q)
    (rnd : nat -> nat) : result (nat * nmt_model.batch) :=
  sizes ← train_bucket_sizes buckets train_set;
  bucket_id ← draw_bucket sizes random_number_01;
  batch ← nmt_model.get_batch buckets batch_size rnd train_set bucket_id;
  Ok (bucket_id, batch).

(** *** decode_from_stdin, decode_from_file *)

(** [min([b for b in xrange(len(_buckets))
         if _buckets[b][0] > len(token_ids)])]. *)
Definition decode_bucket (buckets : list bucket) (token_ids : sentence)
  : result nat :=
  candidates ←
    comprehension
      (fun b => bk ← index buckets b;
                Ok (b, bool_decide (length token_ids < bk.1)))
      (xrange (length buckets));
  py_min (fst <$> List.filter snd candidates).

(** The dictionary [{bucket_id: [(token_ids, token_ids[::-1], [])]}], as
    the list that holds its one value at the index [bucket_id];
    [get_batch] reads it at that key only. *)
Definition decode_data (bucket_id : nat) (token_ids : sentence)
  : list (list example) :=
  replicate bucket_id [] ++ [[(token_ids, reverse token_ids, [])]].

(** [l.index(x)]; it raises [ValueError] when [x] is not in the list. *)
Fixpoint py_index (x : Z) (l : list Z) : result nat :=
  match l with
  | [] => Raise ValueError
  | y :: l' => if bool_decide (y = x) then Ok 0 else S <$> py_index x l'
  end.

(** [if EOS_ID in outputs: outputs = outputs[:outputs.index(EOS_ID)]]. *)
Definition cut_at_eos (outputs : list Z) : result (list Z) :=
  if bool_decide (data_utils.EOS_ID ∈ outputs)
  then i ← py_index data_utils.EOS_ID outputs; Ok (take i outputs)
  else Ok outputs.

Section decode.

(** The session of the model and numpy's [argmax] on one array of
    logits. *)
Context {session value : Type}.
Variable session_run :
  session -> list nmt_model.fetch -> gmap string nmt_model.feed_value
  -> session * list value.
Variable argmax : value -> nat.

(** The statements of the decoding loop up to the call of [step]: the
    bucket of the sentence and its batch of one. *)
Definition decode_batch (model : nmt_model.NMTModel) (rnd : nat -> nat)
    (token_ids : sentence) : result (nat * nmt_model.batch) :=
  bucket_id ← decode_bucket (nmt_model.buckets model) token_ids;
  batch ← nmt_model.get_batch (nmt_model.buckets model)
             (nmt_model.batch_size model) rnd
             (decode_data bucket_id token_ids) bucket_id;
  Ok (bucket_id, batch).

(** One turn of the loop of [decode_from_stdin]: the ids of the words it
    prints for the sentence [token_ids], the greedy outputs cut at the
    first end-of-sequence id.  In forward mode [step] returns the list of
    the output logits as its third result. *)
Definition decode_sentence (model : nmt_model.NMTModel) (rnd : nat -> nat)
    (sess : session) (token_ids : sentence)
  : session * result (list Z) :=
  match decode_batch model rnd token_ids with
  | Raise e => (sess, Raise e)
  | Ok (bucket_id, batch) =>
      let '(sess, r) :=
        nmt_model.step session_run model sess
          (nmt_model.batch_encoder_inputs batch)
          (nmt_model.batch_encoder_inputs_r batch)
          (nmt_model.batch_decoder_inputs batch)
          (nmt_model.batch_weights batch) bucket_id true in
      (sess,
       '(_, _, output_logits) ← r;
       let outputs :=
         (fun logit => Z.of_nat (argmax logit))
           <$> default [] output_logits in
       cut_at_eos outputs)
  end.

End decode.

(** *** More settings used in the examples of train *)

(** A validation block that prints the average 0 whenever it is run. *)
Definition quiet_validation (s : Z) : result Q := Ok 0%Q.

Definition every_second_step : flags :=
  {| learning_rate_decay_factor := 99 # 100;
     steps_per_checkpoint := 2;
     steps_per_validation := 1000;
     steps_verbosity := 10;
     lr_rate_patience := 1;
     early_stop_patience := 10 |}.

Definition no_patience : flags :=
  {| learning_rate_decay_factor := 99 # 100;
     steps_per_checkpoint := 2;
     steps_per_validation := 1000;
     steps_verbosity := 10;
     lr_rate_patience := 0;
     early_stop_patience := 10 |}.

(** *** More of the specification side of gen_sample *)

(** The id 0 occurs in a hypothesis at its last position or not at
    all. *)
Definition zero_only_last (h : list Z) : Prop :=
  forall i, h !! i = Some 0%Z -> S i = length h.

(** *** train: the validation block *)

Section validation.

(** The session of the model and the number that a loss returned by
    [step] stands for. *)
Context {session value : Type}.
Variable session_run :
  session -> list nmt_model.fetch -> gmap string nmt_model.feed_value
  -> session * list value.
Variable loss_value : value -> Q.

(** [for bucket_id in xrange(len(_buckets))] over the bucket ids still to
    visit; each batch uses up [batch_size] random draws. *)
Fixpoint eval_loop (model : nmt_model.NMTModel) (rnd : nat -> nat)
    (dev_set : list (list example)) (bucket_ids : list nat)
    (sess : session) (total_eval_loss : Q) : session * result Q :=
  match bucket_ids with
  | [] => (sess, Ok total_eval_loss)
  | bucket_id :: rest =>
      match nmt_model.get_batch (nmt_model.buckets model)
              (nmt_model.batch_size model) rnd dev_set bucket_id with
      | Raise e => (sess, Raise e)
      | Ok batch =>
          let '(sess, r) :=
            nmt_model.step session_run model sess
              (nmt_model.batch_encoder_inputs batch)
              (nmt_model.batch_encoder_inputs_r batch)
              (nmt_model.batch_decoder_inputs batch)
              (nmt_model.batch_weights batch) bucket_id true in
          match r with
          | Raise e => (sess, Raise e)
          | Ok (_, eval_loss, _) =>
              eval_loop model
                (fun j => rnd (nmt_model.batch_size model + j))
                dev_set rest sess
                (total_eval_loss + loss_value eval_loss)%Q
          end
      end
  end.

(** The block run when [current_step % steps_per_validation == 0]: the
    averaged loss it prints. *)
Definition validation (model : nmt_model.NMTModel) (rnd : nat -> nat)
    (dev_set : list (list example)) (sess : session)
  : session * result Q :=
  let n := length (nmt_model.buckets model) in
  let '(sess, r) := eval_loop model rnd dev_set (xrange n) sess 0%Q in
  (sess,
   total_eval_loss ← r;
   if bool_decide (n = 0) then Raise ZeroDivisionError
   else Ok (total_eval_loss / inject_Z (Z.of_nat n))%Q).

End validation.

End translate.

(** * Runs on small inputs *)

(** Four line pairs over the configured buckets: the first pair fits the
    first bucket; the second has six source ids and goes to the second;
    the third has forty source ids, fits no bucket and is dropped; the
    fourth has a target of nine ids, ten with the end-of-sequence id,
    which the first bucket has no room for. *)
Example read_data_run :
  translate.read_data translate._buckets
    [[1; 2]; [1; 2; 3; 4; 5; 6]; replicate 40 5; [8]]%Z
    [[3; 4]; [7]; [9]; replicate 9 6]%Z None
  = [[([1; 2], [2; 1], [3; 4; 2])];
     [([1; 2; 3; 4; 5; 6], [6; 5; 4; 3; 2; 1], [7; 2]);
      ([8], [8], [6; 6; 6; 6; 6; 6; 6; 6; 6; 2])];
     []; []]%Z.
Proof. reflexivity. Qed.

(** The same files read with a limit of one line. *)
Example read_data_limit :
  translate.read_data translate._buckets
    [[1; 2]; [1; 2; 3; 4; 5; 6]; replicate 40 5; [8]]%Z
    [[3; 4]; [7]; [9]; replicate 9 6]%Z (Some 1%Z)
  = [[([1; 2], [2; 1], [3; 4; 2])]; []; []; []]%Z.
Proof. reflexivity. Qed.

(** One bucket (5, 10), one example and a batch of one. *)
Example get_batch_run :
  nmt_model.get_batch [(5, 10)] 1 (fun _ => 0)
    [[([1; 2], [2; 1], [3; 4; 2])]]%Z 0
  = Ok (nmt_model.Batch
          [[1]; [2]; [0]; [0]; [0]]%Z
          [[2]; [1]; [0]; [0]; [0]]%Z
          [[1]; [3]; [4]; [2]; [0]; [0]; [0]; [0]; [0]; [0]]%Z
          [[1]; [1]; [1]; [0]; [0]; [0]; [0]; [0]; [0]; [0]]%Q).
Proof. reflexivity. Qed.

(** An empty bucket cannot be sampled. *)
Example get_batch_empty_bucket :
  nmt_model.get_batch [(5, 10)] 1 (fun _ => 0) [[]] 0 = Raise IndexError.
Proof. reflexivity. Qed.

(** The populations 10, 0 and 90: the cumulative fractions, and the
    bucket drawn just below and at the first fraction. *)
Example train_buckets_scale_run :
  translate.train_buckets_scale [10; 0; 90]
  = Ok [10 # 100; 10 # 100; 100 # 100].
Proof. reflexivity. Qed.

Example draw_bucket_below : translate.draw_bucket [10; 0; 90] (1 # 20) = Ok 0.
Proof. reflexivity. Qed.

Example draw_bucket_at : translate.draw_bucket [10; 0; 90] (1 # 10) = Ok 2.
Proof. reflexivity. Qed.

(** No example at all: the division by the total raises. *)
Example draw_bucket_no_data :
  translate.draw_bucket [0; 0] (1 # 2) = Raise ZeroDivisionError.
Proof. reflexivity. Qed.

(** A beam of width 3 over four equally likely words (logarithm -1.39, in
    hundredths) and a cap of two tokens: word 0 ends a hypothesis. *)
Example gen_sample_run :
  translate.gen_sample_Z [-139; -139; -139; -139]%Z 3 2
  = Ok ([[0]; [1; 0]; [1; 1]]%Z, [139; 278; 278]%Z).
Proof. reflexivity. Qed.

(** * Properties *)

(** ** Generic facts about the exception monad *)

Lemma bind_Ok {A B} (m : result A) (f : A -> result B) (b : B) :
  m ≫= f = Ok b -> exists a, m = Ok a /\ f a = Ok b.
Proof. destruct m as [a|e]; simpl; [eauto | discriminate]. Qed.

Lemma index_Ok {A} (l : list A) i x : index l i = Ok x <-> l !! i = Some x.
Proof. unfold index. destruct (l !! i); split; congruence. Qed.

Lemma index_lt {A} (l : list A) i :
  i < length l -> exists x, index l i = Ok x /\ l !! i = Some x.
Proof.
  intros Hi. destruct (lookup_lt_is_Some_2 l i Hi) as [x Hx].
  exists x. split; [by apply index_Ok | done].
Qed.

(** ** read_data *)

Section read_data.

Import translate.

Variable buckets : list bucket.

Lemma place_length s sr t bs off ds :
  length (place s sr t bs off ds) = length ds.
Proof.
  revert off. induction bs as [|[ss ts] bs IH]; intros off; simpl; [done|].
  case_match; [by rewrite length_alter | apply IH].
Qed.

(** [place] on the tail [bs] of the bucket list, none of the buckets
    before it having room: the example goes to the first bucket with room. *)
Lemma place_lookup s t pre bs ds b :
  buckets = pre ++ bs ->
  (forall j, j < length pre -> fits buckets s t j = false) ->
  place s (reverse s) (t ++ [data_utils.EOS_ID]) bs (length pre) ds !! b =
  if first_fit buckets b (s, t)
  then (fun d => d ++ [stored (s, t)]) <$> ds !! b
  else ds !! b.
Proof.
  revert pre. induction bs as [|[ss ts] bs IH]; intros pre Hb Hpre.
  - simpl. rewrite app_nil_r in Hb. subst pre.
    unfold first_fit. simpl.
    destruct (decide (b < length buckets)) as [Hlt|Hge].
    + rewrite Hpre by done. done.
    + unfold fits.
      destruct (buckets !! b) as [[ms mt]|] eqn:Hl; [|done].
      apply lookup_lt_Some in Hl. lia.
  - simpl.
    assert (Hhd : fits buckets s t (length pre)
                  = bool_decide (length s < ss)
                    && bool_decide (length (t ++ [data_utils.EOS_ID]) < ts)).
    { unfold fits. rewrite Hb, lookup_app_r, Nat.sub_diag by lia. simpl.
      rewrite length_app. simpl. done. }
    rewrite <- Hhd.
    destruct (fits buckets s t (length pre)) eqn:Hf.
    + unfold first_fit. simpl.
      destruct (decide (b = length pre)) as [->|Hne].
      * rewrite list_lookup_alter_eq, Hf. simpl.
        replace (forallb _ _) with true; [done|].
        symmetry. apply forallb_forall. intros j Hj.
        apply in_seq in Hj. rewrite Hpre by lia. done.
      * rewrite list_lookup_alter_ne by done.
        destruct (fits buckets s t b) eqn:Hfb; [|done]. simpl.
        replace (forallb _ _) with false; [done|].
        symmetry. apply not_true_is_false. intros Hall.
        rewrite forallb_forall in Hall.
        assert (Hlt : length pre < b).
        { destruct (decide (b < length pre)); [|lia].
          rewrite Hpre in Hfb by done. done. }
        specialize (Hall (length pre)). rewrite Hf in Hall.
        simpl in Hall. discriminate Hall. apply in_seq. lia.
    + specialize (IH (pre ++ [(ss, ts)])).
      rewrite length_app in IH. simpl in IH.
      replace (length pre + 1) with (S (length pre)) in IH by lia.
      apply IH.
      * by rewrite <- app_assoc.
      * intros j Hj. destruct (decide (j = length pre)) as [->|]; [done|].
        apply Hpre. lia.
Qed.

Lemma read_loop_fold max_size src tgt counter ds :
  (0 <= counter)%Z ->
  read_loop buckets max_size src tgt counter ds =
  foldl (fun ds p =>
           place p.1 (reverse p.1) (p.2 ++ [data_utils.EOS_ID]) buckets 0 ds)
        ds (remaining max_size counter (zip src tgt)).
Proof.
  revert tgt counter ds. induction src as [|s src IH]; intros tgt counter ds Hc.
  - simpl. unfold remaining. destruct max_size as [m|]; [|done].
    case_bool_decide; [done|]. by rewrite take_nil.
  - destruct tgt as [|t tgt].
    + simpl. unfold remaining. destruct max_size as [m|]; [|done].
      case_bool_decide; [done|]. by rewrite take_nil.
    + simpl. unfold within_limit, remaining.
      destruct max_size as [m|].
      * case_bool_decide as Hm0; simpl.
        -- rewrite IH by lia. unfold remaining. by rewrite bool_decide_true.
        -- case_bool_decide as Hlt.
           ++ rewrite IH by lia. unfold remaining.
              rewrite bool_decide_false by done.
              replace (Z.to_nat (m - counter))
                with (S (Z.to_nat (m - (counter + 1)))) by lia.
              done.
           ++ replace (Z.to_nat (m - counter)) with 0 by lia. done.
      * rewrite IH by lia. done.
Qed.

Lemma fold_place_length pairs ds :
  length (foldl (fun ds p =>
            place p.1 (reverse p.1) (p.2 ++ [data_utils.EOS_ID]) buckets 0 ds)
          ds pairs) = length ds.
Proof.
  revert ds. induction pairs as [|p pairs IH]; intros ds; simpl; [done|].
  by rewrite IH, place_length.
Qed.

Lemma fold_place_lookup pairs ds b :
  foldl (fun ds p =>
           place p.1 (reverse p.1) (p.2 ++ [data_utils.EOS_ID]) buckets 0 ds)
        ds pairs !! b =
  (fun d => d ++ (stored <$> List.filter (first_fit buckets b) pairs))
    <$> ds !! b.
Proof.
  revert ds. induction pairs as [|[s t] pairs IH]; intros ds; simpl.
  - destruct (ds !! b); simpl; [|done]. by rewrite app_nil_r.
  - rewrite IH. simpl.
    pose proof (place_lookup s t [] buckets ds b eq_refl) as Hp.
    simpl in Hp. rewrite Hp by (intros; lia).
    destruct (first_fit buckets b (s, t)); [|done].
    destruct (ds !! b); simpl; [|done]. by rewrite <- app_assoc.
Qed.

Lemma stored_inj p q : stored p = stored q -> p = q.
Proof.
  destruct p as [s t], q as [s' t']. unfold stored. simpl.
  intros H. injection H as Hs _ Ht. apply app_inv_tail in Ht. congruence.
Qed.

Lemma first_fit_true i p :
  first_fit buckets i p = true <->
  fits buckets p.1 p.2 i = true /\
  forall j, j < i -> fits buckets p.1 p.2 j = false.
Proof.
  unfold first_fit. rewrite andb_true_iff, forallb_forall.
  split; intros [Hf Hall]; (split; [done|]).
  - intros j Hj. apply negb_true_iff, Hall, in_seq. lia.
  - intros j Hj. apply in_seq in Hj. apply negb_true_iff, Hall. lia.
Qed.

End read_data.

(** C1.  [read_data] stores every loaded pair in the bucket of smallest
    index whose source bound exceeds the source length and whose target
    bound exceeds the target length plus one (the target is stored with
    the end-of-sequence id appended), and stores a pair that no bucket has
    room for nowhere; reading raises nothing.  Bucket [b] of the result
    holds, in reading order, exactly the loaded pairs whose first fitting
    bucket is [b]. *)
Theorem read_data_first_fit (buckets : list bucket)
    (source_file target_file : list sentence) (max_size : option Z) :
  length (translate.read_data buckets source_file target_file max_size)
  = length buckets /\
  (forall b, b < length buckets ->
     translate.read_data buckets source_file target_file max_size !! b
     = Some (translate.stored <$>
               List.filter (translate.first_fit buckets b)
                 (translate.loaded source_file target_file max_size))) /\
  (forall p i,
     p ∈ translate.loaded source_file target_file max_size ->
     translate.fits buckets p.1 p.2 i = true ->
     (forall j, j < i -> translate.fits buckets p.1 p.2 j = false) ->
     exists d,
       translate.read_data buckets source_file target_file max_size !! i
       = Some d /\
       translate.stored p ∈ d /\
       forall b d',
         b <> i ->
         translate.read_data buckets source_file target_file max_size !! b
         = Some d' ->
         translate.stored p ∉ d') /\
  (forall p,
     p ∈ translate.loaded source_file target_file max_size ->
     (forall i, translate.fits buckets p.1 p.2 i = false) ->
     forall b d,
       translate.read_data buckets source_file target_file max_size !! b
       = Some d ->
       translate.stored p ∉ d).
Proof.
  assert (Hrd : translate.read_data buckets source_file target_file max_size =
    foldl (fun ds p =>
             translate.place p.1 (reverse p.1) (p.2 ++ [data_utils.EOS_ID])
                             buckets 0 ds)
          (replicate (length buckets) [])
          (translate.loaded source_file target_file max_size)).
  { unfold translate.read_data. rewrite read_loop_fold by lia.
    unfold translate.remaining, translate.loaded. destruct max_size as [m|]; [|done].
    case_bool_decide; [done|]. by rewrite Z.sub_0_r. }
  assert (Hlen : length (translate.read_data buckets source_file target_file
                           max_size) = length buckets).
  { by rewrite Hrd, fold_place_length, length_replicate. }
  assert (Hlook : forall b, b < length buckets ->
     translate.read_data buckets source_file target_file max_size !! b
     = Some (translate.stored <$>
               List.filter (translate.first_fit buckets b)
                 (translate.loaded source_file target_file max_size))).
  { intros b Hb. rewrite Hrd, fold_place_lookup.
    rewrite lookup_replicate_2 by done. done. }
  assert (Hmem : forall p b d,
     translate.read_data buckets source_file target_file max_size !! b
     = Some d ->
     translate.stored p ∈ d ->
     translate.first_fit buckets b p = true).
  { intros p b d Hd Hin.
    assert (Hb : b < length buckets).
    { rewrite <- Hlen. by eapply lookup_lt_Some. }
    rewrite Hlook in Hd by done. injection Hd as <-.
    apply list_elem_of_fmap in Hin as (q & Hq & Hin).
    apply stored_inj in Hq. subst q.
    apply list_elem_of_In, filter_In in Hin. tauto. }
  split; [done|]. split; [done|]. split.
  - intros p i Hp Hfit Hmin.
    assert (Hi : i < length buckets).
    { unfold translate.fits in Hfit.
      destruct (buckets !! i) eqn:Hl; [|done]. by eapply lookup_lt_Some. }
    eexists. split; [by apply Hlook|]. split.
    + apply list_elem_of_fmap. exists p. split; [done|].
      apply list_elem_of_In, filter_In. split; [by apply list_elem_of_In|].
      by apply first_fit_true.
    + intros b d' Hne Hd' Hin.
      pose proof (Hmem p b d' Hd' Hin) as Hff.
      apply first_fit_true in Hff as [Hfb Hminb].
      destruct (Nat.lt_trichotomy b i) as [Hlt|[Heq|Hgt]]; [|done|].
      * rewrite Hmin in Hfb by done. done.
      * rewrite Hminb in Hfit by done. done.
  - intros p Hp Hnone b d Hd Hin.
    pose proof (Hmem p b d Hd Hin) as Hff.
    apply first_fit_true in Hff as [Hfb _]. by rewrite Hnone in Hfb.
Qed.

(** ** Loops that raise nothing *)

Lemma ret_bind {A B} (a : A) (f : A -> result B) : Ok a ≫= f = f a.
Proof. reflexivity. Qed.

Lemma for_each_cons {A S} (body : S -> A -> result S) x xs acc :
  for_each body (x :: xs) acc = body acc x ≫= for_each body xs.
Proof. reflexivity. Qed.

Lemma for_each_snoc {A S} (body : S -> A -> result S) xs x acc :
  for_each body (xs ++ [x]) acc
  = for_each body xs acc ≫= fun acc' => body acc' x.
Proof.
  revert acc. induction xs as [|y xs IH]; intros acc; simpl.
  - by destruct (body acc x).
  - destruct (body acc y) as [acc'|e]; simpl; [apply IH | done].
Qed.

Lemma comprehension_map {A B} (f : A -> result B) (g : A -> B) xs :
  (forall x, x ∈ xs -> f x = Ok (g x)) ->
  comprehension f xs = Ok (g <$> xs).
Proof.
  induction xs as [|x xs IH]; intros Hf; simpl; [done|].
  rewrite Hf by left. simpl. rewrite IH; [done|].
  intros y Hy. apply Hf. by right.
Qed.

Lemma xrange_elem n i : i ∈ xrange n <-> i < n.
Proof. unfold xrange. rewrite list_elem_of_In, in_seq. lia. Qed.

Lemma xrange_S n : xrange (S n) = xrange n ++ [n].
Proof. unfold xrange. by rewrite seq_S. Qed.

Lemma xrange_length n : length (xrange n) = n.
Proof. apply length_seq. Qed.

Lemma xrange_lookup n i : i < n -> xrange n !! i = Some i.
Proof. intros. unfold xrange. by rewrite lookup_seq_lt. Qed.

Lemma lookup_nth_lt {A} (l : list A) i (x0 : A) :
  i < length l -> l !! i = Some (nth i l x0).
Proof.
  intros Hi. destruct (lookup_lt_is_Some_2 l i Hi) as [x Hx].
  by rewrite (nth_lookup_Some _ _ x0 _ Hx).
Qed.

(** ** get_batch *)

Section get_batch.

Import nmt_model.

Variables (buckets : list bucket) (batch_size : nat) (rnd : nat -> nat).
Variables (data : list (list example)) (bucket_id : nat).
Variables (encoder_size decoder_size : nat) (d : list example).
Hypothesis bucket_ok : buckets !! bucket_id = Some (encoder_size, decoder_size).
Hypothesis data_ok : data !! bucket_id = Some d.
Hypothesis d_ok : d <> [].

Local Abbreviation drawn := (nmt_model.drawn rnd d).
Local Abbreviation encoder_line := (nmt_model.encoder_line encoder_size).
Local Abbreviation decoder_line := (nmt_model.decoder_line decoder_size).

Lemma choice_drawn j : choice d (rnd j) = Ok (drawn j).
Proof.
  unfold choice, nmt_model.drawn. destruct d as [|x d'] eqn:Hd; [done|].
  rewrite <- Hd.
  assert (Hlt : rnd j mod length d < length d).
  { apply Nat.mod_upper_bound. rewrite Hd. simpl. lia. }
  apply index_Ok. by apply lookup_nth_lt.
Qed.

Lemma encoder_line_length x : encoder_size <= length (encoder_line x).
Proof.
  unfold nmt_model.encoder_line, py_repeat. rewrite length_app, length_replicate. lia.
Qed.

Lemma decoder_line_length x : decoder_size <= length (decoder_line x).
Proof.
  unfold nmt_model.decoder_line, py_repeat. simpl.
  rewrite length_app, length_replicate. lia.
Qed.

Lemma draw_example_drawn j e er dc :
  draw_example data bucket_id encoder_size decoder_size (e, er, dc) (rnd j)
  = Ok (e ++ [encoder_line (drawn j).1.1],
        er ++ [encoder_line (drawn j).1.2],
        dc ++ [decoder_line (drawn j).2]).
Proof.
  unfold draw_example. rewrite (proj2 (index_Ok _ _ _) data_ok).
  rewrite ret_bind, choice_drawn, ret_bind.
  by destruct (drawn j) as [[x xr] y].
Qed.

(** The first loop: the padded lines of the drawn examples, in order. *)
Lemma draw_loop js e er dc :
  for_each (draw_example data bucket_id encoder_size decoder_size)
           (rnd <$> js) (e, er, dc)
  = Ok (e ++ ((fun j => encoder_line (drawn j).1.1) <$> js),
        er ++ ((fun j => encoder_line (drawn j).1.2) <$> js),
        dc ++ ((fun j => decoder_line (drawn j).2) <$> js)).
Proof.
  revert e er dc. induction js as [|j js IH]; intros e er dc.
  - simpl. by rewrite !app_nil_r.
  - rewrite !fmap_cons, for_each_cons, draw_example_drawn, ret_bind, IH.
    by rewrite <- !app_assoc.
Qed.

Lemma column_nth (inputs : list sentence) l :
  length inputs = batch_size ->
  Forall (fun row => l < length row) inputs ->
  column inputs batch_size l = Ok ((fun row => nth l row 0%Z) <$> inputs).
Proof.
  intros Hlen Hall. unfold column.
  rewrite comprehension_map
    with (g := fun b => nth l (nth b inputs []) 0%Z).
  - f_equal. apply list_eq. intros b.
    rewrite !list_lookup_fmap.
    destruct (decide (b < batch_size)) as [Hb|Hb].
    + rewrite xrange_lookup by done. simpl.
      destruct (lookup_lt_is_Some_2 inputs b) as [row Hrow]; [lia|].
      rewrite Hrow. simpl. by erewrite (nth_lookup_Some inputs).
    + rewrite !lookup_ge_None_2; [done | lia | rewrite xrange_length; lia].
  - intros b Hb. apply xrange_elem in Hb.
    destruct (lookup_lt_is_Some_2 inputs b) as [row Hrow]; [lia|].
    rewrite (proj2 (index_Ok _ _ _) Hrow). simpl.
    erewrite (nth_lookup_Some inputs) by done.
    apply index_Ok. apply lookup_nth_lt.
    rewrite Forall_forall in Hall. apply Hall.
    by eapply list_elem_of_lookup_2.
Qed.

Lemma encoder_loop (encs encs_r : list sentence) n :
  length encs = batch_size -> length encs_r = batch_size ->
  Forall (fun row => n <= length row) encs ->
  Forall (fun row => n <= length row) encs_r ->
  for_each (encoder_row encs encs_r batch_size) (xrange n) ([], [])
  = Ok ((fun l => (fun row => nth l row 0%Z) <$> encs) <$> xrange n,
        (fun l => (fun row => nth l row 0%Z) <$> encs_r) <$> xrange n).
Proof.
  intros Hl Hlr. induction n as [|n IH]; intros Hall Hallr; [done|].
  rewrite xrange_S, for_each_snoc, IH, ret_bind.
  - unfold encoder_row.
    rewrite !column_nth, !ret_bind, !fmap_app; done.
  - eapply Forall_impl; [exact Hall | simpl; lia].
  - eapply Forall_impl; [exact Hallr | simpl; lia].
Qed.

(** One row of weights: whatever [target] held before, the loop over the
    batch raises nothing and leaves the weights of [weight_of]. *)
Lemma weight_loop (decs : list sentence) t n target :
  length decs = batch_size -> t < decoder_size -> n <= batch_size ->
  Forall (fun row => decoder_size <= length row) decs ->
  exists target',
    for_each (weight_cell decs decoder_size t) (xrange n)
             (replicate batch_size 1%Q, target)
    = Ok ((weight_of decs decoder_size t <$> xrange n)
          ++ replicate (batch_size - n) 1%Q, target').
Proof.
  intros Hlen Ht Hn Hall. induction n as [|n IH].
  - exists target. simpl. by rewrite Nat.sub_0_r.
  - destruct IH as [tg IH]; [lia|].
    rewrite xrange_S, for_each_snoc, IH, ret_bind.
    unfold weight_cell.
    assert (Hins : forall w : Q,
      <[n := w]> ((weight_of decs decoder_size t <$> xrange n)
                  ++ replicate (batch_size - n) 1%Q)
      = (weight_of decs decoder_size t <$> xrange n) ++ [w]
        ++ replicate (batch_size - S n) 1%Q).
    { intros w. rewrite insert_app_r_alt
        by (rewrite length_fmap, xrange_length; lia).
      rewrite length_fmap, xrange_length, Nat.sub_diag.
      replace (batch_size - n) with (S (batch_size - S n)) by lia. done. }
    assert (Hone : (weight_of decs decoder_size t <$> xrange n)
                   ++ replicate (batch_size - n) 1%Q
      = (weight_of decs decoder_size t <$> xrange n) ++ [1%Q]
        ++ replicate (batch_size - S n) 1%Q).
    { replace (batch_size - n) with (S (batch_size - S n)) by lia. done. }
    destruct (decide (t = decoder_size - 1)) as [Hlast|Hlast].
    + rewrite (bool_decide_false (_ < _)%Z) by lia.
      rewrite (bool_decide_true (_ = _ :> Z)) by lia.
      rewrite !ret_bind, Hins. exists tg.
      rewrite fmap_app, <- app_assoc. simpl.
      unfold weight_of. by rewrite bool_decide_true.
    + rewrite (bool_decide_true (_ < _)%Z) by lia.
      rewrite (bool_decide_false (_ = _ :> Z)) by lia.
      destruct (lookup_lt_is_Some_2 decs n) as [row Hrow]; [lia|].
      rewrite (proj2 (index_Ok _ _ _) Hrow), ret_bind.
      assert (Hrl : t + 1 < length row).
      { rewrite Forall_forall in Hall.
        pose proof (Hall row (list_elem_of_lookup_2 _ _ _ Hrow)). lia. }
      rewrite (proj2 (index_Ok _ _ _) (lookup_nth_lt row (t + 1) 0%Z Hrl)).
      rewrite !ret_bind. eexists.
      assert (Hw : weight_of decs decoder_size t n
                   = if bool_decide (nth (t + 1) row 0%Z = data_utils.PAD_ID)
                     then 0%Q else 1%Q).
      { unfold weight_of. rewrite (bool_decide_false (t = _)) by done.
        by rewrite (nth_lookup_Some decs n [] row Hrow). }
      rewrite fmap_app, <- app_assoc. simpl. rewrite Hw.
      case_bool_decide; [by rewrite Hins | by rewrite Hone].
Qed.

Lemma decoder_loop (decs : list sentence) n :
  length decs = batch_size -> n <= decoder_size ->
  Forall (fun row => decoder_size <= length row) decs ->
  exists target,
    for_each (decoder_row decs batch_size decoder_size) (xrange n)
             ([], [], None)
    = Ok ((fun l => (fun row => nth l row 0%Z) <$> decs) <$> xrange n,
          (fun l => weight_of decs decoder_size l <$> xrange batch_size)
            <$> xrange n,
          target).
Proof.
  intros Hlen Hn Hall. induction n as [|n IH].
  - by exists None.
  - destruct IH as [tg IH]; [lia|].
    rewrite xrange_S, for_each_snoc, IH, ret_bind.
    unfold decoder_row. rewrite column_nth, ret_bind; [|done|].
    + destruct (weight_loop decs n batch_size tg) as [tg' ->];
        [done | lia | lia | done |].
      rewrite ret_bind, Nat.sub_diag, app_nil_r. exists tg'.
      by rewrite !fmap_app.
    + eapply Forall_impl; [exact Hall | simpl; lia].
Qed.

(** The batch in closed form. *)
Lemma get_batch_closed :
  let encs := (fun j => encoder_line (drawn j).1.1) <$> xrange batch_size in
  let encs_r := (fun j => encoder_line (drawn j).1.2) <$> xrange batch_size in
  let decs := (fun j => decoder_line (drawn j).2) <$> xrange batch_size in
  get_batch buckets batch_size rnd data bucket_id
  = Ok (Batch
          ((fun l => (fun row => nth l row 0%Z) <$> encs)
             <$> xrange encoder_size)
          ((fun l => (fun row => nth l row 0%Z) <$> encs_r)
             <$> xrange encoder_size)
          ((fun l => (fun row => nth l row 0%Z) <$> decs)
             <$> xrange decoder_size)
          ((fun l => weight_of decs decoder_size l <$> xrange batch_size)
             <$> xrange decoder_size)).
Proof.
  intros encs encs_r decs. unfold get_batch.
  rewrite (proj2 (index_Ok _ _ _) bucket_ok), ret_bind.
  rewrite draw_loop, ret_bind. simpl app. fold encs encs_r decs.
  rewrite encoder_loop, ret_bind.
  - destruct (decoder_loop decs decoder_size) as [tg ->]; try done.
    + unfold decs. by rewrite length_fmap, xrange_length.
    + apply Forall_fmap, Forall_forall. intros j _. simpl.
      apply decoder_line_length.
  - unfold encs. by rewrite length_fmap, xrange_length.
  - unfold encs_r. by rewrite length_fmap, xrange_length.
  - apply Forall_fmap, Forall_forall. intros j _. simpl.
    apply encoder_line_length.
  - apply Forall_fmap, Forall_forall. intros j _. simpl.
    apply encoder_line_length.
Qed.

End get_batch.

Lemma cell_fmap_xrange {A B} (f : nat -> B -> A) (xs : list B) n t b :
  t < n ->
  nmt_model.cell ((fun l => f l <$> xs) <$> xrange n) t b = f t <$> xs !! b.
Proof.
  intros Ht. unfold nmt_model.cell.
  rewrite list_lookup_fmap, xrange_lookup by done. simpl.
  by rewrite list_lookup_fmap.
Qed.

Lemma cell_ge {A} (rows : list (list A)) t b :
  length rows <= t -> nmt_model.cell rows t b = None.
Proof. intros H. unfold nmt_model.cell. by rewrite lookup_ge_None_2. Qed.

(** C2.  In a batch built from bucket [(encoder_size, decoder_size)], the
    weight at position [t] of example [b] is 0.0 exactly when [t] is the
    last position or the decoder input at position [t+1] of that example
    is the padding id, and 1.0 otherwise.  At the last position no entry
    [t+1] exists and none is read: building the batch raises nothing,
    also when [decoder_size] is 1. *)
Theorem get_batch_target_weights (buckets : list bucket) (batch_size : nat)
    (rnd : nat -> nat) (data : list (list example))
    (bucket_id encoder_size decoder_size : nat) (d : list example) :
  buckets !! bucket_id = Some (encoder_size, decoder_size) ->
  data !! bucket_id = Some d ->
  d <> [] ->
  exists batch,
    nmt_model.get_batch buckets batch_size rnd data bucket_id = Ok batch /\
    forall t b, t < decoder_size -> b < batch_size ->
      exists w,
        nmt_model.cell (nmt_model.batch_weights batch) t b = Some w /\
        (w = 0%Q \/ w = 1%Q) /\
        (w = 0%Q <->
         t = decoder_size - 1 \/
         nmt_model.cell (nmt_model.batch_decoder_inputs batch) (t + 1) b
         = Some data_utils.PAD_ID).
Proof.
  intros Hb Hd Hne. eexists. split.
  { by apply (get_batch_closed buckets batch_size rnd data bucket_id
                encoder_size decoder_size d). }
  simpl. intros t b Ht Hbb.
  set (decs := (fun j => nmt_model.decoder_line decoder_size
                           (nmt_model.drawn rnd d j).2) <$> xrange batch_size).
  exists (nmt_model.weight_of decs decoder_size t b). split; [|split].
  - unfold nmt_model.cell.
    rewrite list_lookup_fmap, xrange_lookup by done. simpl.
    by rewrite list_lookup_fmap, xrange_lookup.
  - unfold nmt_model.weight_of. repeat case_bool_decide; auto.
  - assert (Hrow : decs !! b
                   = Some (nmt_model.decoder_line decoder_size
                             (nmt_model.drawn rnd d b).2)).
    { unfold decs. by rewrite list_lookup_fmap, xrange_lookup. }
    unfold nmt_model.weight_of.
    rewrite (nth_lookup_Some decs b [] _ Hrow).
    destruct (decide (t = decoder_size - 1)) as [Hlast|Hlast].
    + rewrite bool_decide_true by done. tauto.
    + rewrite bool_decide_false by done.
      rewrite cell_fmap_xrange by lia. rewrite Hrow. simpl.
      case_bool_decide as Hpad.
      * split; [intros _; right; by rewrite Hpad | done].
      * split; [done|]. intros [?|Heq]; [done|]. congruence.
Qed.

Lemma get_batch_target_weights_witness :
  exists batch,
    nmt_model.get_batch [(2, 3)] 1 (fun _ => 0) [[([5], [5], [7; 2])]]%Z 0
    = Ok batch /\
    forall t b, t < 3 -> b < 1 ->
      exists w,
        nmt_model.cell (nmt_model.batch_weights batch) t b = Some w /\
        (w = 0%Q \/ w = 1%Q) /\
        (w = 0%Q <->
         t = 3 - 1 \/
         nmt_model.cell (nmt_model.batch_decoder_inputs batch) (t + 1) b
         = Some data_utils.PAD_ID).
Proof.
  apply (get_batch_target_weights [(2, 3)] 1 (fun _ => 0)
           [[([5], [5], [7; 2])]]%Z 0 2 3 [([5], [5], [7; 2])]%Z).
  - reflexivity.
  - reflexivity.
  - discriminate.
Defined.

(** C9, as the code has it.  In a batch built from bucket
    [(encoder_size, decoder_size)], the decoder inputs of example [b] are
    the first [decoder_size] positions of the GO id, the target and the
    padding that fills the line up to [decoder_size]: a target that fits
    is padded to exactly [decoder_size] positions, and for a target that is
    too long nothing is raised, no padding is added and the line is cut
    after [decoder_size] positions. *)
Theorem get_batch_decoder_inputs (buckets : list bucket) (batch_size : nat)
    (rnd : nat -> nat) (data : list (list example))
    (bucket_id encoder_size decoder_size : nat) (d : list example) :
  buckets !! bucket_id = Some (encoder_size, decoder_size) ->
  data !! bucket_id = Some d ->
  d <> [] ->
  exists batch,
    nmt_model.get_batch buckets batch_size rnd data bucket_id = Ok batch /\
    length (nmt_model.batch_decoder_inputs batch) = decoder_size /\
    forall b source source_r target,
      b < batch_size ->
      d !! (rnd b mod length d) = Some (source, source_r, target) ->
      (forall t,
         nmt_model.cell (nmt_model.batch_decoder_inputs batch) t b
         = take decoder_size
             ([data_utils.GO_ID] ++ target
              ++ replicate (decoder_size - length target - 1)
                           data_utils.PAD_ID) !! t) /\
      (length target + 1 <= decoder_size ->
       length ([data_utils.GO_ID] ++ target
               ++ replicate (decoder_size - length target - 1)
                            data_utils.PAD_ID) = decoder_size) /\
      (decoder_size < length target + 1 ->
       replicate (decoder_size - length target - 1) data_utils.PAD_ID = []).
Proof.
  intros Hb Hd Hne. eexists. split.
  { by apply (get_batch_closed buckets batch_size rnd data bucket_id
                encoder_size decoder_size d). }
  cbn [nmt_model.batch_decoder_inputs].
  split; [by rewrite length_fmap, xrange_length|].
  intros b source source_r target Hbb Hex.
  assert (Hline : nmt_model.decoder_line decoder_size target
                  = [data_utils.GO_ID] ++ target
                    ++ replicate (decoder_size - length target - 1)
                                 data_utils.PAD_ID).
  { unfold nmt_model.decoder_line, nmt_model.py_repeat. do 3 f_equal. lia. }
  split; [|split].
  - intros t. destruct (decide (t < decoder_size)) as [Ht|Ht].
    + rewrite cell_fmap_xrange by done.
      rewrite list_lookup_fmap, xrange_lookup by done.
      cbn [fmap option_fmap option_map].
      unfold nmt_model.drawn. rewrite (nth_lookup_Some _ _ _ _ Hex).
      cbn [snd]. rewrite lookup_take_lt by done. rewrite <- Hline.
      symmetry. apply lookup_nth_lt.
      pose proof (decoder_line_length decoder_size target). lia.
    + rewrite cell_ge by (rewrite length_fmap, xrange_length; lia).
      symmetry. apply lookup_ge_None_2. rewrite length_take. lia.
  - intros Hfit. simpl. rewrite length_app, length_replicate. lia.
  - intros Hover. by replace (decoder_size - length target - 1) with 0 by lia.
Qed.

Lemma get_batch_decoder_inputs_witness :
  exists batch,
    nmt_model.get_batch [(2, 3)] 1 (fun _ => 0) [[([5], [5], [7; 2])]]%Z 0
    = Ok batch /\
    length (nmt_model.batch_decoder_inputs batch) = 3 /\
    forall b source source_r target,
      b < 1 ->
      [([5], [5], [7; 2])]%Z !! (0 mod 1) = Some (source, source_r, target) ->
      (forall t,
         nmt_model.cell (nmt_model.batch_decoder_inputs batch) t b
         = take 3
             ([data_utils.GO_ID] ++ target
              ++ replicate (3 - length target - 1) data_utils.PAD_ID) !! t) /\
      (length target + 1 <= 3 ->
       length ([data_utils.GO_ID] ++ target
               ++ replicate (3 - length target - 1) data_utils.PAD_ID) = 3) /\
      (3 < length target + 1 ->
       replicate (3 - length target - 1) data_utils.PAD_ID = []).
Proof.
  apply (get_batch_decoder_inputs [(2, 3)] 1 (fun _ => 0)
           [[([5], [5], [7; 2])]]%Z 0 2 3 [([5], [5], [7; 2])]%Z).
  - reflexivity.
  - reflexivity.
  - discriminate.
Defined.

(** C9 fails as stated: a target of three ids in a bucket with two decoder
    positions is too long, and [get_batch] returns a batch all the same,
    with the target cut after its first id. *)
Lemma get_batch_overflow_is_not_raised :
  length [7%Z; 8%Z; 2%Z] + 1 > 2 /\
  nmt_model.get_batch [(2, 2)] 1 (fun _ => 0) [[([5], [5], [7; 8; 2])]]%Z 0
  = Ok (nmt_model.Batch [[5]; [0]] [[5]; [0]] [[1]; [7]] [[1%Q]; [0%Q]])%Z.
Proof. split; [simpl; lia | reflexivity]. Qed.

(** ** step *)

Lemma index_only_Ok {A} (a : A) : index_only (Ok a).
Proof. intros e H. discriminate. Qed.

Lemma index_only_index {A} (l : list A) i : index_only (index l i).
Proof. intros e. unfold index. destruct (l !! i); congruence. Qed.

Lemma index_only_bind {A B} (m : result A) (f : A -> result B) :
  index_only m -> (forall a, index_only (f a)) -> index_only (m ≫= f).
Proof.
  intros Hm Hf e. destruct m as [a|e']; simpl.
  - apply Hf.
  - intros [= <-]. by apply Hm.
Qed.

Lemma index_only_for_each {A S} (body : S -> A -> result S) xs acc :
  (forall acc x, index_only (body acc x)) ->
  index_only (for_each body xs acc).
Proof.
  intros Hb. revert acc. induction xs as [|x xs IH]; intros acc; simpl.
  - apply index_only_Ok.
  - apply index_only_bind; [apply Hb | apply IH].
Qed.

Lemma index_only_feed {A} names (wrap : A -> nmt_model.feed_value) values m l :
  index_only (nmt_model.feed names wrap values m l).
Proof.
  unfold nmt_model.feed.
  apply index_only_bind; [apply index_only_index|]. intros name.
  apply index_only_bind; [apply index_only_index|]. intros v.
  apply index_only_Ok.
Qed.

Section feeds.

Import nmt_model.

(** One loop of [feed]s over the placeholders named [f 0], [f 1], ... *)
Lemma feed_loop {A} (f : nat -> string) N (wrap : A -> feed_value)
    (values : list A) n (m : gmap string feed_value) :
  n <= N -> n <= length values ->
  exists m',
    for_each (feed (f <$> xrange N) wrap values) (xrange n) m = Ok m' /\
    forall k, (forall l, l < n -> f l <> k) -> m' !! k = m !! k.
Proof.
  intros HN Hv. induction n as [|n IH].
  - exists m. done.
  - destruct IH as (m' & Hm' & Hk); [lia | lia |].
    rewrite xrange_S, for_each_snoc, Hm', ret_bind. unfold feed.
    assert (Hname : index (f <$> xrange N) n = Ok (f n)).
    { apply index_Ok. by rewrite list_lookup_fmap, xrange_lookup by lia. }
    destruct (index_lt values n) as (v & Hv' & _); [lia|].
    rewrite Hname, ret_bind, Hv', ret_bind. eexists. split; [done|].
    intros k Hne. rewrite lookup_insert_ne by (apply Hne; lia).
    apply Hk. intros l Hl. apply Hne. lia.
Qed.

(** The loop over the decoder positions, which feeds a decoder input and
    a target weight at each turn. *)
Lemma decoder_feed_loop (f g : nat -> string) N
    (dec : list (list Z)) (tw : list (list Q)) n
    (m : gmap string feed_value) :
  Inj (=) (=) f -> (forall l l', f l <> g l') ->
  n <= N -> n <= length dec -> n <= length tw ->
  exists m',
    for_each
      (fun m l =>
         m ← feed (f <$> xrange N) IntVec dec m l;
         feed (g <$> xrange N) FloatVec tw m l)
      (xrange n) m = Ok m' /\
    (forall k, (forall l, l < n -> f l <> k /\ g l <> k) -> m' !! k = m !! k) /\
    (forall l, l < n -> m' !! f l = IntVec <$> dec !! l).
Proof.
  intros Hinj Hfg HN Hd Ht. induction n as [|n IH].
  - exists m. split; [done|]. split; [done|]. intros l Hl. lia.
  - destruct IH as (m' & Hm' & Hk & Hl); [lia | lia | lia |].
    rewrite xrange_S, for_each_snoc, Hm', ret_bind. unfold feed.
    assert (Hf : index (f <$> xrange N) n = Ok (f n)).
    { apply index_Ok. by rewrite list_lookup_fmap, xrange_lookup by lia. }
    assert (Hg : index (g <$> xrange N) n = Ok (g n)).
    { apply index_Ok. by rewrite list_lookup_fmap, xrange_lookup by lia. }
    destruct (index_lt dec n) as (v & Hv & Hv'); [lia|].
    destruct (index_lt tw n) as (w & Hw & _); [lia|].
    rewrite Hf, ret_bind, Hv, !ret_bind, Hg, ret_bind, Hw, ret_bind.
    eexists. split; [done|]. split.
    + intros k Hne. destruct (Hne n) as [Hfn Hgn]; [lia|].
      rewrite !lookup_insert_ne by done.
      apply Hk. intros l Hl'. apply Hne. lia.
    + intros l Hl'. rewrite lookup_insert_ne by (symmetry; apply Hfg).
      destruct (decide (l = n)) as [->|Hne].
      * by rewrite lookup_insert_eq, Hv'.
      * rewrite lookup_insert_ne by (intros Heq; apply Hinj in Heq; lia).
        apply Hl. lia.
Qed.

End feeds.

Lemma decoder_name_inj : Inj (=) (=) (fun i : nat => "decoder" +:+ pretty i).
Proof. intros i j H. simpl in H. injection H as H. by apply (inj pretty). Qed.

(** C10.  For a model made by [__init__] and a valid [bucket_id] naming
    bucket [(E, D)], [step] raises [ValueError] exactly when the number of
    encoder inputs differs from [E] or the number of decoder inputs or of
    target weights differs from [D], and then the session has not run.
    When the three lengths match (and the reversed encoder inputs and the
    placeholders of the model reach the bucket), the session runs on a
    feed that holds the caller's [D] decoder inputs at the placeholders
    [decoder0] ... [decoder(D-1)] and, at [decoderD], a vector of
    [batch_size] zeros that [step] supplies. *)
Theorem step_checks_lengths {session value : Type}
    (session_run : session -> list nmt_model.fetch
                   -> gmap string nmt_model.feed_value -> session * list value)
    (bs : list bucket) (B : nat) (self : nmt_model.NMTModel) (sess : session)
    (enc enc_r dec : list (list Z)) (tw : list (list Q))
    (bucket_id E D : nat) (forward_only : bool) :
  nmt_model.init bs B = Ok self ->
  bs !! bucket_id = Some (E, D) ->
  ((nmt_model.step session_run self sess enc enc_r dec tw bucket_id
                   forward_only).2 = Raise ValueError
   <-> length enc <> E \/ length dec <> D \/ length tw <> D) /\
  (length enc <> E \/ length dec <> D \/ length tw <> D ->
   nmt_model.step session_run self sess enc enc_r dec tw bucket_id forward_only
   = (sess, Raise ValueError)) /\
  (length enc = E -> length dec = D -> length tw = D ->
   E <= length enc_r ->
   (forall last_E last_D, last bs = Some (last_E, last_D) ->
                          E <= last_E /\ D <= last_D) ->
   exists output_feed input_feed,
     nmt_model.step_feeds self enc enc_r dec tw bucket_id forward_only
     = Ok (output_feed, input_feed) /\
     (nmt_model.step session_run self sess enc enc_r dec tw bucket_id
                     forward_only).1
     = (session_run sess output_feed input_feed).1 /\
     input_feed !! ("decoder" +:+ pretty D)
     = Some (nmt_model.IntVec (replicate B 0%Z)) /\
     forall l, l < D ->
       input_feed !! ("decoder" +:+ pretty l) = nmt_model.IntVec <$> dec !! l).
Proof.
  intros Hinit Hbucket.
  unfold nmt_model.init in Hinit.
  apply bind_Ok in Hinit as ([last_E last_D] & Hlast & Hself).
  injection Hself as <-.
  unfold index_last in Hlast.
  destruct (last bs) as [[le ld]|] eqn:Hl; [|done].
  injection Hlast as -> ->.
  assert (Hmis : length enc <> E \/ length dec <> D \/ length tw <> D ->
    forall fo, nmt_model.step_feeds
      {| nmt_model.buckets := bs; nmt_model.batch_size := B;
         nmt_model.encoder_inputs :=
           (fun i => "encoder" +:+ pretty i) <$> xrange last_E;
         nmt_model.encoder_inputs_r :=
           (fun i => "encoder_r" +:+ pretty i) <$> xrange last_E;
         nmt_model.decoder_inputs :=
           (fun i => "decoder" +:+ pretty i) <$> xrange (last_D + 1);
         nmt_model.target_weights :=
           (fun i => "weight" +:+ pretty i) <$> xrange (last_D + 1) |}
      enc enc_r dec tw bucket_id fo = Raise ValueError).
  { intros Hm fo. unfold nmt_model.step_feeds. cbn [nmt_model.buckets].
    rewrite (proj2 (index_Ok _ _ _) Hbucket), ret_bind.
    repeat case_bool_decide; try done. tauto. }
  assert (Hok : ~ (length enc <> E \/ length dec <> D \/ length tw <> D) ->
    forall fo, index_only (nmt_model.step_feeds
      {| nmt_model.buckets := bs; nmt_model.batch_size := B;
         nmt_model.encoder_inputs :=
           (fun i => "encoder" +:+ pretty i) <$> xrange last_E;
         nmt_model.encoder_inputs_r :=
           (fun i => "encoder_r" +:+ pretty i) <$> xrange last_E;
         nmt_model.decoder_inputs :=
           (fun i => "decoder" +:+ pretty i) <$> xrange (last_D + 1);
         nmt_model.target_weights :=
           (fun i => "weight" +:+ pretty i) <$> xrange (last_D + 1) |}
      enc enc_r dec tw bucket_id fo)).
  { intros Hm fo. unfold nmt_model.step_feeds. cbn [nmt_model.buckets].
    rewrite (proj2 (index_Ok _ _ _) Hbucket), ret_bind.
    rewrite !bool_decide_false by tauto.
    repeat (apply index_only_bind;
            [first [apply index_only_for_each; intros
                   |apply index_only_index]|intros]);
      try apply index_only_feed; try apply index_only_Ok.
    apply index_only_bind; [apply index_only_feed|].
    intros. apply index_only_feed. }
  split; [|split].
  - split.
    + intros Hraise.
      destruct (decide (length enc <> E \/ length dec <> D \/ length tw <> D))
        as [Hm|Hm]; [done|]. exfalso.
      specialize (Hok Hm forward_only). unfold nmt_model.step in Hraise.
      destruct (nmt_model.step_feeds _ enc enc_r dec tw bucket_id forward_only)
        as [[output_feed input_feed]|e] eqn:Hsf.
      * destruct (session_run sess output_feed input_feed) as [sess' outs].
        simpl in Hraise. destruct forward_only.
        -- destruct (index outs 0) as [x|e] eqn:H0; simpl in Hraise; [done|].
           injection Hraise as ->. by apply index_only_index in H0.
        -- destruct (index outs 1) as [x|e] eqn:H1; simpl in Hraise.
           ++ destruct (index outs 2) as [y|e] eqn:H2; simpl in Hraise; [done|].
              injection Hraise as ->. by apply index_only_index in H2.
           ++ injection Hraise as ->. by apply index_only_index in H1.
      * simpl in Hraise. injection Hraise as ->.
        by specialize (Hok ValueError eq_refl).
    + intros Hm. unfold nmt_model.step. by rewrite (Hmis Hm).
  - intros Hm. unfold nmt_model.step. by rewrite (Hmis Hm).
  - intros He Hd Ht Her Hbig. destruct (Hbig _ _ eq_refl) as [HE HD].
    unfold nmt_model.step, nmt_model.step_feeds.
    cbn [nmt_model.buckets nmt_model.encoder_inputs nmt_model.encoder_inputs_r
         nmt_model.decoder_inputs nmt_model.target_weights
         nmt_model.batch_size].
    rewrite (proj2 (index_Ok _ _ _) Hbucket), ret_bind.
    rewrite !bool_decide_false by lia.
    destruct (feed_loop (fun i => "encoder" +:+ pretty i) last_E
                nmt_model.IntVec enc E ∅) as (m1 & -> & H1); [lia | lia |].
    rewrite ret_bind.
    destruct (feed_loop (fun i => "encoder_r" +:+ pretty i) last_E
                nmt_model.IntVec enc_r E m1) as (m2 & -> & H2); [lia | lia |].
    rewrite ret_bind.
    destruct (decoder_feed_loop (fun i => "decoder" +:+ pretty i)
                (fun i => "weight" +:+ pretty i) (last_D + 1) dec tw D m2)
      as (m3 & -> & H3 & H4);
      [apply decoder_name_inj | intros l l' Heq; simpl in Heq; discriminate Heq
      | lia | lia | lia |].
    rewrite ret_bind.
    assert (Hlt : index ((fun i => "decoder" +:+ pretty i)
                           <$> xrange (last_D + 1)) D
                  = Ok ("decoder" +:+ pretty D)).
    { apply index_Ok. by rewrite list_lookup_fmap, xrange_lookup by lia. }
    rewrite Hlt, ret_bind. eexists _, _. split; [done|]. split.
    { by destruct (session_run _ _ _). }
    split.
    + by rewrite lookup_insert_eq.
    + intros l Hlt'.
      rewrite lookup_insert_ne
        by (intros Heq; apply decoder_name_inj in Heq; lia).
      by apply H4.
Qed.

Lemma step_checks_lengths_witness :
  exists self,
    nmt_model.init [(2, 3)] 1 = Ok self /\
    let run := fun (s : nat) (_ : list nmt_model.fetch)
                   (_ : gmap string nmt_model.feed_value) => (S s, [1; 2; 3]) in
    let enc := [[5]; [0]]%Z in
    let dec := [[1]; [7]; [0]]%Z in
    let tw := [[1]; [1]; [0]]%Q in
    ((nmt_model.step run self 0 enc enc dec tw 0 true).2 = Raise ValueError
     <-> length enc <> 2 \/ length dec <> 3 \/ length tw <> 3) /\
    (length enc <> 2 \/ length dec <> 3 \/ length tw <> 3 ->
     nmt_model.step run self 0 enc enc dec tw 0 true = (0, Raise ValueError)) /\
    (length enc = 2 -> length dec = 3 -> length tw = 3 ->
     2 <= length enc ->
     (forall last_E last_D, last [(2, 3)] = Some (last_E, last_D) ->
                            2 <= last_E /\ 3 <= last_D) ->
     exists output_feed input_feed,
       nmt_model.step_feeds self enc enc dec tw 0 true
       = Ok (output_feed, input_feed) /\
       (nmt_model.step run self 0 enc enc dec tw 0 true).1
       = (run 0 output_feed input_feed).1 /\
       input_feed !! ("decoder" +:+ pretty 3)
       = Some (nmt_model.IntVec (replicate 1 0%Z)) /\
       forall l, l < 3 ->
         input_feed !! ("decoder" +:+ pretty l)
         = nmt_model.IntVec <$> dec !! l).
Proof.
  eexists. split; [reflexivity|].
  apply (step_checks_lengths
           (fun (s : nat) _ _ => (S s, [1; 2; 3]))
           [(2, 3)] 1 _ 0 [[5]; [0]]%Z [[5]; [0]]%Z [[1]; [7]; [0]]%Z
           [[1]; [1]; [0]]%Q 0 2 3 true).
  - reflexivity.
  - reflexivity.
Defined.

(** ** train: choice of a bucket *)

Lemma Qgt_bool_true a b : translate.Qgt_bool a b = true <-> (b < a)%Q.
Proof.
  unfold translate.Qgt_bool. rewrite negb_true_iff.
  split.
  - intros H. apply Qnot_le_lt. intros Hle.
    apply Qle_bool_iff in Hle. congruence.
  - intros H. apply not_true_is_false. intros Hle.
    apply Qle_bool_iff in Hle. by apply (Qlt_not_le _ _ H).
Qed.

Lemma Qgt_bool_false a b : translate.Qgt_bool a b = false <-> (a <= b)%Q.
Proof.
  unfold translate.Qgt_bool. rewrite negb_false_iff. apply Qle_bool_iff.
Qed.

Lemma filter_seq_head (P : nat -> bool) s n x l :
  List.filter P (seq s n) = x :: l ->
  P x = true /\ s <= x < s + n /\
  (forall j, s <= j < x -> P j = false) /\
  (forall y, y ∈ l -> x < y).
Proof.
  revert s. induction n as [|n IH]; intros s; simpl; [done|].
  destruct (P s) eqn:Hs.
  - intros [= <- <-]. split; [done|]. split; [lia|]. split; [lia|].
    intros y Hy. apply list_elem_of_In, filter_In in Hy as [Hy _].
    apply in_seq in Hy. lia.
  - intros H. destruct (IH _ H) as (Hx & Hr & Hj & Hy).
    split; [done|]. split; [lia|]. split; [|done].
    intros j Hjr. destruct (decide (j = s)) as [->|]; [done|].
    apply Hj. lia.
Qed.

Lemma foldl_min_head x l :
  (forall y, y ∈ l -> x < y) -> foldl Nat.min x l = x.
Proof.
  induction l as [|y l IH]; intros H; simpl; [done|].
  assert (Hxy : x < y) by (apply H; left).
  rewrite Nat.min_l by lia.
  apply IH. intros z Hz. apply H. by right.
Qed.

Lemma filter_fst_snd {A} (g : A -> bool) (xs : list A) :
  fst <$> List.filter snd ((fun i => (i, g i)) <$> xs) = List.filter g xs.
Proof.
  induction xs as [|x xs IH]; simpl; [done|].
  destruct (g x); simpl; [f_equal|]; exact IH.
Qed.

Section draw_bucket.

Import translate.

Variable sizes : list nat.
Hypothesis total_pos : 0 < sum_list sizes.

Lemma total_nonzero : ~ (inject_Z (Z.of_nat (sum_list sizes)) == 0)%Q.
Proof. unfold Qeq. simpl. lia. Qed.

Lemma train_buckets_scale_closed :
  train_buckets_scale sizes = Ok (fraction sizes <$> xrange (length sizes)).
Proof.
  unfold train_buckets_scale. apply comprehension_map. intros i _.
  destruct (Qeq_bool _ 0) eqn:Hz; [|done].
  apply Qeq_bool_eq in Hz. by apply total_nonzero in Hz.
Qed.

Lemma choose_bucket_closed (f : nat -> Q) n r :
  choose_bucket (f <$> xrange n) r
  = py_min (List.filter (fun i => Qgt_bool (f i) r) (xrange n)).
Proof.
  unfold choose_bucket. rewrite length_fmap, xrange_length.
  rewrite comprehension_map with (g := fun i => (i, Qgt_bool (f i) r)).
  - by rewrite ret_bind, filter_fst_snd.
  - intros i Hi. apply xrange_elem in Hi.
    assert (Hl : index (f <$> xrange n) i = Ok (f i)).
    { apply index_Ok. by rewrite list_lookup_fmap, xrange_lookup. }
    by rewrite Hl.
Qed.

Lemma fraction_last :
  (fraction sizes (length sizes - 1) == 1)%Q.
Proof.
  unfold fraction.
  rewrite firstn_all2 by lia.
  unfold Qdiv. apply Qmult_inv_r, total_nonzero.
Qed.

Lemma fraction_zero_size i :
  sizes !! i = Some 0 ->
  match i with
  | 0 => (fraction sizes 0 == 0)%Q
  | S j => fraction sizes (S j) = fraction sizes j
  end.
Proof.
  intros Hi. destruct i as [|j].
  - unfold fraction. simpl. destruct sizes as [|x sz]; [done|].
    injection Hi as ->. simpl. unfold Qdiv. apply Qmult_0_l.
  - unfold fraction. do 3 f_equal.
    replace (S j + 1) with (S (S j)) by lia.
    rewrite (take_S_r _ _ _ Hi).
    rewrite sum_list_with_app. simpl.
    replace (j + 1) with (S j) by lia. lia.
Qed.

(** The draw in closed form: it succeeds, and picks the first bucket whose
    cumulative fraction exceeds the random number; that bucket is not
    empty. *)
Lemma draw_bucket_first r :
  (0 <= r)%Q -> (r < 1)%Q ->
  exists i n,
    draw_bucket sizes r = Ok i /\
    sizes !! i = Some n /\ 0 < n /\
    (r < fraction sizes i)%Q /\
    forall j, j < i -> (fraction sizes j <= r)%Q.
Proof.
  intros Hr0 Hr1. unfold draw_bucket.
  rewrite train_buckets_scale_closed, ret_bind, choose_bucket_closed.
  assert (Hlen : 0 < length sizes).
  { destruct sizes; simpl in *; lia. }
  destruct (List.filter (fun i => Qgt_bool (fraction sizes i) r)
              (xrange (length sizes))) as [|i l] eqn:Hf.
  - exfalso.
    assert (Hin : In (length sizes - 1)
                     (List.filter (fun i => Qgt_bool (fraction sizes i) r)
                        (xrange (length sizes)))).
    { apply filter_In. split; [apply in_seq; lia|].
      apply Qgt_bool_true. by rewrite fraction_last. }
    by rewrite Hf in Hin.
  - apply filter_seq_head in Hf as (Hi & Hrange & Hmin & Hrest).
    apply Qgt_bool_true in Hi.
    destruct (lookup_lt_is_Some_2 sizes i) as [n Hn]; [lia|].
    exists i, n. split.
    { unfold py_min. by rewrite foldl_min_head. }
    split; [done|]. split; [|split; [done|]].
    + destruct n as [|n]; [|lia]. exfalso.
      pose proof (fraction_zero_size i Hn) as Hz.
      destruct i as [|j].
      * rewrite Hz in Hi. by apply (Qlt_not_le _ _ Hi).
      * rewrite Hz in Hi.
        assert (Hj : Qgt_bool (fraction sizes j) r = false)
          by (apply Hmin; lia).
        apply Qgt_bool_false in Hj. by apply (Qlt_not_le _ _ Hi).
    + intros j Hj. apply Qgt_bool_false, Hmin. lia.
Qed.

End draw_bucket.

(** C8.  With a positive total population and a random number in [0,1),
    the draw of a bucket raises nothing; it returns the smallest index
    whose cumulative fraction exceeds the random number, and the bucket
    at that index holds at least one example.  So, for the populations
    10, 0 and 90, the index 1 is drawn for no random number. *)
Theorem draw_bucket_weighted (sizes : list nat) (r : Q) :
  0 < sum_list sizes ->
  (0 <= r)%Q -> (r < 1)%Q ->
  (exists i n,
     translate.draw_bucket sizes r = Ok i /\
     sizes !! i = Some n /\ 0 < n /\
     (r < translate.fraction sizes i)%Q /\
     forall j, j < i -> (translate.fraction sizes j <= r)%Q) /\
  translate.draw_bucket [10; 0; 90] r <> Ok 1.
Proof.
  intros Hpos Hr0 Hr1. split; [by apply draw_bucket_first|].
  intros Hdraw.
  assert (Htotal : 0 < sum_list [10; 0; 90]) by (simpl; lia).
  destruct (draw_bucket_first [10; 0; 90] Htotal r Hr0 Hr1)
    as (i & n & Hi & Hn & Hn0 & _).
  rewrite Hdraw in Hi. injection Hi as <-. simpl in Hn.
  injection Hn as <-. lia.
Qed.

(** The populations 10, 0 and 90 with the random number 1/2. *)
Lemma draw_bucket_weighted_witness :
  (exists i n,
     translate.draw_bucket [10; 0; 90] (1 # 2) = Ok i /\
     [10; 0; 90] !! i = Some n /\ 0 < n /\
     (1 # 2 < translate.fraction [10; 0; 90]%nat i)%Q /\
     forall j, j < i -> (translate.fraction [10; 0; 90]%nat j <= 1 # 2)%Q) /\
  translate.draw_bucket [10; 0; 90] (1 # 2) <> Ok 1.
Proof.
  apply (draw_bucket_weighted [10; 0; 90] (1 # 2)).
  - simpl. lia.
  - discriminate.
  - reflexivity.
Defined.

(** ** train: the checkpoint policy *)

Section checkpoint.

Import translate.

Lemma py_slice_from_last {A} (l : list A) (n : Z) :
  (1 <= n)%Z -> (n <= Z.of_nat (length l))%Z ->
  py_slice_from l (- n) = last_n (Z.to_nat n) l.
Proof.
  intros H1 Hn. unfold py_slice_from, last_n.
  rewrite bool_decide_true by lia. f_equal. lia.
Qed.

Lemma py_slice_from_sub {A} (l : list A) (start : Z) x :
  x ∈ py_slice_from l start -> x ∈ l.
Proof.
  unfold py_slice_from. case_bool_decide; apply subseteq_drop.
Qed.

Lemma foldl_max_spec (l : list Q) (x : Q) :
  let m := foldl (fun m y => if Qgt_bool y m then y else m) x l in
  (m = x \/ m ∈ l) /\ (x <= m)%Q /\ forall y, y ∈ l -> (y <= m)%Q.
Proof.
  revert x. induction l as [|y l IH]; intros x; simpl.
  - split; [by left|]. split; [apply Qle_refl|]. intros y Hy.
    by apply not_elem_of_nil in Hy.
  - destruct (Qgt_bool y x) eqn:Hyx.
    + destruct (IH y) as (Hin & Hle & Hall). apply Qgt_bool_true in Hyx.
      split; [|split].
      * right. destruct Hin as [->|Hin]; [left | by right].
      * eapply Qle_trans; [apply Qlt_le_weak, Hyx | exact Hle].
      * intros z Hz. apply elem_of_cons in Hz as [->|Hz]; [done | by apply Hall].
    + destruct (IH x) as (Hin & Hle & Hall). apply Qgt_bool_false in Hyx.
      split; [|split].
      * destruct Hin as [->|Hin]; [by left | right; by right].
      * done.
      * intros z Hz. apply elem_of_cons in Hz as [->|Hz]; [|by apply Hall].
        eapply Qle_trans; [exact Hyx | exact Hle].
Qed.

Lemma py_max_spec (l : list Q) :
  l <> [] ->
  exists m, py_max l = Ok m /\ m ∈ l /\ forall y, y ∈ l -> (y <= m)%Q.
Proof.
  destruct l as [|x l]; [done|]. intros _. simpl. eexists. split; [done|].
  destruct (foldl_max_spec l x) as (Hin & Hle & Hall). split.
  - destruct Hin as [->|Hin]; [left | by right].
  - intros y Hy. apply elem_of_cons in Hy as [->|Hy]; [done | by apply Hall].
Qed.

(** [loss > max(l)] says that [loss] exceeds every entry of [l]. *)
Lemma gt_max_all (l : list Q) (m loss : Q) :
  m ∈ l -> (forall y, y ∈ l -> (y <= m)%Q) ->
  Qgt_bool loss m = true <-> forall y, y ∈ l -> (y < loss)%Q.
Proof.
  intros Hin Hall. rewrite Qgt_bool_true. split.
  - intros Hlt y Hy. eapply Qle_lt_trans; [by apply Hall | done].
  - intros H. by apply H.
Qed.

(** The patience test for a patience of at least one. *)
Lemma no_improvement_spec (prev : list Q) (n : Z) (loss : Q) :
  (1 <= n)%Z ->
  exists b,
    no_improvement prev n loss = Ok b /\
    (b = true <->
     (n <= Z.of_nat (length prev))%Z /\
     forall y, y ∈ last_n (Z.to_nat n) prev -> (y < loss)%Q).
Proof.
  intros Hn. unfold no_improvement. case_bool_decide as Hlen.
  - rewrite py_slice_from_last by lia.
    destruct (py_max_spec (last_n (Z.to_nat n) prev)) as (m & -> & Hin & Hall).
    { unfold last_n. intros Hnil.
      apply (f_equal length) in Hnil. rewrite length_drop in Hnil.
      simpl in Hnil. lia. }
    rewrite ret_bind. eexists. split; [done|].
    rewrite (gt_max_all _ _ _ Hin Hall). split; [|tauto].
    intros H. split; [lia | done].
  - exists false. split; [done|]. split; [done|]. intros [Hle _]. lia.
Qed.

(** The entries of the slice are all nonnegative: zero does not exceed
    their maximum. *)
Lemma no_improvement_zero (prev : list Q) (n : Z) :
  (forall y, y ∈ py_slice_from prev (- n) -> (0 <= y)%Q) ->
  no_improvement prev n 0 <> Ok true.
Proof.
  intros Hnn. unfold no_improvement. case_bool_decide; [|done].
  destruct (py_slice_from prev (- n)) as [|x l] eqn:Hs; [done|].
  destruct (py_max_spec (x :: l)) as (m & -> & Hin & Hall); [done|].
  rewrite ret_bind. intros [= Hgt]. apply Qgt_bool_true in Hgt.
  apply (Qlt_not_le _ _ Hgt). by apply Hnn.
Qed.

Lemma checkpoint_Ok FLAGS st st' stop :
  checkpoint FLAGS st = Ok (st', stop) ->
  exists decay,
    no_improvement (previous_losses st) (lr_rate_patience FLAGS) (loss st)
    = Ok decay /\
    no_improvement (previous_losses st ++ [loss st])
                   (early_stop_patience FLAGS) 0 = Ok stop /\
    st' = {| loss := 0;
             current_step := current_step st;
             previous_losses := previous_losses st ++ [loss st];
             total_loss := total_loss st;
             learning_rate :=
               if decay
               then (learning_rate st * learning_rate_decay_factor FLAGS)%Q
               else learning_rate st |}.
Proof.
  unfold checkpoint. intros H.
  apply bind_Ok in H as (decay & Hd & H).
  apply bind_Ok in H as (stop' & Hs & H).
  injection H as <- <-. by exists decay.
Qed.


(** A turn that returns: which of its tests passed. *)
Lemma train_iteration_Ok FLAGS validate st step_loss st' stop :
  train_iteration FLAGS validate st step_loss = Ok (st', stop) ->
  steps_per_checkpoint FLAGS <> 0%Z /\
  steps_verbosity FLAGS <> 0%Z /\
  (((current_step st + 1) mod steps_per_checkpoint FLAGS = 0)%Z /\
   checkpoint FLAGS
     {| loss := (loss st + step_loss / inject_Z (steps_per_checkpoint FLAGS))%Q;
        current_step := (current_step st + 1)%Z;
        previous_losses := previous_losses st;
        total_loss := (total_loss st + step_loss)%Q;
        learning_rate := learning_rate st |}
   = Ok (st', stop)
   \/ ((current_step st + 1) mod steps_per_checkpoint FLAGS <> 0)%Z /\
      st' = {| loss := (loss st + step_loss / inject_Z (steps_per_checkpoint FLAGS))%Q;
        current_step := (current_step st + 1)%Z;
        previous_losses := previous_losses st;
        total_loss := (total_loss st + step_loss)%Q;
        learning_rate := learning_rate st |} /\
      stop = false) /\
  (stop = false ->
   steps_per_validation FLAGS <> 0%Z /\
   (((current_step st + 1) mod steps_per_validation FLAGS = 0)%Z ->
    exists avg_loss, validate (current_step st + 1)%Z = Ok avg_loss)).
Proof.
  unfold train_iteration. intros H.
  case_bool_decide as Hspc; [done|].
  case_bool_decide as Hverb; [done|].
  cbn [current_step] in H.
  split; [done|]. split; [done|].
  assert (Hafter : forall (st1 : train_state) (stop1 : bool),
    current_step st1 = (current_step st + 1)%Z ->
    (if stop1 then Ok (st1, true)
     else if bool_decide (steps_per_validation FLAGS = 0)%Z
     then Raise ZeroDivisionError
     else if bool_decide
               (current_step st1 mod steps_per_validation FLAGS = 0)%Z
     then validate (current_step st1) ≫= fun _ => Ok (st1, false)
     else Ok (st1, false)) = Ok (st', stop) ->
    st1 = st' /\ stop1 = stop /\
    (stop = false ->
     steps_per_validation FLAGS <> 0%Z /\
     (((current_step st + 1) mod steps_per_validation FLAGS = 0)%Z ->
      exists avg_loss, validate (current_step st + 1)%Z = Ok avg_loss))).
  { clear H. intros st1 stop1 Hcs Hr. destruct stop1.
    - injection Hr as <- <-. done.
    - revert Hr. case_bool_decide as Hspv; [done|]. rewrite Hcs.
      case_bool_decide as Hval.
      + intros Hr. apply bind_Ok in Hr as (avg & Hv & Hr).
        injection Hr as <- <-.
        split; [done|]. split; [done|]. intros _. split; [done|].
        intros _. by exists avg.
      + intros [= <- <-]. done. }
  destruct (decide ((current_step st + 1) mod steps_per_checkpoint FLAGS
                    = 0)%Z) as [Hdue|Hdue].
  - rewrite (bool_decide_true _ Hdue) in H.
    apply bind_Ok in H as ([st1 stop1] & Hck & H).
    destruct (Hafter st1 stop1) as (<- & <- & Hv); [|done|].
    + apply checkpoint_Ok in Hck as (decay & _ & _ & ->). done.
    + split; [by left | done].
  - rewrite (bool_decide_false _ Hdue), ret_bind in H.
    destruct (Hafter
                {| loss := (loss st
                            + step_loss
                              / inject_Z (steps_per_checkpoint FLAGS))%Q;
                   current_step := (current_step st + 1)%Z;
                   previous_losses := previous_losses st;
                   total_loss := (total_loss st + step_loss)%Q;
                   learning_rate := learning_rate st |}
                false eq_refl H) as (<- & <- & Hv).
    split; [by right | done].
Qed.

(** A turn whose tests all pass: it is the checkpoint block when one is
    due and the four updates otherwise. *)
Lemma train_iteration_run FLAGS validate st step_loss :
  steps_per_checkpoint FLAGS <> 0%Z ->
  steps_verbosity FLAGS <> 0%Z ->
  steps_per_validation FLAGS <> 0%Z ->
  (((current_step st + 1) mod steps_per_validation FLAGS = 0)%Z ->
   exists avg_loss, validate (current_step st + 1)%Z = Ok avg_loss) ->
  train_iteration FLAGS validate st step_loss
  = if bool_decide ((current_step st + 1) mod steps_per_checkpoint FLAGS
                    = 0)%Z
    then checkpoint FLAGS
           {| loss := (loss st + step_loss / inject_Z (steps_per_checkpoint FLAGS))%Q;
        current_step := (current_step st + 1)%Z;
        previous_losses := previous_losses st;
        total_loss := (total_loss st + step_loss)%Q;
        learning_rate := learning_rate st |}
    else Ok ({| loss := (loss st + step_loss / inject_Z (steps_per_checkpoint FLAGS))%Q;
        current_step := (current_step st + 1)%Z;
        previous_losses := previous_losses st;
        total_loss := (total_loss st + step_loss)%Q;
        learning_rate := learning_rate st |},
             false).
Proof.
  intros Hspc Hverb Hspv Hval. unfold train_iteration.
  rewrite !bool_decide_false by done.
  cbn [current_step].
  set (stepped := {| loss := (loss st + step_loss / inject_Z (steps_per_checkpoint FLAGS))%Q;
        current_step := (current_step st + 1)%Z;
        previous_losses := previous_losses st;
        total_loss := (total_loss st + step_loss)%Q;
        learning_rate := learning_rate st |}).
  assert (Hafter : forall st1 : train_state,
    current_step st1 = (current_step st + 1)%Z ->
    (if bool_decide (current_step st1 mod steps_per_validation FLAGS = 0)%Z
     then validate (current_step st1) ≫= fun _ => Ok (st1, false)
     else Ok (st1, false)) = Ok (st1, false)).
  { intros st1 ->.
    destruct (decide ((current_step st + 1) mod steps_per_validation FLAGS
                      = 0)%Z) as [Hdue|Hdue].
    - rewrite (bool_decide_true _ Hdue).
      destruct (Hval Hdue) as [avg ->]. done.
    - by rewrite (bool_decide_false _ Hdue). }
  destruct (decide ((current_step st + 1) mod steps_per_checkpoint FLAGS
                    = 0)%Z) as [Hdue|Hdue].
  - rewrite !(bool_decide_true _ Hdue).
    destruct (checkpoint FLAGS stepped) as [[st1 stop1]|e] eqn:Hck; [|done].
    rewrite ret_bind. destruct stop1; [done|].
    apply Hafter. apply checkpoint_Ok in Hck as (decay & _ & _ & ->). done.
  - rewrite !(bool_decide_false _ Hdue), ret_bind. by apply Hafter.
Qed.

(** A turn whose checkpoint block raises. *)
Lemma train_iteration_due_raises FLAGS validate st step_loss e :
  steps_per_checkpoint FLAGS <> 0%Z ->
  steps_verbosity FLAGS <> 0%Z ->
  ((current_step st + 1) mod steps_per_checkpoint FLAGS = 0)%Z ->
  checkpoint FLAGS
    {| loss := (loss st + step_loss / inject_Z (steps_per_checkpoint FLAGS))%Q;
       current_step := (current_step st + 1)%Z;
       previous_losses := previous_losses st;
       total_loss := (total_loss st + step_loss)%Q;
       learning_rate := learning_rate st |}
  = Raise e ->
  train_iteration FLAGS validate st step_loss = Raise e.
Proof.
  intros Hspc Hverb Hdue Hck. unfold train_iteration.
  rewrite (bool_decide_false _ Hspc), (bool_decide_false _ Hverb).
  cbn [current_step]. rewrite (bool_decide_true _ Hdue). by rewrite Hck.
Qed.



End checkpoint.





(** ** gen_sample *)

Lemma for_each_inv {A S} (body : S -> A -> result S)
    (I : list A -> S -> Prop) xs acc :
  I [] acc ->
  (forall pre x acc,
     I pre acc -> (exists post, xs = pre ++ x :: post) ->
     exists acc', body acc x = Ok acc' /\ I (pre ++ [x]) acc') ->
  exists acc', for_each body xs acc = Ok acc' /\ I xs acc'.
Proof.
  revert I acc. induction xs as [|x xs IH]; intros I acc H0 Hstep.
  - by exists acc.
  - destruct (Hstep [] x acc H0) as (acc1 & Hb & HI); [by exists xs|].
    rewrite for_each_cons, Hb, ret_bind.
    apply (IH (fun pre => I (x :: pre))); [done|].
    intros pre y acc2 HI2 [post ->].
    apply (Hstep (x :: pre) y acc2 HI2). by exists post.
Qed.

Lemma length_concat_uniform {A} (rows : list (list A)) V :
  Forall (fun row => length row = V) rows ->
  length (concat rows) = length rows * V.
Proof.
  induction 1 as [|row rows Hrow _ IH]; simpl; [done|].
  rewrite length_app, IH, Hrow. lia.
Qed.

Lemma filter_snoc {A} (P : A -> bool) l x :
  List.filter P (l ++ [x])
  = List.filter P l ++ (if P x then [x] else []).
Proof. rewrite List.filter_app. simpl. by destruct (P x). Qed.

Lemma filter_split_length {A} (P : A -> bool) l :
  length (List.filter P l) + length (List.filter (fun x => negb (P x)) l)
  = length l.
Proof.
  induction l as [|x l IH]; simpl; [done|].
  destruct (P x); simpl; lia.
Qed.

Lemma for_each_inv_Ok {A S} (body : S -> A -> result S)
    (I : list A -> S -> Prop) xs acc acc' :
  for_each body xs acc = Ok acc' ->
  I [] acc ->
  (forall pre x a a',
     I pre a -> (exists post, xs = pre ++ x :: post) ->
     body a x = Ok a' -> I (pre ++ [x]) a') ->
  I xs acc'.
Proof.
  revert I acc. induction xs as [|x xs IH]; intros I acc Hrun H0 Hstep.
  - simpl in Hrun. by injection Hrun as <-.
  - rewrite for_each_cons in Hrun.
    apply bind_Ok in Hrun as (acc1 & Hb & Hrun).
    apply (IH (fun pre => I (x :: pre)) acc1 Hrun).
    + apply (Hstep [] x acc acc1 H0); [by exists xs | done].
    + intros pre y a a' Ha [post ->] Hy.
      apply (Hstep (x :: pre) y a a' Ha); [by exists post | done].
Qed.

Section beam_search.

Import translate.

Context {score prob state context input : Type}.
Variable zero : score.
Variable sub_log : score -> prob -> score.
Variable argsort : list score -> list nat.
Variable f_init : input -> list state * context.
Variable f_next :
  list Z -> list context -> list state -> list (list prob) * list Z * list state.

(** What the search relies on: [argsort] returns a permutation of the
    indices of its argument, and [f_next] returns one row of probabilities
    and one state for each hypothesis it is given, the rows being those of
    a two-dimensional array. *)
Hypothesis argsort_perm : forall a, argsort a ≡ₚ seq 0 (length a).
Hypothesis f_next_shape : forall w ctx st,
  exists V,
    length (f_next w ctx st).1.1 = length w /\
    length (f_next w ctx st).2 = length w /\
    Forall (fun row => length row = V) (f_next w ctx st).1.1.

Local Abbreviation beam := (@beam score state).

Lemma zip_with_rows (hs : list score) (p : list (list prob)) V :
  length hs = length p ->
  Forall (fun row => length row = V) p ->
  length (zip_with (fun s row => map (sub_log s) row) hs p) = length p /\
  Forall (fun row => length row = V)
         (zip_with (fun s row => map (sub_log s) row) hs p).
Proof.
  revert p. induction hs as [|s hs IH]; intros [|row p] Hlen Hall;
    simpl in *; try done.
  inversion Hall as [|? ? Hrow Hall']; subst.
  destruct (IH p) as [IH1 IH2]; [lia | done |].
  split; [lia|]. constructor; [by rewrite length_map | done].
Qed.

Lemma ranks_bounds (a : list score) (n : nat) :
  length (take n (argsort a)) = n `min` length a /\
  Forall (fun r => r < length a) (take n (argsort a)).
Proof.
  split.
  - rewrite length_take, (Permutation_length (argsort_perm a)), length_seq.
    done.
  - apply Forall_take, Forall_forall. intros r Hr.
    rewrite (argsort_perm a) in Hr. apply list_elem_of_In, in_seq in Hr. lia.
Qed.

Lemma cand_scores_zip (hs : list score) (p : list (list prob)) :
  length hs = length p ->
  cand_scores sub_log hs p
  = Ok (zip_with (fun s row => map (sub_log s) row) hs p).
Proof.
  intros Hlen. unfold cand_scores.
  destruct hs as [|s [|s2 hs]]; destruct p as [|row [|row2 p]];
    simpl in Hlen; try lia.
  - by rewrite bool_decide_true by done.
  - done.
  - by rewrite bool_decide_true by (simpl; lia).
Qed.

Lemma select_ok k (b : beam) (p : list (list prob)) V :
  length (hyp_scores b) = length p ->
  Forall (fun row => length row = V) p ->
  dead_k b < k ->
  exists flat ranks,
    flat = concat (zip_with (fun s row => map (sub_log s) row)
                            (hyp_scores b) p) /\
    ranks = take (k - dead_k b) (argsort flat) /\
    select sub_log argsort k b p
    = Ok (ranks, (fun r => r / shape1 p) <$> ranks,
          (fun r => r mod shape1 p) <$> ranks,
          (fun r => nth r flat zero) <$> ranks) /\
    length ranks = (k - dead_k b) `min` (length p * V) /\
    Forall (fun r => r < length p * V) ranks.
Proof.
  intros Hlen Hall Hdead.
  eexists _, _. split; [reflexivity|]. split; [reflexivity|].
  unfold select. rewrite (cand_scores_zip _ _ Hlen), ret_bind.
  destruct (zip_with_rows (hyp_scores b) p V Hlen Hall) as [Hz1 Hz2].
  pose proof (length_concat_uniform _ V Hz2) as Hflat.
  rewrite Hz1 in Hflat.
  set (flat := concat (zip_with (fun s row => map (sub_log s) row)
                                (hyp_scores b) p)) in *.
  unfold py_slice_to. rewrite bool_decide_false by lia.
  replace (Z.to_nat (Z.of_nat k - Z.of_nat (dead_k b))) with (k - dead_k b)
    by lia.
  destruct (ranks_bounds flat (k - dead_k b)) as [Hrl Hrb].
  rewrite Hflat in Hrl, Hrb.
  rewrite (comprehension_map (index flat) (fun r => nth r flat zero)).
  - rewrite ret_bind. done.
  - intros r Hr. rewrite Forall_forall in Hrb.
    apply index_Ok, lookup_nth_lt. rewrite Hflat. by apply Hrb.
Qed.

Lemma zip_fmap_same {A B C} (f : A -> B) (g : A -> C) (l : list A) :
  zip (f <$> l) (g <$> l) = (fun x => (f x, g x)) <$> l.
Proof. induction l as [|x l IH]; simpl; [done | f_equal; exact IH]. Qed.

Lemma imap_pair_split {A} (l : list A) pre x post :
  imap pair l = pre ++ x :: post ->
  exists z, l !! length pre = Some z /\ x = (length pre, z).
Proof.
  intros H.
  assert (Hx : imap pair l !! length pre = Some x).
  { rewrite H. by apply list_lookup_middle. }
  rewrite list_lookup_imap in Hx.
  destruct (l !! length pre) as [z|]; [|done].
  injection Hx as <-. by exists z.
Qed.

Lemma xrange_split n pre x post :
  xrange n = pre ++ x :: post -> x = length pre /\ length pre < n.
Proof.
  intros H.
  assert (Hx : xrange n !! length pre = Some x).
  { rewrite H. by apply list_lookup_middle. }
  unfold xrange in Hx. apply lookup_seq in Hx. lia.
Qed.

Lemma extend_loop (hs : list (list Z)) (costs : list score)
    (st' : list state) (tw : list (nat * nat)) K :
  Forall (fun z => z.1 < length hs /\ z.1 < length costs
                   /\ z.1 < length st') tw ->
  length tw <= K ->
  exists nhs nsc nst,
    for_each (extend hs costs st') (imap pair tw)
             (([] : list (list Z)), replicate K zero, ([] : list state))
    = Ok (nhs, nsc, nst) /\
    nhs = (fun z => nth z.1 hs [] ++ [Z.of_nat z.2]) <$> tw /\
    length nsc = K /\
    (forall idx z, tw !! idx = Some z -> nsc !! idx = costs !! z.1) /\
    Forall2 (fun s z => st' !! z.1 = Some s) nst tw.
Proof.
  intros Hall HK.
  destruct (for_each_inv (extend hs costs st')
    (fun pre acc =>
       acc.1.1
       = (fun z => nth z.1 hs [] ++ [Z.of_nat z.2]) <$> take (length pre) tw /\
       length acc.1.2 = K /\
       (forall idx z, idx < length pre -> tw !! idx = Some z ->
                      acc.1.2 !! idx = costs !! z.1) /\
       Forall2 (fun s z => st' !! z.1 = Some s) acc.2 (take (length pre) tw))
    (imap pair tw)
    (([] : list (list Z)), replicate K zero, ([] : list state)))
    as ([[nhs nsc] nst] & Hrun & Hn1 & Hn2 & Hn3 & Hn4).
  - simpl. rewrite length_replicate.
    split; [done|]. split; [done|]. split; [intros; lia | constructor].
  - intros pre x [[nhs nsc] nst] (H1 & H2 & H3 & H4) [post Hsplit].
    simpl in H1, H2, H3, H4.
    destruct (imap_pair_split _ _ _ _ Hsplit) as ([ti wi] & Hz & ->).
    rewrite Forall_forall in Hall.
    destruct (Hall (ti, wi)) as (Hti1 & Hti2 & Hti3);
      [by eapply list_elem_of_lookup_2|]. simpl in Hti1, Hti2, Hti3.
    assert (Hidx : length pre < K).
    { apply lookup_lt_Some in Hz. lia. }
    unfold extend.
    destruct (index_lt hs ti Hti1) as (h & -> & Hh).
    destruct (index_lt costs ti Hti2) as (c & -> & Hc).
    destruct (index_lt st' ti Hti3) as (s & -> & Hs).
    rewrite !ret_bind. unfold set_item.
    rewrite bool_decide_true by lia. rewrite !ret_bind.
    eexists. split; [done|]. simpl.
    rewrite length_app, length_insert. simpl.
    replace (length pre + 1) with (S (length pre)) by lia.
    rewrite (take_S_r _ _ _ Hz), fmap_app. simpl.
    rewrite (nth_lookup_Some _ _ [] _ Hh).
    split; [by rewrite H1|]. split; [done|]. split.
    + intros idx z Hlt Hidxz.
      destruct (decide (idx = length pre)) as [->|Hne].
      * rewrite list_lookup_insert_eq by lia.
        rewrite Hz in Hidxz. injection Hidxz as <-. done.
      * rewrite list_lookup_insert_ne by done.
        apply H3; [lia | done].
    + apply Forall2_app; [done|]. by constructor.
  - exists nhs, nsc, nst. rewrite length_imap, firstn_all in Hn1, Hn4.
    rewrite length_imap in Hn3.
    split; [done|]. split; [done|]. split; [done|]. split; [|done].
    intros idx z Hz. apply Hn3; [|done]. by eapply lookup_lt_Some.
Qed.

(** What the loop records as the score of the candidate of rank [idx]:
    the entry of [costs] at the index [ti] of its parent hypothesis. *)
Lemma extend_records (hs : list (list Z)) (costs : list score)
    (st' : list state) (tw : list (nat * nat)) K nhs nsc nst :
  for_each (extend hs costs st') (imap pair tw)
           (([] : list (list Z)), replicate K zero, ([] : list state))
  = Ok (nhs, nsc, nst) ->
  forall idx ti wi, tw !! idx = Some (ti, wi) -> nsc !! idx = costs !! ti.
Proof.
  intros Hrun.
  pose proof (for_each_inv_Ok (extend hs costs st')
    (fun pre acc =>
       forall idx ti wi, idx < length pre -> tw !! idx = Some (ti, wi) ->
                         acc.1.2 !! idx = costs !! ti)
    _ _ _ Hrun) as Hinv.
  simpl in Hinv.
  assert (Hall : forall idx ti wi,
            idx < length (imap pair tw) -> tw !! idx = Some (ti, wi) ->
            nsc !! idx = costs !! ti).
  { apply Hinv.
  - intros ? ? ? Hlt. lia.
  - intros pre x [[a1 a2] a3] [[b1 b2] b3] Hpre [post Hsplit] Hbody.
    destruct (imap_pair_split _ _ _ _ Hsplit) as ([ti wi] & Hz & ->).
    unfold extend in Hbody.
    apply bind_Ok in Hbody as (h & _ & Hbody).
    apply bind_Ok in Hbody as (c & Hc & Hbody).
    apply bind_Ok in Hbody as (sc & Hset & Hbody).
    apply bind_Ok in Hbody as (s & _ & Hbody).
    injection Hbody as <- <- <-.
    unfold set_item in Hset. case_bool_decide as Hlt; [|done].
    injection Hset as <-. apply index_Ok in Hc.
    intros idx ti' wi' Hidx Htw. simpl.
    rewrite length_app in Hidx. simpl in Hidx.
    destruct (decide (idx = length pre)) as [->|Hne].
    + rewrite list_lookup_insert_eq by done.
      rewrite Hz in Htw. injection Htw as <- <-. done.
    + rewrite list_lookup_insert_ne by done.
      apply (Hpre idx ti' wi'); [lia | done]. }
  intros idx ti wi Hidx. apply (Hall idx ti wi); [|done].
  rewrite length_imap. by eapply lookup_lt_Some.
Qed.

Lemma sort_out_loop (ranks : list nat) (cand : nat -> list Z)
    (rec : nat -> score) (st_of : nat -> state -> Prop)
    (nhs : list (list Z)) (nsc : list score) (nst : list state)
    smp ssc dk :
  nhs = cand <$> ranks ->
  (forall r, cand r <> []) ->
  (forall idx r, ranks !! idx = Some r -> nsc !! idx = Some (rec r)) ->
  Forall2 (fun s r => st_of r s) nst ranks ->
  exists so,
    for_each (sort_out nhs nsc nst) (xrange (length nhs))
             (SortedOut smp ssc dk 0 [] [] [])
    = Ok so /\
    so_sample so
    = smp ++ (cand <$> List.filter (fun r => ends_with_eos (cand r)) ranks) /\
    so_sample_score so
    = ssc ++ (rec <$> List.filter (fun r => ends_with_eos (cand r)) ranks) /\
    so_dead_k so
    = dk + length (List.filter (fun r => ends_with_eos (cand r)) ranks) /\
    so_hyp_samples so
    = cand <$> List.filter (fun r => negb (ends_with_eos (cand r))) ranks /\
    so_hyp_scores so
    = rec <$> List.filter (fun r => negb (ends_with_eos (cand r))) ranks /\
    so_new_live_k so
    = length (List.filter (fun r => negb (ends_with_eos (cand r))) ranks) /\
    Forall2 (fun s r => st_of r s) (so_hyp_states so)
            (List.filter (fun r => negb (ends_with_eos (cand r))) ranks).
Proof.
  intros -> Hne Hsc Hst.
  pose proof (Forall2_length _ _ _ Hst) as Hstl.
  destruct (for_each_inv (sort_out (cand <$> ranks) nsc nst)
    (fun pre so =>
       let seen := take (length pre) ranks in
       let fin := List.filter (fun r => ends_with_eos (cand r)) seen in
       let live :=
         List.filter (fun r => negb (ends_with_eos (cand r))) seen in
       so_sample so = smp ++ (cand <$> fin) /\
       so_sample_score so = ssc ++ (rec <$> fin) /\
       so_dead_k so = dk + length fin /\
       so_hyp_samples so = cand <$> live /\
       so_hyp_scores so = rec <$> live /\
       so_new_live_k so = length live /\
       Forall2 (fun s r => st_of r s) (so_hyp_states so) live)
    (xrange (length (cand <$> ranks))) (SortedOut smp ssc dk 0 [] [] []))
    as (so & Hrun & Hso).
  - simpl. rewrite !app_nil_r. repeat split; try done; lia.
  - intros pre x so (H1 & H2 & H3 & H4 & H5 & H6 & H7) [post Hsplit].
    apply xrange_split in Hsplit as [-> Hlt]. rewrite length_fmap in Hlt.
    destruct (lookup_lt_is_Some_2 ranks (length pre) Hlt) as [r Hr].
    assert (Hih : index (cand <$> ranks) (length pre) = Ok (cand r)).
    { apply index_Ok. by rewrite list_lookup_fmap, Hr. }
    assert (Hic : index nsc (length pre) = Ok (rec r)).
    { apply index_Ok. by apply Hsc. }
    destruct (index_lt nst (length pre)) as (s & His & Hs); [lia|].
    assert (Hsr : st_of r s).
    { by eapply (Forall2_lookup_lr _ _ _ _ _ _ Hst). }
    unfold sort_out. rewrite Hih, !ret_bind.
    destruct (last (cand r)) as [w|] eqn:Hlast;
      [|apply last_None in Hlast; by apply Hne in Hlast].
    unfold index_last. rewrite Hlast, ret_bind.
    rewrite length_app. simpl.
    replace (length pre + 1) with (S (length pre)) by lia.
    rewrite (take_S_r _ _ _ Hr), !filter_snoc.
    assert (He : ends_with_eos (cand r) = bool_decide (w = 0%Z)).
    { unfold ends_with_eos. by rewrite Hlast. }
    rewrite He. case_bool_decide as Hw.
    + rewrite Hic, !ret_bind. eexists. split; [done|]. simpl.
      rewrite !app_nil_r, !fmap_app, !length_app, H1, H2, H3. simpl.
      rewrite !app_assoc. repeat split; try done; lia.
    + rewrite Hic, ret_bind, His, ret_bind. eexists. split; [done|]. simpl.
      rewrite !app_nil_r, !fmap_app, !length_app, H4, H5, H6. simpl.
      repeat split; try done; try lia.
      apply Forall2_app; [done|]. by constructor.
  - exists so. split; [done|]. simpl in Hso.
    rewrite xrange_length, length_fmap, firstn_all in Hso. exact Hso.
Qed.

Lemma ends_with_eos_snoc (p : list Z) (w : Z) :
  ends_with_eos (p ++ [w]) = bool_decide (w = 0%Z).
Proof. unfold ends_with_eos. by rewrite last_snoc. Qed.

Lemma comprehension_fmap {A B C} (f : B -> result C) (g : A -> B)
    (h : A -> C) (l : list A) :
  (forall x, x ∈ l -> f (g x) = Ok (h x)) ->
  comprehension f (g <$> l) = Ok (h <$> l).
Proof.
  induction l as [|x l IH]; intros Hf; [done|].
  rewrite !fmap_cons. cbn [comprehension].
  rewrite Hf by left. rewrite ret_bind, IH; [done|].
  intros y Hy. apply Hf. by right.
Qed.

Lemma elem_of_filter_list {A} (P : A -> bool) (l : list A) x :
  x ∈ List.filter P l <-> x ∈ l /\ P x = true.
Proof. by rewrite !list_elem_of_In, filter_In. Qed.

(** One iteration from a state fit for it: it raises nothing, keeps the
    bookkeeping and sorts the selected candidates out. *)
Lemma search_step_ok ctx0 k n (b : beam) :
  well_formed k n b -> ready b ->
  exists b' stop,
    search_step zero sub_log argsort f_next ctx0 k b = Ok (b', stop) /\
    well_formed k (S n) b' /\
    sorted_by_eos zero sub_log argsort f_next ctx0 k b b' /\
    (stop = true <-> live_k b' < 1 \/ k <= dead_k b') /\
    (stop = false -> ready b').
Proof.
  intros (Hw1 & Hw2 & Hw3 & Hw4 & Hw5 & Hw6 & Hw7 & Hw8 & Hw9) [Hr1 Hr2].
  unfold sorted_by_eos, recorded_score, selected, candidate, finishes,
    candidate_scores, voc_size, answer, search_step.
  destruct (f_next_shape (next_w b) (replicate (live_k b) ctx0) (next_state b))
    as (V & Hp & Hs & Hrect).
  destruct (f_next (next_w b) (replicate (live_k b) ctx0) (next_state b))
    as [[p w'] s'] eqn:Hn.
  cbn [fst snd] in *. rewrite Hr1 in Hp, Hs.
  destruct (select_ok k b p V)
    as (flat & ranks & Hflat & Hranks & -> & Hrl & Hrb); [lia | done | lia |].
  rewrite <- Hflat, <- Hranks.
  rewrite ret_bind, bool_decide_false by lia. rewrite ret_bind.
  rewrite Hp in Hrl, Hrb.
  assert (Hshape : ranks <> [] -> shape1 p = V /\ 1 <= V).
  { intros Hne. destruct ranks as [|r ranks']; [done|].
    inversion Hrb as [|? ? Hr _]; subst.
    destruct p as [|row p']; [simpl in Hp; lia|].
    inversion Hrect; subst. simpl. split; [done|].
    destruct (length row); lia. }
  assert (Hparent : forall r, r ∈ ranks ->
            r / shape1 p < live_k b /\ r / shape1 p < length ranks).
  { intros r Hr.
    destruct Hshape as [-> HV]; [by intros ->; apply not_elem_of_nil in Hr|].
    rewrite Forall_forall in Hrb. specialize (Hrb r Hr).
    assert (Hti : r / V < live_k b).
    { apply Nat.Div0.div_lt_upper_bound. lia. }
    assert (live_k b <= live_k b * V) by nia. lia. }
  set (cand := fun r => nth (r / shape1 p) (hyp_samples b) []
                        ++ [Z.of_nat (r mod shape1 p)]).
  set (rec := fun r => nth (nth (r / shape1 p) ranks 0) flat zero).
  rewrite zip_fmap_same.
  destruct (extend_loop (hyp_samples b) ((fun r => nth r flat zero) <$> ranks)
              s' ((fun r => (r / shape1 p, r mod shape1 p)) <$> ranks)
              (k - dead_k b))
    as (nhs & nsc & nst & -> & Hn1 & Hn2 & Hn3 & Hn4).
  { apply Forall_fmap, Forall_forall. intros r Hr. simpl.
    destruct (Hparent r Hr). rewrite length_fmap. lia. }
  { rewrite length_fmap. lia. }
  rewrite ret_bind.
  assert (Hnhs : nhs = cand <$> ranks).
  { rewrite Hn1, <- list_fmap_compose. done. }
  destruct (sort_out_loop ranks cand rec
              (fun r s => s' !! (r / shape1 p) = Some s)
              nhs nsc nst (sample b) (sample_score b) (dead_k b))
    as (so & -> & Hs1 & Hs2 & Hs3 & Hs4 & Hs5 & Hs6 & Hs7).
  { done. }
  { intros r. unfold cand. by destruct (nth _ _ _). }
  { intros idx r Hr. rewrite (Hn3 idx (r / shape1 p, r mod shape1 p)).
    - simpl. rewrite list_lookup_fmap.
      destruct (Hparent r) as [_ Hlt]; [by eapply list_elem_of_lookup_2|].
      by rewrite (lookup_nth_lt ranks _ 0 Hlt).
    - by rewrite list_lookup_fmap, Hr. }
  { apply Forall2_fmap_r in Hn4. exact Hn4. }
  rewrite ret_bind.
  assert (Hfin : List.filter (fun r => ends_with_eos (cand r)) ranks
                 = List.filter (fun r => bool_decide (r mod shape1 p = 0))
                               ranks).
  { apply filter_ext. intros r. unfold cand.
    rewrite ends_with_eos_snoc. apply bool_decide_ext. lia. }
  assert (Hlive : List.filter (fun r => negb (ends_with_eos (cand r))) ranks
                  = List.filter
                      (fun r => negb (bool_decide (r mod shape1 p = 0)))
                      ranks).
  { apply filter_ext. intros r. unfold cand.
    rewrite ends_with_eos_snoc. f_equal. apply bool_decide_ext. lia. }
  pose proof (filter_split_length (fun r => ends_with_eos (cand r)) ranks)
    as Hsplit.
  assert (Hwf : forall (nw : list Z) (ns : list state),
    well_formed k (S n)
      (Beam (so_sample so) (so_sample_score so) (so_new_live_k so)
            (so_dead_k so) (so_hyp_samples so) (so_hyp_scores so) nw ns)).
  { intros nw ns. unfold well_formed. simpl.
    assert (Hlen : forall r, r ∈ ranks -> length (cand r) = S n).
    { intros r Hr. destruct (Hparent r Hr) as [Hlt _].
      unfold cand. rewrite length_app. simpl.
      rewrite Forall_forall in Hw6. rewrite (Hw6 (nth _ _ _)); [lia|].
      apply list_elem_of_In, nth_In. lia. }
    rewrite Hs1, Hs2, Hs3, Hs4, Hs5, Hs6, !length_app, !length_fmap.
    repeat split; try lia.
    - apply Forall_fmap, Forall_forall. intros r Hr.
      apply elem_of_filter_list in Hr as [Hr _]. by apply Hlen.
    - apply Forall_app. split.
      + eapply Forall_impl; [exact Hw7 | simpl; lia].
      + apply Forall_fmap, Forall_forall. intros r Hr.
        apply elem_of_filter_list in Hr as [Hr _]. simpl.
        rewrite (Hlen r Hr). lia.
    - apply Forall_app. split; [done|].
      apply Forall_fmap, Forall_forall. intros r Hr.
      by apply elem_of_filter_list in Hr as [_ Hr].
    - apply Forall_fmap, Forall_forall. intros r Hr.
      apply elem_of_filter_list in Hr as [_ Hr]. simpl.
      by apply negb_true_iff. }
  rewrite <- Hfin, <- Hlive, <- Hs6, <- Hs3.
  case_bool_decide as Hlive1.
  { eexists _, true. split; [done|]. split; [apply Hwf|]. simpl.
    split; [done|]. split; [|done]. split; [tauto | done]. }
  case_bool_decide as Hdead1.
  { eexists _, true. split; [done|]. split; [apply Hwf|]. simpl.
    split; [done|]. split; [|done]. split; [tauto | done]. }
  assert (Hnw : comprehension index_last (so_hyp_samples so)
                = Ok ((fun r => Z.of_nat (r mod shape1 p))
                        <$> List.filter
                              (fun r => negb (ends_with_eos (cand r))) ranks)).
  { rewrite Hs4. apply comprehension_fmap.
    intros r _. unfold index_last, cand. by rewrite last_snoc. }
  rewrite Hnw, ret_bind. eexists _, false. split; [done|].
  split; [apply Hwf|]. simpl.
  split; [done|]. split; [split; [done | lia]|].
  intros _. unfold ready. simpl. rewrite length_fmap. lia.
Qed.

(** The loop with [fuel] iterations left, entered after [n] iterations. *)
Lemma search_loop_ok ctx0 k fuel : forall n (b : beam),
  well_formed k n b -> ready b ->
  exists bf trace,
    search_loop zero sub_log argsort f_next ctx0 k fuel b = Ok (bf, trace) /\
    length trace <= fuel /\
    (0 < fuel -> last trace = Some bf) /\
    well_formed k (n + length trace) bf /\
    chain (sorted_by_eos zero sub_log argsort f_next ctx0 k) b trace /\
    (forall i bi, trace !! i = Some bi -> S i < length trace ->
                  1 <= live_k bi /\ dead_k bi < k) /\
    (length trace < fuel -> live_k bf < 1 \/ k <= dead_k bf).
Proof.
  induction fuel as [|fuel IH]; intros n b Hwf Hready.
  - exists b, []. simpl. rewrite Nat.add_0_r.
    split; [done|]. split; [done|]. split; [lia|]. split; [done|].
    split; [done|]. split; [|lia]. intros i bi Hi. done.
  - destruct (search_step_ok ctx0 k n b Hwf Hready)
      as (b' & stop & Hstep & Hwf' & Hmoved & Hstop & Hready').
    cbn [search_loop]. rewrite Hstep, ret_bind. destruct stop.
    + exists b', [b']. simpl.
      replace (n + 1) with (S n) by lia.
      split; [done|]. split; [lia|]. split; [done|]. split; [done|].
      split; [done|]. split.
      * intros i bi _ Hi. lia.
      * intros _. by apply Hstop.
    + destruct (IH (S n) b' Hwf' (Hready' eq_refl))
        as (bf & trace & Hloop & Hlen & Hlast & Hwfb & Hchain & Hmid & Hearly).
      rewrite Hloop, ret_bind. exists bf, (b' :: trace). simpl.
      replace (n + S (length trace)) with (S n + length trace) by lia.
      assert (Hgo : 1 <= live_k b' /\ dead_k b' < k).
      { destruct (decide (live_k b' < 1 \/ k <= dead_k b')) as [Hc|Hc];
          [by apply Hstop in Hc | lia]. }
      split; [done|]. split; [lia|]. split.
      { intros _. destruct fuel as [|fuel'].
        - simpl in Hloop. by injection Hloop as <- <-.
        - rewrite last_cons, Hlast by lia. done. }
      split; [done|]. split; [done|]. split.
      { intros [|i] bi Hi Hlt; simpl in Hi.
        - by injection Hi as <-.
        - apply (Hmid i bi Hi). lia. }
      intros Hlt. apply Hearly. lia.
Qed.

Lemma dump_ok k n (b : beam) :
  well_formed k n b ->
  dump b = Ok (sample b ++ hyp_samples b, sample_score b ++ hyp_scores b).
Proof.
  intros (Hw1 & Hw2 & _). unfold dump. case_bool_decide as Hlive.
  - destruct (for_each_inv
      (fun '(sample, sample_score) idx =>
         h ← index (hyp_samples b) idx;
         c ← index (hyp_scores b) idx;
         Ok (sample ++ [h], sample_score ++ [c]))
      (fun pre acc =>
         acc = (sample b ++ take (length pre) (hyp_samples b),
                sample_score b ++ take (length pre) (hyp_scores b)))
      (xrange (live_k b)) (sample b, sample_score b))
      as (acc & -> & ->).
    + simpl. by rewrite !app_nil_r.
    + intros pre x acc -> [post Hsplit].
      apply xrange_split in Hsplit as [-> Hlt].
      destruct (index_lt (hyp_samples b) (length pre)) as (h & -> & Hh);
        [lia|].
      destruct (index_lt (hyp_scores b) (length pre)) as (c & -> & Hc);
        [lia|].
      rewrite !ret_bind. eexists. split; [done|].
      rewrite length_app. simpl.
      replace (length pre + 1) with (S (length pre)) by lia.
      by rewrite (take_S_r _ _ _ Hh), (take_S_r _ _ _ Hc), !app_assoc.
    + rewrite !xrange_length. rewrite <- Hw1 at 1. rewrite <- Hw2 at 1.
      by rewrite !firstn_all.
  - destruct (hyp_samples b); [|simpl in Hw1; lia].
    destruct (hyp_scores b); [|simpl in Hw2; lia].
    by rewrite !app_nil_r.
Qed.

(** C5.  For a beam width and a length cap of at least one, and callbacks
    that answer with one row and one state for each hypothesis,
    [gen_sample] raises nothing and returns after at least one and at most
    [maxlen] iterations.  Every iteration before the last one left a live
    hypothesis and fewer than [k] finished ones; a last iteration before
    the cap left no live hypothesis or at least [k] finished ones.  The
    search starts from the one empty hypothesis with the score zero.  Each
    iteration takes the first [k - dead_k] candidates in the order of
    [argsort] on their scores and sorts them out by their last token: the
    ones whose last token is the id 0, and only they, join the finished
    samples and the others become the live hypotheses.  The samples
    returned are the finished ones followed by the hypotheses still live
    at the exit, unchanged and so not ending with the id 0, with their
    scores in the same order; there are at most [k] of them, each of at
    most [maxlen] tokens. *)
Theorem gen_sample_terminates (x : input) (k maxlen : nat) :
  1 <= k -> 1 <= maxlen ->
  exists bf trace samples scores,
    gen_sample_init zero f_init x
    = (Beam [] [] 1 0 [[]] [zero] [(-1)%Z] (f_init x).1, (f_init x).2) /\
    search_loop zero sub_log argsort f_next
                (gen_sample_init zero f_init x).2 k maxlen
                (gen_sample_init zero f_init x).1 = Ok (bf, trace) /\
    gen_sample zero sub_log argsort f_init f_next x k maxlen
    = Ok (samples, scores) /\
    1 <= length trace <= maxlen /\
    last trace = Some bf /\
    (forall i bi, trace !! i = Some bi -> S i < length trace ->
                  1 <= live_k bi /\ dead_k bi < k) /\
    (length trace < maxlen -> live_k bf < 1 \/ k <= dead_k bf) /\
    chain (sorted_by_eos zero sub_log argsort f_next
                         (gen_sample_init zero f_init x).2 k)
          (gen_sample_init zero f_init x).1 trace /\
    samples = sample bf ++ hyp_samples bf /\
    scores = sample_score bf ++ hyp_scores bf /\
    Forall (fun h => ends_with_eos h = true) (sample bf) /\
    Forall (fun h => ends_with_eos h = false) (hyp_samples bf) /\
    length samples <= k /\
    length scores = length samples /\
    Forall (fun h => length h <= maxlen) samples.
Proof.
  intros Hk Hmax. unfold gen_sample, gen_sample_init.
  destruct (f_init x) as [st0 ctx0]. cbn [fst snd].
  set (b0 := Beam [] [] 1 0 (replicate 1 []) (replicate 1 zero) [(-1)%Z] st0).
  assert (Hwf0 : well_formed k 0 b0).
  { unfold well_formed. simpl. repeat split; try done; try lia.
    - by repeat constructor.
    - by repeat constructor. }
  assert (Hready0 : ready b0) by (unfold ready; simpl; lia).
  destruct (search_loop_ok ctx0 k maxlen 0 b0 Hwf0 Hready0)
    as (bf & trace & Hloop & Hlen & Hlast & Hwf & Hchain & Hmid & Hearly).
  exists bf, trace, (sample bf ++ hyp_samples bf),
         (sample_score bf ++ hyp_scores bf).
  rewrite Hloop, ret_bind, (dump_ok k _ bf Hwf).
  specialize (Hlast ltac:(lia)).
  destruct Hwf as (Hw1 & Hw2 & Hw3 & Hw4 & Hw5 & Hw6 & Hw7 & Hw8 & Hw9).
  split; [done|]. split; [done|]. split; [done|]. split.
  { split; [|done]. destruct trace; [done | simpl; lia]. }
  do 8 (split; [done|]).
  split; [rewrite length_app; lia|].
  split; [rewrite !length_app; lia|].
  apply Forall_app. simpl in Hw6, Hw7. split.
  - eapply Forall_impl; [exact Hw7 | simpl; lia].
  - eapply Forall_impl; [exact Hw6 | simpl; lia].
Qed.

End beam_search.

(** ** The run on integers *)

Lemma insert_rank_perm (a : list Z) i ranks :
  translate.insert_rank a i ranks ≡ₚ i :: ranks.
Proof.
  induction ranks as [|j ranks IH]; simpl; [done|].
  case_bool_decide; [done|]. rewrite IH. apply perm_swap.
Qed.

Lemma foldl_insert_rank_perm (a : list Z) idxs ranks :
  foldl (fun ranks i => translate.insert_rank a i ranks) ranks idxs
  ≡ₚ ranks ++ idxs.
Proof.
  revert ranks. induction idxs as [|i idxs IH]; intros ranks; simpl.
  - by rewrite app_nil_r.
  - rewrite IH, insert_rank_perm. by rewrite <- Permutation_middle.
Qed.

Lemma argsort_Z_perm (a : list Z) :
  translate.argsort_Z a ≡ₚ seq 0 (length a).
Proof. unfold translate.argsort_Z. by rewrite foldl_insert_rank_perm. Qed.

Lemma f_next_const_shape (row w : list Z) (ctx st : list unit) :
  exists V,
    length (translate.f_next_const row w ctx st).1.1 = length w /\
    length (translate.f_next_const row w ctx st).2 = length w /\
    Forall (fun r => length r = V) (translate.f_next_const row w ctx st).1.1.
Proof.
  exists (length row). unfold translate.f_next_const. simpl.
  rewrite !length_fmap. split; [done|]. split; [done|].
  apply Forall_fmap, Forall_forall. done.
Qed.

Lemma gen_sample_terminates_witness :
  exists bf trace samples scores,
    translate.gen_sample_init 0%Z translate.f_init_unit tt
    = (translate.Beam [] [] 1 0 [[]] [0%Z] [(-1)%Z]
         (translate.f_init_unit tt).1, (translate.f_init_unit tt).2) /\
    translate.search_loop 0%Z translate.sub_log_Z translate.argsort_Z
      (translate.f_next_const [-69; -120; -161]%Z)
      (translate.gen_sample_init 0%Z translate.f_init_unit tt).2 2 3
      (translate.gen_sample_init 0%Z translate.f_init_unit tt).1
    = Ok (bf, trace) /\
    translate.gen_sample 0%Z translate.sub_log_Z translate.argsort_Z
      translate.f_init_unit (translate.f_next_const [-69; -120; -161]%Z)
      tt 2 3
    = Ok (samples, scores) /\
    1 <= length trace <= 3 /\
    last trace = Some bf /\
    (forall i bi, trace !! i = Some bi -> S i < length trace ->
                  1 <= translate.live_k bi /\ translate.dead_k bi < 2) /\
    (length trace < 3 ->
     translate.live_k bf < 1 \/ 2 <= translate.dead_k bf) /\
    translate.chain
      (translate.sorted_by_eos 0%Z translate.sub_log_Z translate.argsort_Z
         (translate.f_next_const [-69; -120; -161]%Z)
         (translate.gen_sample_init 0%Z translate.f_init_unit tt).2 2)
      (translate.gen_sample_init 0%Z translate.f_init_unit tt).1 trace /\
    samples = translate.sample bf ++ translate.hyp_samples bf /\
    scores = translate.sample_score bf ++ translate.hyp_scores bf /\
    Forall (fun h => translate.ends_with_eos h = true) (translate.sample bf) /\
    Forall (fun h => translate.ends_with_eos h = false)
           (translate.hyp_samples bf) /\
    length samples <= 2 /\
    length scores = length samples /\
    Forall (fun h => length h <= 3) samples.
Proof.
  apply (gen_sample_terminates 0%Z translate.sub_log_Z translate.argsort_Z
           translate.f_init_unit (translate.f_next_const [-69; -120; -161]%Z)
           argsort_Z_perm (f_next_const_shape [-69; -120; -161]%Z) tt 2 3).
  - lia.
  - lia.
Defined.

(** C3 does not hold of the code.  With a beam of width 2 and one step
    over a vocabulary of three words of probabilities 0.5, 0.3 and 0.2
    (logarithms -0.69, -1.20 and -1.61, here in hundredths), the two
    selected candidates have the scores 69 and 120, and the scores
    recorded for them are 69 and 69: the score of a candidate is read
    from [costs] at the index of its parent hypothesis, not at its own
    rank. *)
Lemma gen_sample_records_score_of_parent_rank :
  translate.select translate.sub_log_Z translate.argsort_Z 2
    (translate.gen_sample_init 0%Z translate.f_init_unit tt).1
    [[-69; -120; -161]]%Z
  = Ok ([0; 1], [0; 0], [0; 1], [69; 120]%Z) /\
  translate.gen_sample_Z [-69; -120; -161]%Z 2 1
  = Ok ([[0]; [1]]%Z, [69; 69]%Z).
Proof. split; reflexivity. Qed.

(** * Further properties *)

(** ** read_data *)

(** Bucket [b] of the result in closed form. *)
Lemma read_data_closed (buckets : list bucket)
    (source_file target_file : list sentence) (max_size : option Z) b :
  b < length buckets ->
  translate.read_data buckets source_file target_file max_size !! b
  = Some (translate.stored <$>
            List.filter (translate.first_fit buckets b)
              (translate.loaded source_file target_file max_size)).
Proof.
  intros Hb. unfold translate.read_data. rewrite read_loop_fold by lia.
  rewrite fold_place_lookup, lookup_replicate_2 by done. simpl.
  do 3 f_equal. unfold translate.remaining, translate.loaded.
  destruct max_size as [m|]; [|done].
  case_bool_decide; [done|]. by rewrite Z.sub_0_r.
Qed.

Lemma read_data_length (buckets : list bucket)
    (source_file target_file : list sentence) (max_size : option Z) :
  length (translate.read_data buckets source_file target_file max_size)
  = length buckets.
Proof.
  unfold translate.read_data. rewrite read_loop_fold by lia.
  by rewrite fold_place_length, length_replicate.
Qed.

(** What an example stored in bucket [b] looks like. *)
Lemma read_data_stored (buckets : list bucket)
    (source_file target_file : list sentence) (max_size : option Z) b d ex :
  translate.read_data buckets source_file target_file max_size !! b = Some d ->
  ex ∈ d ->
  exists source target,
    (source, target) ∈ translate.loaded source_file target_file max_size /\
    ex = (source, reverse source, target ++ [data_utils.EOS_ID]) /\
    translate.first_fit buckets b (source, target) = true.
Proof.
  intros Hd Hex.
  assert (Hb : b < length buckets).
  { rewrite <- (read_data_length buckets source_file target_file max_size).
    by eapply lookup_lt_Some. }
  rewrite read_data_closed in Hd by done. injection Hd as <-.
  apply list_elem_of_fmap in Hex as ([s t] & -> & Hin).
  apply list_elem_of_In, filter_In in Hin as [Hin Hff].
  exists s, t. split; [by apply list_elem_of_In|]. done.
Qed.

(** X1.  The invariant that the docstring of [read_data] promises: an
    example stored in bucket [b] has a source shorter than the source size
    of the bucket and a target, end-of-sequence id included, shorter than
    its target size; its second component is the source reversed and its
    target ends with the end-of-sequence id. *)
Theorem read_data_bucket_invariant (buckets : list bucket)
    (source_file target_file : list sentence) (max_size : option Z)
    (b : nat) (d : list example) (source source_r target : sentence) :
  translate.read_data buckets source_file target_file max_size !! b = Some d ->
  (source, source_r, target) ∈ d ->
  exists source_size target_size,
    buckets !! b = Some (source_size, target_size) /\
    length source < source_size /\
    length target < target_size /\
    source_r = reverse source /\
    last target = Some data_utils.EOS_ID.
Proof.
  intros Hd Hex.
  destruct (read_data_stored _ _ _ _ _ _ _ Hd Hex)
    as (s & t & _ & [= -> -> ->] & Hff).
  apply first_fit_true in Hff as [Hfit _]. simpl in Hfit.
  unfold translate.fits in Hfit.
  destruct (buckets !! b) as [[ss ts]|]; [|done].
  apply andb_true_iff in Hfit as [H1 H2].
  apply bool_decide_eq_true in H1, H2.
  exists ss, ts. split; [done|]. split; [done|].
  rewrite length_app. simpl. split; [lia|]. split; [done|].
  by rewrite last_snoc.
Qed.

Lemma read_data_bucket_invariant_witness :
  exists source_size target_size,
    translate._buckets !! 1 = Some (source_size, target_size) /\
    length [8%Z] < source_size /\
    length [6; 6; 6; 6; 6; 6; 6; 6; 6; 2]%Z < target_size /\
    [8%Z] = reverse [8%Z] /\
    last [6; 6; 6; 6; 6; 6; 6; 6; 6; 2]%Z = Some data_utils.EOS_ID.
Proof.
  apply (read_data_bucket_invariant translate._buckets
           [[1; 2]; [8]]%Z [[3; 4]; replicate 9 6]%Z None 1
           [([8], [8], [6; 6; 6; 6; 6; 6; 6; 6; 6; 2])]%Z).
  - reflexivity.
  - left.
Defined.

Lemma filter_take_prefix {A} (P : A -> bool) (n : nat) (l : list A) :
  List.filter P (take n l) `prefix_of` List.filter P l.
Proof.
  exists (List.filter P (drop n l)).
  by rewrite <- List.filter_app, take_drop.
Qed.

(** X3.  A limit on the number of lines only cuts the buckets short: each
    bucket read under a limit is a prefix of the same bucket read without
    one. *)
Theorem read_data_limit_prefix (buckets : list bucket)
    (source_file target_file : list sentence) (m : Z)
    (b : nat) (d d' : list example) :
  translate.read_data buckets source_file target_file (Some m) !! b = Some d ->
  translate.read_data buckets source_file target_file None !! b = Some d' ->
  d `prefix_of` d'.
Proof.
  intros Hd Hd'.
  assert (Hb : b < length buckets).
  { rewrite <- (read_data_length buckets source_file target_file None).
    by eapply lookup_lt_Some. }
  rewrite read_data_closed in Hd, Hd' by done.
  injection Hd as <-. injection Hd' as <-.
  unfold translate.loaded. case_bool_decide; [done|].
  destruct (filter_take_prefix (translate.first_fit buckets b) (Z.to_nat m)
              (zip source_file target_file)) as [k Hk].
  exists (translate.stored <$> k). by rewrite Hk, fmap_app.
Qed.

Lemma read_data_limit_prefix_witness :
  [([1; 2], [2; 1], [3; 4; 2])]%Z
  `prefix_of` [([1; 2], [2; 1], [3; 4; 2]); ([5], [5], [6; 2])]%Z.
Proof.
  apply (read_data_limit_prefix translate._buckets
           [[1; 2]; [5]]%Z [[3; 4]; [6]]%Z 1 0).
  - reflexivity.
  - reflexivity.
Defined.

Lemma alter_snoc_total {A} (ds : list (list A)) i x :
  sum_list (length <$> alter (fun d => d ++ [x]) i ds)
  <= S (sum_list (length <$> ds)).
Proof.
  revert i. induction ds as [|d ds IH]; intros [|i]; simpl; try lia.
  - rewrite length_app. simpl. lia.
  - specialize (IH i).
    change (length d
            + sum_list (length <$> alter (fun d => d ++ [x]) i ds)
            <= S (length d + sum_list (length <$> ds))).
    lia.
Qed.

Lemma place_total s sr t bs off (ds : list (list example)) :
  sum_list (length <$> translate.place s sr t bs off ds)
  <= S (sum_list (length <$> ds)).
Proof.
  revert off. induction bs as [|[ss ts] bs IH]; intros off; simpl; [lia|].
  case_match; [apply alter_snoc_total | apply IH].
Qed.

Lemma fold_place_total buckets pairs (ds : list (list example)) :
  sum_list (length <$>
    foldl (fun ds (p : sentence * sentence) =>
             translate.place p.1 (reverse p.1) (p.2 ++ [data_utils.EOS_ID])
                             buckets 0 ds) ds pairs)
  <= length pairs + sum_list (length <$> ds).
Proof.
  revert ds. induction pairs as [|p pairs IH]; intros ds; simpl; [lia|].
  etransitivity; [apply IH|].
  pose proof (place_total p.1 (reverse p.1) (p.2 ++ [data_utils.EOS_ID])
                buckets 0 ds). lia.
Qed.

(** X2.  [read_data] stores every line pair at most once: the buckets
    together hold no more examples than the shorter of the two files has
    lines, and no more than a positive limit allows. *)
Theorem read_data_total (buckets : list bucket)
    (source_file target_file : list sentence) (max_size : option Z) :
  sum_list (length <$>
              translate.read_data buckets source_file target_file max_size)
  <= length source_file `min` length target_file /\
  forall m, max_size = Some m -> (0 < m)%Z ->
    (Z.of_nat (sum_list (length <$>
       translate.read_data buckets source_file target_file max_size)) <= m)%Z.
Proof.
  assert (Htot :
    sum_list (length <$>
                translate.read_data buckets source_file target_file max_size)
    <= length (translate.loaded source_file target_file max_size)).
  { unfold translate.read_data. rewrite read_loop_fold by lia.
    etransitivity; [apply fold_place_total|].
    rewrite fmap_replicate. simpl.
    assert (Hz : forall n, sum_list (replicate n 0) = 0).
    { induction n; simpl; lia. }
    rewrite Hz, Nat.add_0_r.
    unfold translate.remaining, translate.loaded.
    destruct max_size as [m|]; [|done].
    case_bool_decide; [done|]. by rewrite Z.sub_0_r. }
  split.
  - etransitivity; [exact Htot|]. unfold translate.loaded.
    destruct max_size as [m|]; [case_bool_decide|];
      rewrite ?length_take, length_zip_with; lia.
  - intros m -> Hm. unfold translate.loaded in Htot.
    rewrite bool_decide_false in Htot by lia.
    rewrite length_take in Htot. lia.
Qed.

(** ** get_batch *)

Section get_batch_more.

Import nmt_model.

Variables (buckets : list bucket) (batch_size : nat) (rnd : nat -> nat).
Variables (data : list (list example)) (bucket_id : nat).

(** With an empty batch the data is not looked at. *)
Lemma get_batch_empty_batch (data' : list (list example)) :
  get_batch buckets 0 rnd data bucket_id
  = get_batch buckets 0 rnd data' bucket_id.
Proof. reflexivity. Qed.

Lemma draw_example_fails encoder_size decoder_size acc r :
  (forall d, data !! bucket_id = Some d -> d = []) ->
  draw_example data bucket_id encoder_size decoder_size acc r
  = Raise IndexError.
Proof.
  intros Hd. unfold draw_example, index. destruct acc as [[e er] dc].
  destruct (data !! bucket_id) as [d|] eqn:Hl; [|reflexivity].
  rewrite (Hd d eq_refl). reflexivity.
Qed.

(** The first draw fails: the whole call raises [IndexError]. *)
Lemma get_batch_first_draw encoder_size decoder_size :
  buckets !! bucket_id = Some (encoder_size, decoder_size) ->
  0 < batch_size ->
  (forall d, data !! bucket_id = Some d -> d = []) ->
  get_batch buckets batch_size rnd data bucket_id = Raise IndexError.
Proof.
  intros Hb HB Hd. unfold get_batch.
  rewrite (proj2 (index_Ok _ _ _) Hb), ret_bind.
  destruct batch_size as [|B]; [lia|].
  unfold xrange. simpl seq. rewrite fmap_cons, for_each_cons.
  by rewrite draw_example_fails.
Qed.

(** The closed form of the batch, also for an empty batch. *)
Lemma get_batch_closed_gen encoder_size decoder_size (d : list example) :
  buckets !! bucket_id = Some (encoder_size, decoder_size) ->
  batch_size = 0 \/ (data !! bucket_id = Some d /\ d <> []) ->
  let encs := (fun j => encoder_line encoder_size (drawn rnd d j).1.1)
                <$> xrange batch_size in
  let encs_r := (fun j => encoder_line encoder_size (drawn rnd d j).1.2)
                  <$> xrange batch_size in
  let decs := (fun j => decoder_line decoder_size (drawn rnd d j).2)
                <$> xrange batch_size in
  get_batch buckets batch_size rnd data bucket_id
  = Ok (Batch
          ((fun l => (fun row => nth l row 0%Z) <$> encs)
             <$> xrange encoder_size)
          ((fun l => (fun row => nth l row 0%Z) <$> encs_r)
             <$> xrange encoder_size)
          ((fun l => (fun row => nth l row 0%Z) <$> decs)
             <$> xrange decoder_size)
          ((fun l => weight_of decs decoder_size l <$> xrange batch_size)
             <$> xrange decoder_size)).
Proof.
  intros Hb [HB|[Hd Hne]].
  - subst batch_size.
    rewrite (get_batch_empty_batch
               (replicate bucket_id [] ++ [[([], [], [])]])).
    apply (get_batch_closed buckets 0 rnd _ bucket_id encoder_size
             decoder_size [([], [], [])]); [done | | done].
    rewrite lookup_app_r, length_replicate, Nat.sub_diag
      by (rewrite length_replicate; lia). done.
  - by apply get_batch_closed.
Qed.

Lemma get_batch_Ok_inv batch :
  get_batch buckets batch_size rnd data bucket_id = Ok batch ->
  exists encoder_size decoder_size,
    buckets !! bucket_id = Some (encoder_size, decoder_size) /\
    (batch_size = 0 \/ exists d, data !! bucket_id = Some d /\ d <> []).
Proof.
  intros Hok.
  destruct (buckets !! bucket_id) as [[E D]|] eqn:Hb.
  - exists E, D. split; [done|].
    destruct (decide (batch_size = 0)) as [|HB]; [by left|]. right.
    destruct (data !! bucket_id) as [d|] eqn:Hd.
    + exists d. split; [done|]. intros ->.
      rewrite (get_batch_first_draw E D Hb) in Hok; [done | lia |].
      intros d' Hd'. congruence.
    + rewrite (get_batch_first_draw E D Hb) in Hok; [done | lia |].
      intros d' Hd'. congruence.
  - unfold get_batch, index in Hok. by rewrite Hb in Hok.
Qed.

End get_batch_more.

(** [get_batch] returns a batch or raises [IndexError]. *)
Lemma get_batch_cases (buckets : list bucket) (batch_size : nat)
    (rnd : nat -> nat) (data : list (list example)) (bucket_id : nat) :
  (exists batch E D,
     nmt_model.get_batch buckets batch_size rnd data bucket_id = Ok batch /\
     buckets !! bucket_id = Some (E, D) /\
     (batch_size = 0 \/ exists d, data !! bucket_id = Some d /\ d <> [])) \/
  nmt_model.get_batch buckets batch_size rnd data bucket_id
  = Raise IndexError.
Proof.
  destruct (nmt_model.get_batch buckets batch_size rnd data bucket_id)
    as [batch|e] eqn:Hgb.
  - left. destruct (get_batch_Ok_inv _ _ _ _ _ _ Hgb) as (E & D & Hb & Hd).
    by exists batch, E, D.
  - right. rewrite <- Hgb.
    destruct (buckets !! bucket_id) as [[E D]|] eqn:Hb.
    + apply (get_batch_first_draw _ _ _ _ _ E D Hb).
      * destruct batch_size; [|lia]. exfalso.
        rewrite (get_batch_closed_gen buckets 0 rnd data bucket_id E D [])
          in Hgb; [done | done | by left].
      * intros d Hd. destruct d as [|ex d]; [done|]. exfalso.
        rewrite (get_batch_closed_gen buckets batch_size rnd data bucket_id
                   E D (ex :: d)) in Hgb; [done | done | by right].
    + unfold nmt_model.get_batch, index. by rewrite Hb.
Qed.

(** X4.  [get_batch] returns a batch exactly when the bucket id names a
    bucket and, unless the batch size is zero, the data holds at least one
    example for it; in every other case it raises [IndexError]. *)
Theorem get_batch_outcome (buckets : list bucket) (batch_size : nat)
    (rnd : nat -> nat) (data : list (list example)) (bucket_id : nat) :
  ((exists batch,
      nmt_model.get_batch buckets batch_size rnd data bucket_id = Ok batch)
   <-> (exists bk, buckets !! bucket_id = Some bk) /\
       (batch_size = 0 \/
        exists d, data !! bucket_id = Some d /\ d <> [])) /\
  ((forall batch,
      nmt_model.get_batch buckets batch_size rnd data bucket_id <> Ok batch)
   -> nmt_model.get_batch buckets batch_size rnd data bucket_id
      = Raise IndexError).
Proof.
  split.
  - split.
    + intros [batch Hok].
      destruct (get_batch_Ok_inv _ _ _ _ _ _ Hok) as (E & D & Hb & Hd).
      split; [by exists (E, D) | done].
    + intros [[[E D] Hb] Hd].
      assert (Hd' : exists d, batch_size = 0
                              \/ (data !! bucket_id = Some d /\ d <> [])).
      { destruct Hd as [HB|(d & Hd & Hne)];
          [exists []; by left | exists d; by right]. }
      destruct Hd' as [d Hd'].
      eexists. by apply (get_batch_closed_gen buckets batch_size rnd data
                           bucket_id E D d).
  - intros Hno.
    destruct (buckets !! bucket_id) as [[E D]|] eqn:Hb.
    + apply (get_batch_first_draw _ _ _ _ _ E D Hb).
      * destruct batch_size; [|lia]. exfalso.
        eapply Hno.
        apply (get_batch_closed_gen buckets 0 rnd data bucket_id E D []);
          [done | by left].
      * intros d Hd. destruct d as [|ex d]; [done|]. exfalso.
        eapply Hno.
        apply (get_batch_closed_gen buckets batch_size rnd data bucket_id
                 E D (ex :: d)); [done | by right].
    + unfold nmt_model.get_batch, index. by rewrite Hb.
Qed.

Lemma get_batch_rows (buckets : list bucket) (batch_size : nat)
    (rnd : nat -> nat) (data : list (list example))
    (bucket_id encoder_size decoder_size : nat) (batch : nmt_model.batch) :
  buckets !! bucket_id = Some (encoder_size, decoder_size) ->
  nmt_model.get_batch buckets batch_size rnd data bucket_id = Ok batch ->
  (length (nmt_model.batch_encoder_inputs batch) = encoder_size /\
   Forall (fun row => length row = batch_size)
          (nmt_model.batch_encoder_inputs batch)) /\
  (length (nmt_model.batch_encoder_inputs_r batch) = encoder_size /\
   Forall (fun row => length row = batch_size)
          (nmt_model.batch_encoder_inputs_r batch)) /\
  (length (nmt_model.batch_decoder_inputs batch) = decoder_size /\
   Forall (fun row => length row = batch_size)
          (nmt_model.batch_decoder_inputs batch)) /\
  (length (nmt_model.batch_weights batch) = decoder_size /\
   Forall (fun row => length row = batch_size)
          (nmt_model.batch_weights batch)).
Proof.
  intros Hb Hok.
  destruct (get_batch_Ok_inv _ _ _ _ _ _ Hok) as (E & D & Hb' & Hd).
  rewrite Hb in Hb'. injection Hb' as <- <-.
  assert (Hd' : exists d, batch_size = 0
                          \/ (data !! bucket_id = Some d /\ d <> [])).
  { destruct Hd as [HB|(d & Hd & Hne)];
      [exists []; by left | exists d; by right]. }
  destruct Hd' as [d Hd'].
  rewrite (get_batch_closed_gen buckets batch_size rnd data bucket_id
             encoder_size decoder_size d Hb Hd') in Hok.
  injection Hok as <-. simpl.
  repeat split; rewrite ?length_fmap, ?xrange_length; try done;
    apply Forall_fmap, Forall_forall; intros l _; simpl;
    by rewrite !length_fmap, xrange_length.
Qed.

(** X5.  A batch built for bucket [(encoder_size, decoder_size)] has
    [encoder_size] rows of encoder inputs, as many of reversed encoder
    inputs, [decoder_size] rows of decoder inputs and as many of weights,
    and every row has [batch_size] entries. *)
Theorem get_batch_shape (buckets : list bucket) (batch_size : nat)
    (rnd : nat -> nat) (data : list (list example))
    (bucket_id encoder_size decoder_size : nat) (batch : nmt_model.batch) :
  buckets !! bucket_id = Some (encoder_size, decoder_size) ->
  nmt_model.get_batch buckets batch_size rnd data bucket_id = Ok batch ->
  (length (nmt_model.batch_encoder_inputs batch) = encoder_size /\
   Forall (fun row => length row = batch_size)
          (nmt_model.batch_encoder_inputs batch)) /\
  (length (nmt_model.batch_encoder_inputs_r batch) = encoder_size /\
   Forall (fun row => length row = batch_size)
          (nmt_model.batch_encoder_inputs_r batch)) /\
  (length (nmt_model.batch_decoder_inputs batch) = decoder_size /\
   Forall (fun row => length row = batch_size)
          (nmt_model.batch_decoder_inputs batch)) /\
  (length (nmt_model.batch_weights batch) = decoder_size /\
   Forall (fun row => length row = batch_size)
          (nmt_model.batch_weights batch)).
Proof. apply get_batch_rows. Qed.

Lemma get_batch_shape_witness :
  (length [[1]; [2]; [0]; [0]; [0]]%Z = 5 /\
   Forall (fun row => length row = 1) [[1]; [2]; [0]; [0]; [0]]%Z) /\
  (length [[2]; [1]; [0]; [0]; [0]]%Z = 5 /\
   Forall (fun row => length row = 1) [[2]; [1]; [0]; [0]; [0]]%Z) /\
  (length [[1]; [3]; [4]; [2]; [0]; [0]; [0]; [0]; [0]; [0]]%Z = 10 /\
   Forall (fun row => length row = 1)
          [[1]; [3]; [4]; [2]; [0]; [0]; [0]; [0]; [0]; [0]]%Z) /\
  (length [[1]; [1]; [1]; [0]; [0]; [0]; [0]; [0]; [0]; [0]]%Q = 10 /\
   Forall (fun row => length row = 1)
          [[1]; [1]; [1]; [0]; [0]; [0]; [0]; [0]; [0]; [0]]%Q).
Proof.
  apply (get_batch_shape [(5, 10)] 1 (fun _ => 0)
           [[([1; 2], [2; 1], [3; 4; 2])]]%Z 0 5 10
           (nmt_model.Batch
              [[1]; [2]; [0]; [0]; [0]]%Z
              [[2]; [1]; [0]; [0]; [0]]%Z
              [[1]; [3]; [4]; [2]; [0]; [0]; [0]; [0]; [0]; [0]]%Z
              [[1]; [1]; [1]; [0]; [0]; [0]; [0]; [0]; [0]; [0]]%Q)).
  - reflexivity.
  - reflexivity.
Defined.

Lemma take_line_lookup (line : sentence) n t :
  n <= length line ->
  (if bool_decide (t < n) then Some (nth t line 0%Z) else None)
  = take n line !! t.
Proof.
  intros Hn. case_bool_decide.
  - rewrite lookup_take_lt by done. symmetry. apply lookup_nth_lt. lia.
  - symmetry. apply lookup_ge_None_2. rewrite length_take. lia.
Qed.

(** The entries of the three integer arrays of a batch, read off the
    padded lines of the drawn examples. *)
Lemma get_batch_cells (buckets : list bucket) (batch_size : nat)
    (rnd : nat -> nat) (data : list (list example))
    (bucket_id encoder_size decoder_size : nat) (d : list example) :
  buckets !! bucket_id = Some (encoder_size, decoder_size) ->
  data !! bucket_id = Some d ->
  d <> [] ->
  exists batch,
    nmt_model.get_batch buckets batch_size rnd data bucket_id = Ok batch /\
    forall b source source_r target,
      b < batch_size ->
      d !! (rnd b mod length d) = Some (source, source_r, target) ->
      (forall t,
         nmt_model.cell (nmt_model.batch_encoder_inputs batch) t b
         = take encoder_size (nmt_model.encoder_line encoder_size source) !! t) /\
      (forall t,
         nmt_model.cell (nmt_model.batch_encoder_inputs_r batch) t b
         = take encoder_size
             (nmt_model.encoder_line encoder_size source_r) !! t) /\
      (forall t,
         nmt_model.cell (nmt_model.batch_decoder_inputs batch) t b
         = take decoder_size
             (nmt_model.decoder_line decoder_size target) !! t) /\
      (forall t, t < decoder_size ->
         nmt_model.cell (nmt_model.batch_weights batch) t b
         = Some (if bool_decide (t = decoder_size - 1) then 0%Q
                 else if bool_decide
                           (nth (t + 1)
                                (nmt_model.decoder_line decoder_size target)
                                0%Z = data_utils.PAD_ID)
                 then 0%Q else 1%Q)).
Proof.
  intros Hb Hd Hne. eexists. split.
  { by apply (get_batch_closed buckets batch_size rnd data bucket_id
                encoder_size decoder_size d). }
  cbn [nmt_model.batch_encoder_inputs nmt_model.batch_encoder_inputs_r
       nmt_model.batch_decoder_inputs nmt_model.batch_weights].
  intros b source source_r target Hbb Hex.
  assert (Hdr : nmt_model.drawn rnd d b = (source, source_r, target)).
  { unfold nmt_model.drawn. by rewrite (nth_lookup_Some _ _ _ _ Hex). }
  assert (Hcell : forall (f : example -> sentence) n t,
    n <= length (f (source, source_r, target)) ->
    nmt_model.cell
      ((fun l => (fun row => nth l row 0%Z)
                   <$> ((fun j => f (nmt_model.drawn rnd d j))
                          <$> xrange batch_size)) <$> xrange n) t b
    = take n (f (source, source_r, target)) !! t).
  { intros f n t Hn. rewrite <- take_line_lookup by done.
    case_bool_decide as Ht.
    - rewrite cell_fmap_xrange by done.
      rewrite list_lookup_fmap, xrange_lookup by done.
      cbn [fmap option_fmap option_map]. by rewrite Hdr.
    - apply cell_ge. rewrite length_fmap, xrange_length. lia. }
  split; [|split; [|split]].
  - intros t.
    apply (Hcell (fun ex => nmt_model.encoder_line encoder_size ex.1.1)).
    apply encoder_line_length.
  - intros t.
    apply (Hcell (fun ex => nmt_model.encoder_line encoder_size ex.1.2)).
    apply encoder_line_length.
  - intros t.
    apply (Hcell (fun ex => nmt_model.decoder_line decoder_size ex.2)).
    apply decoder_line_length.
  - intros t Ht. unfold nmt_model.cell.
    rewrite list_lookup_fmap, xrange_lookup by done.
    cbn [fmap option_fmap option_map mbind option_bind].
    rewrite list_lookup_fmap, xrange_lookup by done.
    cbn [fmap option_fmap option_map]. f_equal.
    unfold nmt_model.weight_of.
    assert (Hrow : ((fun j => nmt_model.decoder_line decoder_size
                                (nmt_model.drawn rnd d j).2)
                      <$> xrange batch_size) !! b
                   = Some (nmt_model.decoder_line decoder_size target)).
    { rewrite list_lookup_fmap, xrange_lookup by done.
      cbn [fmap option_fmap option_map]. by rewrite Hdr. }
    by rewrite (nth_lookup_Some _ b [] _ Hrow).
Qed.

(** X6.  In a batch built from bucket [(encoder_size, decoder_size)], the
    encoder inputs of example [b] are the first [encoder_size] positions of
    its source followed by the padding that fills it up to [encoder_size],
    and its reversed encoder inputs are the same for the stored reversed
    source: the padding follows the reversed sentence, it is not reversed
    with it. *)
Theorem get_batch_encoder_inputs (buckets : list bucket) (batch_size : nat)
    (rnd : nat -> nat) (data : list (list example))
    (bucket_id encoder_size decoder_size : nat) (d : list example) :
  buckets !! bucket_id = Some (encoder_size, decoder_size) ->
  data !! bucket_id = Some d ->
  d <> [] ->
  exists batch,
    nmt_model.get_batch buckets batch_size rnd data bucket_id = Ok batch /\
    forall b source source_r target,
      b < batch_size ->
      d !! (rnd b mod length d) = Some (source, source_r, target) ->
      (forall t,
         nmt_model.cell (nmt_model.batch_encoder_inputs batch) t b
         = take encoder_size
             (source ++ replicate (encoder_size - length source)
                                  data_utils.PAD_ID) !! t) /\
      (forall t,
         nmt_model.cell (nmt_model.batch_encoder_inputs_r batch) t b
         = take encoder_size
             (source_r ++ replicate (encoder_size - length source_r)
                                    data_utils.PAD_ID) !! t).
Proof.
  intros Hb Hd Hne.
  destruct (get_batch_cells buckets batch_size rnd data bucket_id
              encoder_size decoder_size d Hb Hd Hne) as (batch & Hok & Hcells).
  exists batch. split; [done|].
  intros b source source_r target Hbb Hex.
  destruct (Hcells b source source_r target Hbb Hex) as (He & Her & _).
  assert (Hline : forall x : sentence,
    nmt_model.encoder_line encoder_size x
    = x ++ replicate (encoder_size - length x) data_utils.PAD_ID).
  { intros x. unfold nmt_model.encoder_line, nmt_model.py_repeat.
    do 2 f_equal. lia. }
  rewrite <- !Hline. done.
Qed.

Lemma get_batch_encoder_inputs_witness :
  exists batch,
    nmt_model.get_batch [(2, 3)] 1 (fun _ => 0) [[([5], [5], [7; 2])]]%Z 0
    = Ok batch /\
    forall b source source_r target,
      b < 1 ->
      [([5], [5], [7; 2])]%Z !! (0 mod 1) = Some (source, source_r, target) ->
      (forall t,
         nmt_model.cell (nmt_model.batch_encoder_inputs batch) t b
         = take 2 (source ++ replicate (2 - length source)
                                       data_utils.PAD_ID) !! t) /\
      (forall t,
         nmt_model.cell (nmt_model.batch_encoder_inputs_r batch) t b
         = take 2 (source_r ++ replicate (2 - length source_r)
                                         data_utils.PAD_ID) !! t).
Proof.
  apply (get_batch_encoder_inputs [(2, 3)] 1 (fun _ => 0)
           [[([5], [5], [7; 2])]]%Z 0 2 3 [([5], [5], [7; 2])]%Z).
  - reflexivity.
  - reflexivity.
  - discriminate.
Defined.

(** X7.  [read_data] and [get_batch] fit together: in a batch built from
    a bucket that [read_data] filled, nothing is cut.  The column of a
    drawn example holds its whole source followed by padding, its whole
    reversed source followed by padding, and the GO id, its whole target
    with the end-of-sequence id and then padding; the three lines have
    exactly the lengths of the bucket. *)
Theorem read_data_get_batch (buckets : list bucket)
    (source_file target_file : list sentence) (max_size : option Z)
    (batch_size : nat) (rnd : nat -> nat)
    (bucket_id encoder_size decoder_size : nat) (d : list example) :
  buckets !! bucket_id = Some (encoder_size, decoder_size) ->
  translate.read_data buckets source_file target_file max_size !! bucket_id
  = Some d ->
  d <> [] ->
  exists batch,
    nmt_model.get_batch buckets batch_size rnd
      (translate.read_data buckets source_file target_file max_size) bucket_id
    = Ok batch /\
    forall b source source_r target,
      b < batch_size ->
      d !! (rnd b mod length d) = Some (source, source_r, target) ->
      let pad n := replicate n data_utils.PAD_ID in
      (forall t,
         nmt_model.cell (nmt_model.batch_encoder_inputs batch) t b
         = (source ++ pad (encoder_size - length source)) !! t) /\
      (forall t,
         nmt_model.cell (nmt_model.batch_encoder_inputs_r batch) t b
         = (reverse source ++ pad (encoder_size - length source)) !! t) /\
      (forall t,
         nmt_model.cell (nmt_model.batch_decoder_inputs batch) t b
         = ([data_utils.GO_ID] ++ target
            ++ pad (decoder_size - length target - 1)) !! t) /\
      length (source ++ pad (encoder_size - length source)) = encoder_size /\
      length ([data_utils.GO_ID] ++ target
              ++ pad (decoder_size - length target - 1)) = decoder_size.
Proof.
  intros Hb Hd Hne.
  destruct (get_batch_cells buckets batch_size rnd _ bucket_id
              encoder_size decoder_size d Hb Hd Hne) as (batch & Hok & Hcells).
  exists batch. split; [done|].
  intros b source source_r target Hbb Hex pad.
  destruct (Hcells b source source_r target Hbb Hex) as (He & Her & Hdc & _).
  assert (Hin : (source, source_r, target) ∈ d)
    by (by eapply list_elem_of_lookup_2).
  destruct (read_data_stored _ _ _ _ _ _ _ Hd Hin)
    as (s & t0 & _ & [= -> -> ->] & Hff).
  apply first_fit_true in Hff as [Hfit _]. simpl in Hfit.
  unfold translate.fits in Hfit. rewrite Hb in Hfit.
  apply andb_true_iff in Hfit as [H1 H2].
  apply bool_decide_eq_true in H1, H2.
  assert (Hl1 : forall x : sentence, length x < encoder_size ->
    nmt_model.encoder_line encoder_size x
    = x ++ pad (encoder_size - length x) /\
    take encoder_size (nmt_model.encoder_line encoder_size x)
    = x ++ pad (encoder_size - length x) /\
    length (x ++ pad (encoder_size - length x)) = encoder_size).
  { intros x Hx.
    assert (Heq : nmt_model.encoder_line encoder_size x
                  = x ++ pad (encoder_size - length x)).
    { unfold nmt_model.encoder_line, nmt_model.py_repeat, pad.
      do 2 f_equal. lia. }
    assert (Hlen : length (x ++ pad (encoder_size - length x)) = encoder_size).
    { unfold pad. rewrite length_app, length_replicate. lia. }
    split; [done|]. split; [|done].
    rewrite Heq. rewrite <- Hlen at 1. apply firstn_all. }
  destruct (Hl1 s H1) as (_ & Hs & Hslen).
  destruct (Hl1 (reverse s)) as (_ & Hr & _); [by rewrite length_reverse|].
  rewrite length_reverse in Hr.
  set (tg := t0 ++ [data_utils.EOS_ID]) in *.
  assert (Htl : length tg + 1 <= decoder_size).
  { unfold tg. rewrite length_app. simpl. lia. }
  assert (Hdl : nmt_model.decoder_line decoder_size tg
                = [data_utils.GO_ID] ++ tg
                  ++ pad (decoder_size - length tg - 1)).
  { unfold nmt_model.decoder_line, nmt_model.py_repeat, pad.
    do 3 f_equal. lia. }
  assert (Hdlen : length ([data_utils.GO_ID] ++ tg
                          ++ pad (decoder_size - length tg - 1))
                  = decoder_size).
  { unfold pad. simpl. rewrite length_app, length_replicate. lia. }
  split; [|split; [|split; [|split]]].
  - intros t. by rewrite He, Hs.
  - intros t. by rewrite Her, Hr.
  - intros t. rewrite Hdc, Hdl. rewrite <- Hdlen at 1.
    by rewrite firstn_all.
  - done.
  - done.
Qed.

Lemma read_data_get_batch_witness :
  exists batch,
    nmt_model.get_batch translate._buckets 2 (fun j => j)
      (translate.read_data translate._buckets
         [[1; 2]; [5]]%Z [[3; 4]; [6]]%Z None) 0
    = Ok batch /\
    forall b source source_r target,
      b < 2 ->
      [([1; 2], [2; 1], [3; 4; 2]); ([5], [5], [6; 2])]%Z
        !! (b mod length [([1; 2], [2; 1], [3; 4; 2]); ([5], [5], [6; 2])]%Z)
      = Some (source, source_r, target) ->
      let pad n := replicate n data_utils.PAD_ID in
      (forall t,
         nmt_model.cell (nmt_model.batch_encoder_inputs batch) t b
         = (source ++ pad (5 - length source)) !! t) /\
      (forall t,
         nmt_model.cell (nmt_model.batch_encoder_inputs_r batch) t b
         = (reverse source ++ pad (5 - length source)) !! t) /\
      (forall t,
         nmt_model.cell (nmt_model.batch_decoder_inputs batch) t b
         = ([data_utils.GO_ID] ++ target
            ++ pad (10 - length target - 1)) !! t) /\
      length (source ++ pad (5 - length source)) = 5 /\
      length ([data_utils.GO_ID] ++ target
              ++ pad (10 - length target - 1)) = 10.
Proof.
  apply (read_data_get_batch translate._buckets
           [[1; 2]; [5]]%Z [[3; 4]; [6]]%Z None 2 (fun j => j) 0 5 10
           [([1; 2], [2; 1], [3; 4; 2]); ([5], [5], [6; 2])]%Z).
  - reflexivity.
  - reflexivity.
  - discriminate.
Defined.

(** X8.  The weights of a batch mask the padding and nothing else: for a
    drawn target that fits the bucket and holds no padding id, the weight
    at position [t] is 1.0 when [t] is below the length of the target and
    0.0 from there on. *)
Theorem get_batch_weights_mask (buckets : list bucket) (batch_size : nat)
    (rnd : nat -> nat) (data : list (list example))
    (bucket_id encoder_size decoder_size : nat) (d : list example) :
  buckets !! bucket_id = Some (encoder_size, decoder_size) ->
  data !! bucket_id = Some d ->
  d <> [] ->
  exists batch,
    nmt_model.get_batch buckets batch_size rnd data bucket_id = Ok batch /\
    forall b source source_r target t,
      b < batch_size ->
      d !! (rnd b mod length d) = Some (source, source_r, target) ->
      length target + 1 <= decoder_size ->
      data_utils.PAD_ID ∉ target ->
      t < decoder_size ->
      nmt_model.cell (nmt_model.batch_weights batch) t b
      = Some (if bool_decide (t < length target) then 1%Q else 0%Q).
Proof.
  intros Hb Hd Hne.
  destruct (get_batch_cells buckets batch_size rnd data bucket_id
              encoder_size decoder_size d Hb Hd Hne) as (batch & Hok & Hcells).
  exists batch. split; [done|].
  intros b source source_r target t Hbb Hex Hfit Hpad Ht.
  destruct (Hcells b source source_r target Hbb Hex) as (_ & _ & _ & Hw).
  rewrite Hw by done. f_equal.
  assert (Hdl : nmt_model.decoder_line decoder_size target
                = [data_utils.GO_ID] ++ target
                  ++ replicate (decoder_size - length target - 1)
                               data_utils.PAD_ID).
  { unfold nmt_model.decoder_line, nmt_model.py_repeat. do 3 f_equal. lia. }
  rewrite Hdl.
  replace (t + 1) with (S t) by lia. cbn [app nth].
  destruct (decide (t < length target)) as [Hlt|Hge].
  - rewrite (bool_decide_true (t < _)) by done.
    rewrite bool_decide_false by lia.
    rewrite app_nth1 by done.
    rewrite bool_decide_false; [done|].
    intros Heq. apply Hpad. rewrite <- Heq.
    apply list_elem_of_In, nth_In. done.
  - rewrite (bool_decide_false (t < _)) by done.
    case_bool_decide; [done|].
    rewrite app_nth2 by lia.
    rewrite bool_decide_true; [done|].
    apply nth_lookup_Some. apply lookup_replicate_2. lia.
Qed.

Lemma get_batch_weights_mask_witness :
  exists batch,
    nmt_model.get_batch [(2, 3)] 1 (fun _ => 0) [[([5], [5], [7; 2])]]%Z 0
    = Ok batch /\
    forall b source source_r target t,
      b < 1 ->
      [([5], [5], [7; 2])]%Z !! (0 mod 1) = Some (source, source_r, target) ->
      length target + 1 <= 3 ->
      data_utils.PAD_ID ∉ target ->
      t < 3 ->
      nmt_model.cell (nmt_model.batch_weights batch) t b
      = Some (if bool_decide (t < length target) then 1%Q else 0%Q).
Proof.
  apply (get_batch_weights_mask [(2, 3)] 1 (fun _ => 0)
           [[([5], [5], [7; 2])]]%Z 0 2 3 [([5], [5], [7; 2])]%Z).
  - reflexivity.
  - reflexivity.
  - discriminate.
Defined.

(** ** step *)

(** The decimal form of a number does not begin with an underscore. *)
Lemma pretty_N_go_no_underscore (x : N) (s : string) :
  (forall t, s <> String "_"%char t) ->
  forall t, pretty_N_go x s <> String "_"%char t.
Proof.
  revert s. induction (N.lt_wf_0 x) as [x _ IH]; intros s Hs.
  destruct (decide (0 < x)%N) as [Hx|Hx].
  - rewrite pretty_N_go_step by done. apply IH.
    + by apply N.div_lt.
    + intros t [= Hc _]. revert Hc. unfold pretty_N_char.
      by repeat case_match.
  - replace x with 0%N by lia. by rewrite pretty_N_go_0.
Qed.

Lemma pretty_nat_no_underscore (i : nat) (t : string) :
  pretty i <> String "_"%char t.
Proof.
  unfold pretty, pretty_nat, pretty, pretty_N.
  case_decide; [done|]. by apply pretty_N_go_no_underscore.
Qed.

Lemma encoder_name_inj : Inj (=) (=) (fun i : nat => "encoder" +:+ pretty i).
Proof. intros i j H. simpl in H. injection H as H. by apply (inj pretty). Qed.

Lemma encoder_r_name_inj :
  Inj (=) (=) (fun i : nat => "encoder_r" +:+ pretty i).
Proof. intros i j H. simpl in H. injection H as H. by apply (inj pretty). Qed.

Lemma weight_name_inj : Inj (=) (=) (fun i : nat => "weight" +:+ pretty i).
Proof. intros i j H. simpl in H. injection H as H. by apply (inj pretty). Qed.

Lemma encoder_name_ne_r (i j : nat) :
  "encoder" +:+ pretty i <> "encoder_r" +:+ pretty j.
Proof.
  simpl. intros H. injection H as H.
  by apply pretty_nat_no_underscore in H.
Qed.

Lemma for_each_app {A S} (body : S -> A -> result S) xs ys acc :
  for_each body (xs ++ ys) acc = for_each body xs acc ≫= for_each body ys.
Proof.
  revert acc. induction xs as [|x xs IH]; intros acc; simpl; [done|].
  destruct (body acc x) as [acc'|e]; simpl; [apply IH | done].
Qed.

Lemma xrange_app n m : xrange (n + m) = xrange n ++ ((fun i => n + i) <$> xrange m).
Proof.
  unfold xrange. rewrite seq_app. f_equal.
  change (fun i => n + i) with (Nat.add n).
  rewrite fmap_add_seq. f_equal; lia.
Qed.

Lemma xrange_cons n : xrange (S n) = 0 :: (S <$> xrange n).
Proof. unfold xrange. simpl. by rewrite fmap_S_seq. Qed.

Section feeds_more.

Import nmt_model.

(** One loop of [feed]s, with what it leaves at the placeholders it
    feeds. *)
Lemma feed_loop_lookup {A} (f : nat -> string) N (wrap : A -> feed_value)
    (values : list A) n (m : gmap string feed_value) :
  Inj (=) (=) f ->
  n <= N -> n <= length values ->
  exists m',
    for_each (feed (f <$> xrange N) wrap values) (xrange n) m = Ok m' /\
    (forall k, (forall l, l < n -> f l <> k) -> m' !! k = m !! k) /\
    (forall l, l < n -> m' !! f l = wrap <$> values !! l).
Proof.
  intros Hinj HN Hv. induction n as [|n IH].
  - exists m. split; [done|]. split; [done|]. intros l Hl. lia.
  - destruct IH as (m' & Hm' & Hk & Hl); [lia | lia |].
    rewrite xrange_S, for_each_snoc, Hm', ret_bind. unfold feed.
    assert (Hname : index (f <$> xrange N) n = Ok (f n)).
    { apply index_Ok. by rewrite list_lookup_fmap, xrange_lookup by lia. }
    destruct (index_lt values n) as (v & Hv' & Hv''); [lia|].
    rewrite Hname, ret_bind, Hv', ret_bind. eexists. split; [done|]. split.
    + intros k Hne. rewrite lookup_insert_ne by (apply Hne; lia).
      apply Hk. intros l Hl'. apply Hne. lia.
    + intros l Hl'. destruct (decide (l = n)) as [->|Hne].
      * by rewrite lookup_insert_eq, Hv''.
      * rewrite lookup_insert_ne by (intros Heq; apply Hinj in Heq; lia).
        apply Hl. lia.
Qed.

(** The loop over the decoder positions, with what it leaves at the
    weight placeholders. *)
Lemma decoder_feed_loop_weights (f g : nat -> string) N
    (dec : list (list Z)) (tw : list (list Q)) n
    (m : gmap string feed_value) :
  Inj (=) (=) g -> (forall l l', f l <> g l') ->
  n <= N -> n <= length dec -> n <= length tw ->
  exists m',
    for_each
      (fun m l =>
         m ← feed (f <$> xrange N) IntVec dec m l;
         feed (g <$> xrange N) FloatVec tw m l)
      (xrange n) m = Ok m' /\
    (forall l, l < n -> m' !! g l = FloatVec <$> tw !! l).
Proof.
  intros Hinj Hfg HN Hd Ht. induction n as [|n IH].
  - exists m. split; [done|]. intros l Hl. lia.
  - destruct IH as (m' & Hm' & Hl); [lia | lia | lia |].
    rewrite xrange_S, for_each_snoc, Hm', ret_bind. unfold feed.
    assert (Hf : index (f <$> xrange N) n = Ok (f n)).
    { apply index_Ok. by rewrite list_lookup_fmap, xrange_lookup by lia. }
    assert (Hg : index (g <$> xrange N) n = Ok (g n)).
    { apply index_Ok. by rewrite list_lookup_fmap, xrange_lookup by lia. }
    destruct (index_lt dec n) as (v & Hv & _); [lia|].
    destruct (index_lt tw n) as (w & Hw & Hw'); [lia|].
    rewrite Hf, ret_bind, Hv, !ret_bind, Hg, ret_bind, Hw, ret_bind.
    eexists. split; [done|].
    intros l Hl'. destruct (decide (l = n)) as [->|Hne].
    + by rewrite lookup_insert_eq, Hw'.
    + rewrite lookup_insert_ne by (intros Heq; apply Hinj in Heq; lia).
      rewrite lookup_insert_ne by apply Hfg.
      apply Hl. lia.
Qed.

(** A loop of [feed]s that runs out of values raises [IndexError]. *)
Lemma feed_loop_short {A} (f : nat -> string) N (wrap : A -> feed_value)
    (values : list A) n (m : gmap string feed_value) :
  n <= N -> length values < n ->
  for_each (feed (f <$> xrange N) wrap values) (xrange n) m
  = Raise IndexError.
Proof.
  intros HN Hshort.
  replace n with (length values + S (n - length values - 1)) by lia.
  rewrite xrange_app, for_each_app.
  destruct (feed_loop f N wrap values (length values) m) as (m' & -> & _);
    [lia | lia |].
  rewrite ret_bind.
  assert (Hfail : forall m0 : gmap string feed_value,
    feed (f <$> xrange N) wrap values m0 (length values + 0)
    = Raise IndexError).
  { intros m0. unfold feed.
    assert (Hname : index (f <$> xrange N) (length values + 0)
                    = Ok (f (length values + 0))).
    { apply index_Ok. by rewrite list_lookup_fmap, xrange_lookup by lia. }
    rewrite Hname, ret_bind. unfold index.
    rewrite lookup_ge_None_2 by lia. done. }
  rewrite xrange_cons, fmap_cons, for_each_cons.
  by rewrite Hfail.
Qed.

End feeds_more.

Lemma init_Ok_inv (bs : list bucket) (B : nat) (self : nmt_model.NMTModel) :
  nmt_model.init bs B = Ok self ->
  exists last_E last_D,
    last bs = Some (last_E, last_D) /\
    self = {| nmt_model.buckets := bs; nmt_model.batch_size := B;
              nmt_model.encoder_inputs :=
                (fun i => "encoder" +:+ pretty i) <$> xrange last_E;
              nmt_model.encoder_inputs_r :=
                (fun i => "encoder_r" +:+ pretty i) <$> xrange last_E;
              nmt_model.decoder_inputs :=
                (fun i => "decoder" +:+ pretty i) <$> xrange (last_D + 1);
              nmt_model.target_weights :=
                (fun i => "weight" +:+ pretty i) <$> xrange (last_D + 1) |}.
Proof.
  unfold nmt_model.init. intros Hinit.
  apply bind_Ok in Hinit as ([last_E last_D] & Hlast & Hself).
  injection Hself as <-. unfold index_last in Hlast.
  destruct (last bs) as [[le ld]|] eqn:Hl; [|done].
  injection Hlast as -> ->. by exists last_E, last_D.
Qed.

(** The feeds of a call whose lengths match, entry by entry. *)
Lemma step_feeds_contents (bs : list bucket) (B : nat)
    (self : nmt_model.NMTModel)
    (enc enc_r dec : list (list Z)) (tw : list (list Q))
    (bucket_id E D last_E last_D : nat) (forward_only : bool) :
  nmt_model.init bs B = Ok self ->
  bs !! bucket_id = Some (E, D) ->
  last bs = Some (last_E, last_D) ->
  E <= last_E -> D <= last_D ->
  length enc = E -> length dec = D -> length tw = D ->
  E <= length enc_r ->
  exists input_feed,
    nmt_model.step_feeds self enc enc_r dec tw bucket_id forward_only
    = Ok (if forward_only
          then nmt_model.losses bucket_id
               :: (nmt_model.outputs bucket_id <$> xrange D)
          else [nmt_model.updates bucket_id;
                nmt_model.gradient_norms bucket_id;
                nmt_model.losses bucket_id],
          input_feed) /\
    (forall l, l < E ->
       input_feed !! ("encoder" +:+ pretty l)
       = nmt_model.IntVec <$> enc !! l) /\
    (forall l, l < E ->
       input_feed !! ("encoder_r" +:+ pretty l)
       = nmt_model.IntVec <$> enc_r !! l) /\
    (forall l, l < D ->
       input_feed !! ("decoder" +:+ pretty l)
       = nmt_model.IntVec <$> dec !! l) /\
    (forall l, l < D ->
       input_feed !! ("weight" +:+ pretty l)
       = nmt_model.FloatVec <$> tw !! l) /\
    input_feed !! ("decoder" +:+ pretty D)
    = Some (nmt_model.IntVec (replicate B 0%Z)) /\
    (forall k,
       (forall l, l < E -> k <> "encoder" +:+ pretty l
                           /\ k <> "encoder_r" +:+ pretty l) ->
       (forall l, l < D -> k <> "weight" +:+ pretty l) ->
       (forall l, l <= D -> k <> "decoder" +:+ pretty l) ->
       input_feed !! k = None).
Proof.
  intros Hinit Hbucket Hlast HE HD He Hd Ht Her.
  destruct (init_Ok_inv _ _ _ Hinit) as (lE & lD & Hlast' & ->).
  rewrite Hlast in Hlast'. injection Hlast' as <- <-.
  unfold nmt_model.step_feeds.
  cbn [nmt_model.buckets nmt_model.encoder_inputs nmt_model.encoder_inputs_r
       nmt_model.decoder_inputs nmt_model.target_weights
       nmt_model.batch_size].
  rewrite (proj2 (index_Ok _ _ _) Hbucket), ret_bind.
  rewrite !bool_decide_false by lia.
  destruct (feed_loop_lookup (fun i => "encoder" +:+ pretty i) last_E
              nmt_model.IntVec enc E ∅ encoder_name_inj)
    as (m1 & -> & H1o & H1); [lia | lia |].
  rewrite ret_bind.
  destruct (feed_loop_lookup (fun i => "encoder_r" +:+ pretty i) last_E
              nmt_model.IntVec enc_r E m1 encoder_r_name_inj)
    as (m2 & -> & H2o & H2); [lia | lia |].
  rewrite ret_bind.
  destruct (decoder_feed_loop (fun i => "decoder" +:+ pretty i)
              (fun i => "weight" +:+ pretty i) (last_D + 1) dec tw D m2)
    as (m3 & Hm3 & H3o & H3);
    [apply decoder_name_inj | intros l l' Heq; simpl in Heq; discriminate Heq
    | lia | lia | lia |].
  destruct (decoder_feed_loop_weights (fun i => "decoder" +:+ pretty i)
              (fun i => "weight" +:+ pretty i) (last_D + 1) dec tw D m2)
    as (m3' & Hm3' & H3w);
    [apply weight_name_inj | intros l l' Heq; simpl in Heq; discriminate Heq
    | lia | lia | lia |].
  rewrite Hm3 in Hm3'. injection Hm3' as <-.
  rewrite Hm3, ret_bind.
  assert (Hlt : index ((fun i => "decoder" +:+ pretty i)
                         <$> xrange (last_D + 1)) D
                = Ok ("decoder" +:+ pretty D)).
  { apply index_Ok. by rewrite list_lookup_fmap, xrange_lookup by lia. }
  rewrite Hlt, ret_bind. eexists. split.
  { by destruct forward_only. }
  split; [|split; [|split; [|split; [|split]]]].
  - intros l Hl.
    rewrite lookup_insert_ne by (intros Heq; simpl in Heq; discriminate Heq).
    rewrite H3o by (intros l' _; split; intros Heq; simpl in Heq;
                    discriminate Heq).
    rewrite H2o by (intros l' _ Heq; symmetry in Heq;
                    by apply encoder_name_ne_r in Heq).
    by apply H1.
  - intros l Hl.
    rewrite lookup_insert_ne by (intros Heq; simpl in Heq; discriminate Heq).
    rewrite H3o by (intros l' _; split; intros Heq; simpl in Heq;
                    discriminate Heq).
    by apply H2.
  - intros l Hl.
    rewrite lookup_insert_ne
      by (intros Heq; apply decoder_name_inj in Heq; lia).
    by apply H3.
  - intros l Hl.
    rewrite lookup_insert_ne by (intros Heq; simpl in Heq; discriminate Heq).
    by apply H3w.
  - by rewrite lookup_insert_eq.
  - intros k Hk1 Hk2 Hk3.
    rewrite lookup_insert_ne by (intros Heq; by apply (Hk3 D)).
    rewrite H3o.
    2:{ intros l Hl. split; intros Heq; symmetry in Heq;
          [apply (Hk3 l) in Heq | apply (Hk2 l) in Heq]; done || lia. }
    rewrite H2o by (intros l Hl Heq; symmetry in Heq;
                    by apply (Hk1 l) in Heq).
    rewrite H1o by (intros l Hl Heq; symmetry in Heq;
                    by apply (Hk1 l) in Heq).
    done.
Qed.

(** X9.  What [step] feeds when the three checked lengths match (model
    made by [__init__], bucket within the last one, enough reversed encoder
    inputs): each encoder, reversed encoder, decoder and weight placeholder
    below the sizes of the bucket gets the caller's row of that index, the
    decoder placeholder of index [D] gets [batch_size] zeros, and no other
    placeholder is fed, the weight placeholder of index [D] included.  A
    forward-only call fetches the loss and the [D] outputs and never the
    update; a training call fetches the update, the gradient norm and the
    loss. *)
Theorem step_feed_contents (bs : list bucket) (B : nat)
    (self : nmt_model.NMTModel)
    (enc enc_r dec : list (list Z)) (tw : list (list Q))
    (bucket_id E D last_E last_D : nat) (forward_only : bool) :
  nmt_model.init bs B = Ok self ->
  bs !! bucket_id = Some (E, D) ->
  last bs = Some (last_E, last_D) ->
  E <= last_E -> D <= last_D ->
  length enc = E -> length dec = D -> length tw = D ->
  E <= length enc_r ->
  exists input_feed,
    nmt_model.step_feeds self enc enc_r dec tw bucket_id forward_only
    = Ok (if forward_only
          then nmt_model.losses bucket_id
               :: (nmt_model.outputs bucket_id <$> xrange D)
          else [nmt_model.updates bucket_id;
                nmt_model.gradient_norms bucket_id;
                nmt_model.losses bucket_id],
          input_feed) /\
    (forall l, l < E ->
       input_feed !! ("encoder" +:+ pretty l)
       = nmt_model.IntVec <$> enc !! l) /\
    (forall l, l < E ->
       input_feed !! ("encoder_r" +:+ pretty l)
       = nmt_model.IntVec <$> enc_r !! l) /\
    (forall l, l < D ->
       input_feed !! ("decoder" +:+ pretty l)
       = nmt_model.IntVec <$> dec !! l) /\
    (forall l, l < D ->
       input_feed !! ("weight" +:+ pretty l)
       = nmt_model.FloatVec <$> tw !! l) /\
    input_feed !! ("decoder" +:+ pretty D)
    = Some (nmt_model.IntVec (replicate B 0%Z)) /\
    (forall k,
       (forall l, l < E -> k <> "encoder" +:+ pretty l
                           /\ k <> "encoder_r" +:+ pretty l) ->
       (forall l, l < D -> k <> "weight" +:+ pretty l) ->
       (forall l, l <= D -> k <> "decoder" +:+ pretty l) ->
       input_feed !! k = None).
Proof. apply step_feeds_contents. Qed.

Lemma step_feed_contents_witness :
  exists self,
    nmt_model.init [(1, 1); (2, 3)] 1 = Ok self /\
    let enc := [[5]; [0]]%Z in
    let dec := [[1]; [7]; [0]]%Z in
    let tw := [[1]; [1]; [0]]%Q in
    exists input_feed,
      nmt_model.step_feeds self enc enc dec tw 1 false
      = Ok ([nmt_model.updates 1; nmt_model.gradient_norms 1;
             nmt_model.losses 1], input_feed) /\
      (forall l, l < 2 ->
         input_feed !! ("encoder" +:+ pretty l)
         = nmt_model.IntVec <$> enc !! l) /\
      (forall l, l < 2 ->
         input_feed !! ("encoder_r" +:+ pretty l)
         = nmt_model.IntVec <$> enc !! l) /\
      (forall l, l < 3 ->
         input_feed !! ("decoder" +:+ pretty l)
         = nmt_model.IntVec <$> dec !! l) /\
      (forall l, l < 3 ->
         input_feed !! ("weight" +:+ pretty l)
         = nmt_model.FloatVec <$> tw !! l) /\
      input_feed !! ("decoder" +:+ pretty 3)
      = Some (nmt_model.IntVec (replicate 1 0%Z)) /\
      (forall k,
         (forall l, l < 2 -> k <> "encoder" +:+ pretty l
                             /\ k <> "encoder_r" +:+ pretty l) ->
         (forall l, l < 3 -> k <> "weight" +:+ pretty l) ->
         (forall l, l <= 3 -> k <> "decoder" +:+ pretty l) ->
         input_feed !! k = None).
Proof.
  eexists. split; [reflexivity|].
  apply (step_feed_contents [(1, 1); (2, 3)] 1 _ [[5]; [0]]%Z [[5]; [0]]%Z
           [[1]; [7]; [0]]%Z [[1]; [1]; [0]]%Q 1 2 3 2 3 false).
  - reflexivity.
  - reflexivity.
  - reflexivity.
  - lia.
  - lia.
  - reflexivity.
  - reflexivity.
  - reflexivity.
  - simpl. lia.
Defined.

Section step_more.

Context {session value : Type}.
Variable session_run :
  session -> list nmt_model.fetch -> gmap string nmt_model.feed_value
  -> session * list value.

(** After the feeds, [step] raises nothing but [IndexError]. *)
Lemma step_after_feeds (self : nmt_model.NMTModel) (sess : session)
    enc enc_r dec tw bucket_id forward_only output_feed input_feed :
  nmt_model.step_feeds self enc enc_r dec tw bucket_id forward_only
  = Ok (output_feed, input_feed) ->
  (nmt_model.step session_run self sess enc enc_r dec tw bucket_id
                  forward_only).1
  = (session_run sess output_feed input_feed).1 /\
  index_only (nmt_model.step session_run self sess enc enc_r dec tw
                             bucket_id forward_only).2.
Proof.
  intros Hsf. unfold nmt_model.step. rewrite Hsf.
  destruct (session_run sess output_feed input_feed) as [sess' outs].
  split; [done|]. simpl. destruct forward_only.
  - apply index_only_bind; [apply index_only_index|].
    intros. apply index_only_Ok.
  - apply index_only_bind; [apply index_only_index|]. intros.
    apply index_only_bind; [apply index_only_index|]. intros.
    apply index_only_Ok.
Qed.

(** X10.  [get_batch] and [step] fit together: a batch built for a
    bucket passes the three length checks of [step] for that bucket and
    brings enough reversed encoder inputs.  For a model made by [__init__]
    with the same buckets and batch size and a bucket within the last one,
    the feeds are built, the session runs on them, and [step] does not
    raise [ValueError]. *)
Theorem get_batch_step (bs : list bucket) (B : nat)
    (self : nmt_model.NMTModel) (sess : session)
    (rnd : nat -> nat) (data : list (list example))
    (bucket_id E D last_E last_D : nat) (forward_only : bool)
    (batch : nmt_model.batch) :
  nmt_model.init bs B = Ok self ->
  bs !! bucket_id = Some (E, D) ->
  last bs = Some (last_E, last_D) ->
  E <= last_E -> D <= last_D ->
  nmt_model.get_batch bs B rnd data bucket_id = Ok batch ->
  exists output_feed input_feed,
    nmt_model.step_feeds self
      (nmt_model.batch_encoder_inputs batch)
      (nmt_model.batch_encoder_inputs_r batch)
      (nmt_model.batch_decoder_inputs batch)
      (nmt_model.batch_weights batch) bucket_id forward_only
    = Ok (output_feed, input_feed) /\
    (nmt_model.step session_run self sess
       (nmt_model.batch_encoder_inputs batch)
       (nmt_model.batch_encoder_inputs_r batch)
       (nmt_model.batch_decoder_inputs batch)
       (nmt_model.batch_weights batch) bucket_id forward_only).1
    = (session_run sess output_feed input_feed).1 /\
    (nmt_model.step session_run self sess
       (nmt_model.batch_encoder_inputs batch)
       (nmt_model.batch_encoder_inputs_r batch)
       (nmt_model.batch_decoder_inputs batch)
       (nmt_model.batch_weights batch) bucket_id forward_only).2
    <> Raise ValueError.
Proof.
  intros Hinit Hb Hlast HE HD Hgb.
  destruct (get_batch_rows _ _ _ _ _ _ _ _ Hb Hgb)
    as ([He _] & [Her _] & [Hd _] & [Hw _]).
  destruct (step_feeds_contents bs B self
              (nmt_model.batch_encoder_inputs batch)
              (nmt_model.batch_encoder_inputs_r batch)
              (nmt_model.batch_decoder_inputs batch)
              (nmt_model.batch_weights batch)
              bucket_id E D last_E last_D forward_only)
    as (input_feed & Hsf & _); try done; [lia|].
  eexists _, input_feed. split; [exact Hsf|].
  destruct (step_after_feeds self sess _ _ _ _ _ _ _ _ Hsf) as [H1 H2].
  split; [done|]. intros Hv. by apply H2 in Hv.
Qed.

(** X11.  [step] does not check the number of reversed encoder inputs:
    when the three checked lengths match and there are fewer reversed
    encoder inputs than the bucket is long, [step] raises [IndexError]
    while it builds the feed, before the session runs. *)
Theorem step_short_reversed_inputs (bs : list bucket) (B : nat)
    (self : nmt_model.NMTModel) (sess : session)
    (enc enc_r dec : list (list Z)) (tw : list (list Q))
    (bucket_id E D last_E last_D : nat) (forward_only : bool) :
  nmt_model.init bs B = Ok self ->
  bs !! bucket_id = Some (E, D) ->
  last bs = Some (last_E, last_D) ->
  E <= last_E ->
  length enc = E -> length dec = D -> length tw = D ->
  length enc_r < E ->
  nmt_model.step session_run self sess enc enc_r dec tw bucket_id forward_only
  = (sess, Raise IndexError).
Proof.
  intros Hinit Hbucket Hlast HE He Hd Ht Her.
  destruct (init_Ok_inv _ _ _ Hinit) as (lE & lD & Hlast' & ->).
  rewrite Hlast in Hlast'. injection Hlast' as <- <-.
  unfold nmt_model.step, nmt_model.step_feeds.
  cbn [nmt_model.buckets nmt_model.encoder_inputs nmt_model.encoder_inputs_r
       nmt_model.decoder_inputs nmt_model.target_weights
       nmt_model.batch_size].
  rewrite (proj2 (index_Ok _ _ _) Hbucket), ret_bind.
  rewrite !bool_decide_false by lia.
  destruct (feed_loop (fun i => "encoder" +:+ pretty i) last_E
              nmt_model.IntVec enc E ∅) as (m1 & -> & _); [lia | lia |].
  rewrite ret_bind.
  by rewrite (feed_loop_short (fun i => "encoder_r" +:+ pretty i) last_E
                nmt_model.IntVec enc_r E m1) by lia.
Qed.

End step_more.

Lemma get_batch_step_witness :
  exists self batch,
    nmt_model.init [(2, 3)] 1 = Ok self /\
    nmt_model.get_batch [(2, 3)] 1 (fun _ => 0) [[([5], [5], [7; 2])]]%Z 0
    = Ok batch /\
    let run := fun (s : nat) (_ : list nmt_model.fetch)
                   (_ : gmap string nmt_model.feed_value) => (S s, [1; 2; 3]) in
    exists output_feed input_feed,
      nmt_model.step_feeds self
        (nmt_model.batch_encoder_inputs batch)
        (nmt_model.batch_encoder_inputs_r batch)
        (nmt_model.batch_decoder_inputs batch)
        (nmt_model.batch_weights batch) 0 true
      = Ok (output_feed, input_feed) /\
      (nmt_model.step run self 0
         (nmt_model.batch_encoder_inputs batch)
         (nmt_model.batch_encoder_inputs_r batch)
         (nmt_model.batch_decoder_inputs batch)
         (nmt_model.batch_weights batch) 0 true).1
      = (run 0 output_feed input_feed).1 /\
      (nmt_model.step run self 0
         (nmt_model.batch_encoder_inputs batch)
         (nmt_model.batch_encoder_inputs_r batch)
         (nmt_model.batch_decoder_inputs batch)
         (nmt_model.batch_weights batch) 0 true).2
      <> Raise ValueError.
Proof.
  eexists _, _. split; [reflexivity|]. split; [reflexivity|].
  apply (get_batch_step (fun (s : nat) _ _ => (S s, [1; 2; 3]))
           [(2, 3)] 1 _ 0 (fun _ => 0) [[([5], [5], [7; 2])]]%Z
           0 2 3 2 3 true).
  - reflexivity.
  - reflexivity.
  - reflexivity.
  - lia.
  - lia.
  - reflexivity.
Defined.

Lemma step_short_reversed_inputs_witness :
  exists self,
    nmt_model.init [(2, 3)] 1 = Ok self /\
    nmt_model.step
      (fun (s : nat) (_ : list nmt_model.fetch)
           (_ : gmap string nmt_model.feed_value) => (S s, [1; 2; 3]))
      self 0 [[5]; [0]]%Z [[5]]%Z [[1]; [7]; [0]]%Z [[1]; [1]; [0]]%Q 0 true
    = (0, Raise IndexError).
Proof.
  eexists. split; [reflexivity|].
  apply (step_short_reversed_inputs
           (fun (s : nat) _ _ => (S s, [1; 2; 3]))
           [(2, 3)] 1 _ 0 [[5]; [0]]%Z [[5]]%Z [[1]; [7]; [0]]%Z
           [[1]; [1]; [0]]%Q 0 2 3 2 3 true).
  - reflexivity.
  - reflexivity.
  - reflexivity.
  - lia.
  - reflexivity.
  - reflexivity.
  - reflexivity.
  - simpl. lia.
Defined.

(** ** train: the scale of the buckets *)

Lemma sum_take_le (l : list nat) i j :
  i <= j -> sum_list (take i l) <= sum_list (take j l).
Proof.
  revert i j. induction l as [|x l IH]; intros i j Hij.
  - by rewrite !take_nil.
  - destruct i as [|i]; [simpl; lia|].
    destruct j as [|j]; [lia|]. simpl.
    specialize (IH i j). lia.
Qed.

Lemma sum_take_all (l : list nat) i : sum_list (take i l) <= sum_list l.
Proof.
  rewrite <- (firstn_all l) at 2.
  destruct (decide (i <= length l)); [by apply sum_take_le|].
  rewrite !firstn_all2 by lia. done.
Qed.

Lemma sum_take_S (l : list nat) i n :
  l !! i = Some n -> sum_list (take (S i) l) = sum_list (take i l) + n.
Proof.
  intros Hi. rewrite (take_S_r _ _ _ Hi), sum_list_with_app. simpl. lia.
Qed.

Section scale.

Import translate.

Variable sizes : list nat.
Hypothesis total_pos : 0 < sum_list sizes.

Local Abbreviation total := (inject_Z (Z.of_nat (sum_list sizes))).
Local Abbreviation upto i := (inject_Z (Z.of_nat (sum_list (take i sizes)))).

Lemma total_pos_Q : (0 < total)%Q.
Proof. rewrite <- (Zlt_Qlt 0). lia. Qed.

Lemma fraction_upto i : fraction sizes i = (upto (i + 1) / total)%Q.
Proof. reflexivity. Qed.

Lemma fraction_times_total i : (fraction sizes i * total == upto (i + 1))%Q.
Proof.
  rewrite fraction_upto. unfold Qdiv.
  rewrite <- Qmult_assoc, (Qmult_comm (/ total)), Qmult_inv_r, Qmult_1_r;
    [reflexivity|].
  intros H. pose proof total_pos_Q as Hp. rewrite H in Hp.
  by apply Qlt_irrefl in Hp.
Qed.

Lemma fraction_le r i : (fraction sizes i <= r)%Q <-> (upto (i + 1) <= r * total)%Q.
Proof.
  split.
  - intros H. rewrite <- fraction_times_total.
    apply Qmult_le_compat_r; [done | apply Qlt_le_weak, total_pos_Q].
  - intros H. rewrite fraction_upto.
    apply Qle_shift_div_r; [apply total_pos_Q | done].
Qed.

Lemma fraction_gt r i : (r < fraction sizes i)%Q <-> (r * total < upto (i + 1))%Q.
Proof.
  split.
  - intros H. apply Qnot_le_lt. intros Hle.
    apply fraction_le in Hle. by apply (Qlt_not_le _ _ H).
  - intros H. apply Qnot_le_lt. intros Hle.
    apply fraction_le in Hle. by apply (Qlt_not_le _ _ H).
Qed.

Lemma fraction_mono i j :
  i <= j -> (fraction sizes i <= fraction sizes j)%Q.
Proof.
  intros Hij. apply fraction_le. rewrite fraction_times_total.
  rewrite <- Zle_Qle. apply inj_le, sum_take_le. lia.
Qed.

Lemma fraction_nonneg i : (0 <= fraction sizes i)%Q.
Proof.
  rewrite fraction_upto. apply Qle_shift_div_l; [apply total_pos_Q|].
  rewrite Qmult_0_l. rewrite <- (Zle_Qle 0). lia.
Qed.

Lemma fraction_le_1 i : (fraction sizes i <= 1)%Q.
Proof.
  apply fraction_le. rewrite Qmult_1_l. rewrite <- Zle_Qle.
  apply inj_le, sum_take_all.
Qed.

Lemma fraction_step i n :
  sizes !! S i = Some n ->
  (fraction sizes (S i) - fraction sizes i
   == inject_Z (Z.of_nat n) / total)%Q.
Proof.
  intros Hn. rewrite !fraction_upto.
  replace (S i + 1) with (S (S i)) by lia.
  replace (i + 1) with (S i) by lia.
  rewrite (sum_take_S _ _ _ Hn), Nat2Z.inj_add, inject_Z_plus.
  unfold Qdiv. ring.
Qed.

Lemma fraction_first n :
  sizes !! 0 = Some n ->
  (fraction sizes 0 == inject_Z (Z.of_nat n) / total)%Q.
Proof.
  intros Hn. rewrite fraction_upto. simpl.
  rewrite (sum_take_S _ _ _ Hn). simpl. reflexivity.
Qed.

(** A random number of one or more is above the whole scale. *)
Lemma draw_bucket_above r :
  (1 <= r)%Q -> draw_bucket sizes r = Raise ValueError.
Proof.
  intros Hr. unfold draw_bucket.
  rewrite (train_buckets_scale_closed sizes total_pos), ret_bind.
  rewrite choose_bucket_closed.
  assert (Hnil : List.filter (fun i => Qgt_bool (fraction sizes i) r)
                   (xrange (length sizes)) = []).
  { induction (xrange (length sizes)) as [|i l IH]; [done|]. simpl.
    assert (Hf : Qgt_bool (fraction sizes i) r = false).
    { apply Qgt_bool_false. eapply Qle_trans; [apply fraction_le_1 | done]. }
    by rewrite Hf. }
  by rewrite Hnil.
Qed.

(** The bucket drawn, by the interval of the scale the random number
    falls in. *)
Lemma draw_bucket_iff r i :
  (0 <= r)%Q -> (r < 1)%Q ->
  draw_bucket sizes r = Ok i
  <-> i < length sizes /\
      (upto i <= r * total)%Q /\ (r * total < upto (S i))%Q.
Proof.
  intros Hr0 Hr1.
  destruct (draw_bucket_first sizes total_pos r Hr0 Hr1)
    as (i' & n & Hdraw & Hn & Hpos & Hgt & Hmin).
  assert (Hshape : forall k,
    (r < fraction sizes k)%Q ->
    (forall j, j < k -> (fraction sizes j <= r)%Q) ->
    (upto k <= r * total)%Q /\ (r * total < upto (S k))%Q).
  { intros k Hk Hj. split.
    - destruct k as [|k].
      + simpl. apply Qmult_le_0_compat;
          [done | apply Qlt_le_weak, total_pos_Q].
      + specialize (Hj k ltac:(lia)). apply fraction_le in Hj.
        by replace (k + 1) with (S k) in Hj by lia.
    - apply fraction_gt in Hk. by replace (k + 1) with (S k) in Hk by lia. }
  split.
  - intros Hi. rewrite Hdraw in Hi. injection Hi as <-.
    split; [by eapply lookup_lt_Some|]. by apply Hshape.
  - intros (Hlt & Hlo & Hhi). rewrite Hdraw. f_equal.
    destruct (Nat.lt_trichotomy i' i) as [Hc|[Hc|Hc]]; [|done|]; exfalso.
    + apply fraction_gt in Hgt.
      apply (Qlt_irrefl (r * total)).
      eapply Qlt_le_trans; [exact Hgt|].
      eapply Qle_trans; [|exact Hlo].
      rewrite <- Zle_Qle. apply inj_le, sum_take_le. lia.
    + specialize (Hmin i Hc). apply fraction_le in Hmin.
      replace (i + 1) with (S i) in Hmin by lia.
      apply (Qlt_irrefl (r * total)).
      eapply Qlt_le_trans; [exact Hhi | exact Hmin].
Qed.

End scale.

(** An empty corpus: the total is zero and the first entry of the scale
    divides by it. *)
Lemma draw_bucket_no_total (sizes : list nat) (r : Q) :
  sum_list sizes = 0 -> sizes <> [] ->
  translate.draw_bucket sizes r = Raise ZeroDivisionError.
Proof.
  intros Hz Hne. unfold translate.draw_bucket, translate.train_buckets_scale.
  rewrite Hz. destruct sizes as [|x sz]; [done|]. reflexivity.
Qed.

Lemma train_bucket_sizes_closed (buckets : list bucket)
    (train_set : list (list example)) :
  length train_set = length buckets ->
  translate.train_bucket_sizes buckets train_set = Ok (length <$> train_set).
Proof.
  intros Hlen. unfold translate.train_bucket_sizes.
  rewrite comprehension_map
    with (g := fun b => length (nth b train_set [])).
  - f_equal. apply list_eq. intros i.
    rewrite !list_lookup_fmap.
    destruct (decide (i < length train_set)) as [Hi|Hi].
    + rewrite xrange_lookup by lia. simpl.
      by rewrite (lookup_nth_lt train_set i []).
    + rewrite !lookup_ge_None_2; [done | lia | rewrite xrange_length; lia].
  - intros b Hb. apply xrange_elem in Hb.
    destruct (index_lt train_set b) as (d & -> & Hd); [lia|].
    rewrite ret_bind. by rewrite (nth_lookup_Some _ _ [] _ Hd).
Qed.

(** X12.  The scale that [train] builds from the sizes of the training
    buckets, for a training set that is not empty: it has one entry for
    each bucket, the entries lie between 0 and 1 and never decrease, the
    last one equals 1, the first one is the share of bucket 0 in the total
    and each further one exceeds the one before it by the share of its
    bucket. *)
Theorem train_buckets_scale_increasing (sizes : list nat) :
  0 < sum_list sizes ->
  exists scale,
    translate.train_buckets_scale sizes = Ok scale /\
    length scale = length sizes /\
    (forall i s, scale !! i = Some s -> (0 <= s)%Q /\ (s <= 1)%Q) /\
    (forall i j s t, i <= j -> scale !! i = Some s -> scale !! j = Some t ->
                     (s <= t)%Q) /\
    (exists s, last scale = Some s /\ (s == 1)%Q) /\
    (forall s n, scale !! 0 = Some s -> sizes !! 0 = Some n ->
       (s == inject_Z (Z.of_nat n)
             / inject_Z (Z.of_nat (sum_list sizes)))%Q) /\
    (forall i s t n,
       scale !! i = Some s -> scale !! S i = Some t -> sizes !! S i = Some n ->
       (t - s == inject_Z (Z.of_nat n)
                 / inject_Z (Z.of_nat (sum_list sizes)))%Q).
Proof.
  intros Hpos. eexists. split; [by apply train_buckets_scale_closed|].
  assert (Hlook : forall i s,
    (translate.fraction sizes <$> xrange (length sizes)) !! i = Some s ->
    i < length sizes /\ s = translate.fraction sizes i).
  { intros i s Hi. rewrite list_lookup_fmap in Hi.
    destruct (decide (i < length sizes)) as [Hlt|Hge].
    - rewrite xrange_lookup in Hi by done. by injection Hi as <-.
    - rewrite lookup_ge_None_2 in Hi; [done | rewrite xrange_length; lia]. }
  split; [by rewrite length_fmap, xrange_length|].
  split; [|split; [|split; [|split]]].
  - intros i s Hi. apply Hlook in Hi as [_ ->].
    split; [by apply fraction_nonneg | by apply fraction_le_1].
  - intros i j s t Hij Hi Hj.
    apply Hlook in Hi as [_ ->]. apply Hlook in Hj as [_ ->].
    by apply fraction_mono.
  - assert (Hlen : 0 < length sizes) by (destruct sizes; simpl in *; lia).
    exists (translate.fraction sizes (length sizes - 1)). split.
    + rewrite fmap_last.
      replace (length sizes) with (S (length sizes - 1)) at 1 by lia.
      by rewrite xrange_S, last_snoc.
    + by apply fraction_last.
  - intros s n Hs Hn. apply Hlook in Hs as [_ ->]. by apply fraction_first.
  - intros i s t n Hs Ht Hn.
    apply Hlook in Hs as [_ ->]. apply Hlook in Ht as [_ ->].
    by apply fraction_step.
Qed.

Lemma train_buckets_scale_increasing_witness :
  exists scale,
    translate.train_buckets_scale ([10; 0; 90]%nat) = Ok scale /\
    length scale = length ([10; 0; 90]%nat) /\
    (forall i s, scale !! i = Some s -> (0 <= s)%Q /\ (s <= 1)%Q) /\
    (forall i j s t, i <= j -> scale !! i = Some s -> scale !! j = Some t ->
                     (s <= t)%Q) /\
    (exists s, last scale = Some s /\ (s == 1)%Q) /\
    (forall s n, scale !! 0 = Some s -> ([10; 0; 90]%nat) !! 0 = Some n ->
       (s == inject_Z (Z.of_nat n)
             / inject_Z (Z.of_nat (sum_list ([10; 0; 90]%nat))))%Q) /\
    (forall i s t n,
       scale !! i = Some s -> scale !! S i = Some t ->
       ([10; 0; 90]%nat) !! S i = Some n ->
       (t - s == inject_Z (Z.of_nat n)
                 / inject_Z (Z.of_nat (sum_list ([10; 0; 90]%nat))))%Q).
Proof.
  apply (train_buckets_scale_increasing ([10; 0; 90]%nat)). simpl. lia.
Defined.

(** X13.  Which random numbers draw which bucket: for a training set that
    is not empty and a random number [r] in [0,1), bucket [i] is drawn
    exactly when [r] times the total lies from the number of examples in
    the buckets before [i] up to, and not including, that number plus the
    size of bucket [i].  So each bucket is drawn on an interval whose
    length is its share of the examples. *)
Theorem draw_bucket_interval (sizes : list nat) (r : Q) (i : nat) :
  0 < sum_list sizes ->
  (0 <= r)%Q -> (r < 1)%Q ->
  translate.draw_bucket sizes r = Ok i
  <-> exists n,
        sizes !! i = Some n /\
        (inject_Z (Z.of_nat (sum_list (take i sizes)))
         <= r * inject_Z (Z.of_nat (sum_list sizes)))%Q /\
        (r * inject_Z (Z.of_nat (sum_list sizes))
         < inject_Z (Z.of_nat (sum_list (take i sizes) + n)))%Q.
Proof.
  intros Hpos Hr0 Hr1. rewrite (draw_bucket_iff sizes Hpos r i Hr0 Hr1).
  split.
  - intros (Hi & Hlo & Hhi).
    destruct (lookup_lt_is_Some_2 sizes i Hi) as [n Hn].
    exists n. rewrite <- (sum_take_S _ _ _ Hn). done.
  - intros (n & Hn & Hlo & Hhi).
    split; [by eapply lookup_lt_Some|].
    rewrite (sum_take_S _ _ _ Hn). done.
Qed.

Lemma draw_bucket_interval_witness :
  translate.draw_bucket ([10; 0; 90]%nat) (1 # 2) = Ok 2
  <-> exists n,
        ([10; 0; 90]%nat) !! 2 = Some n /\
        (inject_Z (Z.of_nat (sum_list (take 2 ([10; 0; 90]%nat))))
         <= (1 # 2) * inject_Z (Z.of_nat (sum_list ([10; 0; 90]%nat))))%Q /\
        ((1 # 2) * inject_Z (Z.of_nat (sum_list ([10; 0; 90]%nat)))
         < inject_Z (Z.of_nat (sum_list (take 2 ([10; 0; 90]%nat)) + n)))%Q.
Proof.
  apply (draw_bucket_interval ([10; 0; 90]%nat) (1 # 2) 2).
  - simpl. lia.
  - discriminate.
  - reflexivity.
Defined.

(** X14.  The draw of a bucket outside its intended range: a random number
    of 1 or more exceeds no entry of the scale and the minimum of the
    empty list raises [ValueError]. *)
Theorem draw_bucket_random_one (sizes : list nat) (r : Q) :
  0 < sum_list sizes ->
  (1 <= r)%Q ->
  translate.draw_bucket sizes r = Raise ValueError.
Proof. intros Hpos Hr. by apply draw_bucket_above. Qed.

Lemma draw_bucket_random_one_witness :
  translate.draw_bucket ([10; 0; 90]%nat) 1 = Raise ValueError.
Proof.
  apply (draw_bucket_random_one ([10; 0; 90]%nat) 1).
  - simpl. lia.
  - discriminate.
Defined.

(** X15.  Training on a corpus of which no pair fits a bucket: with every
    training bucket empty, [train] raises [ZeroDivisionError] when it
    divides by the total size to build the scale of the buckets, before
    any batch is built. *)
Theorem train_batch_empty_corpus (buckets : list bucket) (batch_size : nat)
    (train_set : list (list example)) (r : Q) (rnd : nat -> nat) :
  buckets <> [] ->
  length train_set = length buckets ->
  Forall (fun d => d = []) train_set ->
  translate.train_batch buckets batch_size train_set r rnd
  = Raise ZeroDivisionError.
Proof.
  intros Hne Hlen Hempty. unfold translate.train_batch.
  rewrite train_bucket_sizes_closed by done. rewrite ret_bind.
  rewrite draw_bucket_no_total; [done| |].
  - clear Hlen. induction Hempty as [|d ds -> _ IH]; [done|]. simpl. exact IH.
  - destruct train_set; [|done]. destruct buckets; [done | discriminate].
Qed.

Lemma train_batch_empty_corpus_witness :
  translate.train_batch translate._buckets 64
    (translate.read_data translate._buckets [] [] None) (1 # 2) (fun j => j)
  = Raise ZeroDivisionError.
Proof.
  apply (train_batch_empty_corpus translate._buckets 64
           (translate.read_data translate._buckets [] [] None)
           (1 # 2) (fun j => j)).
  - discriminate.
  - reflexivity.
  - simpl. repeat constructor.
Defined.

(** X16.  The first statements of a training turn on a training set that
    is not empty, for a random number in [0,1): the bucket drawn holds at
    least one example, so a batch is built from it and nothing is
    raised. *)
Theorem train_batch_draws_nonempty (buckets : list bucket) (batch_size : nat)
    (train_set : list (list example)) (r : Q) (rnd : nat -> nat) :
  length train_set = length buckets ->
  0 < sum_list (length <$> train_set) ->
  (0 <= r)%Q -> (r < 1)%Q ->
  exists bucket_id batch encoder_size decoder_size d,
    translate.train_batch buckets batch_size train_set r rnd
    = Ok (bucket_id, batch) /\
    translate.draw_bucket (length <$> train_set) r = Ok bucket_id /\
    buckets !! bucket_id = Some (encoder_size, decoder_size) /\
    train_set !! bucket_id = Some d /\ d <> [] /\
    nmt_model.get_batch buckets batch_size rnd train_set bucket_id
    = Ok batch /\
    length (nmt_model.batch_encoder_inputs batch) = encoder_size /\
    length (nmt_model.batch_decoder_inputs batch) = decoder_size.
Proof.
  intros Hlen Hpos Hr0 Hr1.
  destruct (draw_bucket_first (length <$> train_set) Hpos r Hr0 Hr1)
    as (i & n & Hdraw & Hn & Hn0 & _).
  rewrite list_lookup_fmap in Hn.
  destruct (train_set !! i) as [d|] eqn:Hd; [|done].
  simpl in Hn. injection Hn as <-.
  destruct (lookup_lt_is_Some_2 buckets i) as [[E D] Hb].
  { rewrite <- Hlen. by eapply lookup_lt_Some. }
  assert (Hne : d <> []) by (destruct d; [simpl in Hn0; lia | done]).
  destruct (get_batch_cells buckets batch_size rnd train_set i E D d
              Hb Hd Hne) as (batch & Hok & _).
  destruct (get_batch_rows _ _ _ _ _ _ _ _ Hb Hok)
    as ([He _] & _ & [Hdc _] & _).
  exists i, batch, E, D, d. unfold translate.train_batch.
  rewrite train_bucket_sizes_closed by done.
  rewrite ret_bind, Hdraw, ret_bind, Hok. done.
Qed.

Lemma train_batch_draws_nonempty_witness :
  exists bucket_id batch encoder_size decoder_size d,
    translate.train_batch translate._buckets 2
      (translate.read_data translate._buckets
         [[1; 2]; [5]]%Z [[3; 4]; [6]]%Z None) (1 # 2) (fun j => j)
    = Ok (bucket_id, batch) /\
    translate.draw_bucket
      (length <$> translate.read_data translate._buckets
                    [[1; 2]; [5]]%Z [[3; 4]; [6]]%Z None) (1 # 2)
    = Ok bucket_id /\
    translate._buckets !! bucket_id = Some (encoder_size, decoder_size) /\
    translate.read_data translate._buckets
      [[1; 2]; [5]]%Z [[3; 4]; [6]]%Z None !! bucket_id = Some d /\
    d <> [] /\
    nmt_model.get_batch translate._buckets 2 (fun j => j)
      (translate.read_data translate._buckets
         [[1; 2]; [5]]%Z [[3; 4]; [6]]%Z None) bucket_id
    = Ok batch /\
    length (nmt_model.batch_encoder_inputs batch) = encoder_size /\
    length (nmt_model.batch_decoder_inputs batch) = decoder_size.
Proof.
  apply (train_batch_draws_nonempty translate._buckets 2
           (translate.read_data translate._buckets
              [[1; 2]; [5]]%Z [[3; 4]; [6]]%Z None) (1 # 2) (fun j => j)).
  - reflexivity.
  - simpl. lia.
  - discriminate.
  - reflexivity.
Defined.

(** ** train: the loop *)

Lemma div_succ (a b : Z) :
  (0 < b)%Z ->
  ((a + 1) / b
   = a / b + (if bool_decide ((a + 1) mod b = 0) then 1 else 0))%Z.
Proof.
  intros Hb.
  pose proof (Z.div_mod a b ltac:(lia)) as Ha.
  pose proof (Z.mod_pos_bound a b Hb) as Hra.
  pose proof (Z.div_mod (a + 1) b ltac:(lia)) as Ha1.
  pose proof (Z.mod_pos_bound (a + 1) b Hb) as Hra1.
  case_bool_decide as Hm; nia.
Qed.

Lemma py_slice_from_nil {A} (start : Z) :
  translate.py_slice_from ([] : list A) start = [].
Proof. unfold translate.py_slice_from. case_bool_decide; apply drop_nil. Qed.

Section train_loop.

Import translate.

Variable FLAGS : flags.
Variable validate : Z -> result Q.

Lemma train_iteration_counters st step_loss st' stop :
  (0 < steps_per_checkpoint FLAGS)%Z ->
  train_iteration FLAGS validate st step_loss = Ok (st', stop) ->
  current_step st' = (current_step st + 1)%Z /\
  total_loss st' = (total_loss st + step_loss)%Q /\
  previous_losses st `prefix_of` previous_losses st' /\
  Z.of_nat (length (previous_losses st'))
  = (Z.of_nat (length (previous_losses st))
     + (current_step st + 1) / steps_per_checkpoint FLAGS
     - current_step st / steps_per_checkpoint FLAGS)%Z /\
  (stop = true -> (current_step st' mod steps_per_checkpoint FLAGS = 0)%Z).
Proof.
  intros Hspc Hit. rewrite (div_succ _ _ Hspc).
  destruct (train_iteration_Ok _ _ _ _ _ _ Hit)
    as (_ & _ & [[Hdue Hck]|(Hdue & -> & ->)] & _).
  - apply checkpoint_Ok in Hck as (decay & _ & _ & ->).
    rewrite bool_decide_true by done. cbn.
    split; [done|]. split; [done|]. split; [by eexists|].
    rewrite length_app. simpl. split; [lia | done].
  - rewrite bool_decide_false by done. cbn.
    split; [done|]. split; [done|]. split; [done|]. split; [lia | done].
Qed.

Lemma train_loop_counters_gen step_losses : forall st st' stop,
  (0 < steps_per_checkpoint FLAGS)%Z ->
  train_loop FLAGS validate st step_losses = Ok (st', stop) ->
  exists n,
    n <= length step_losses /\
    (stop = false -> n = length step_losses) /\
    (stop = true -> (current_step st' mod steps_per_checkpoint FLAGS = 0)%Z) /\
    current_step st' = (current_step st + Z.of_nat n)%Z /\
    total_loss st' = foldl Qplus (total_loss st) (take n step_losses) /\
    previous_losses st `prefix_of` previous_losses st' /\
    Z.of_nat (length (previous_losses st'))
    = (Z.of_nat (length (previous_losses st))
       + (current_step st + Z.of_nat n) / steps_per_checkpoint FLAGS
       - current_step st / steps_per_checkpoint FLAGS)%Z.
Proof.
  induction step_losses as [|x xs IH]; intros st st' stop Hspc Hloop.
  - injection Hloop as <- <-. exists 0. simpl. rewrite Z.add_0_r.
    split; [done|]. split; [done|]. split; [done|]. split; [done|].
    split; [done|]. split; [done | lia].
  - cbn [train_loop] in Hloop.
    apply bind_Ok in Hloop as ([st1 stop1] & Hit & Hloop).
    destruct (train_iteration_counters _ _ _ _ Hspc Hit)
      as (Hcs & Htl & Hpre & Hlen & Hstop).
    destruct stop1.
    + injection Hloop as <- <-. exists 1. simpl.
      split; [lia|]. split; [done|]. split; [done|]. split; [done|].
      split; [done|]. split; [done | lia].
    + destruct (IH _ _ _ Hspc Hloop)
        as (n & Hn & Hall & Hstop' & Hcs' & Htl' & Hpre' & Hlen').
      exists (S n). simpl.
      split; [lia|]. split; [intros H; by rewrite Hall|]. split; [done|].
      split; [lia|]. split; [by rewrite Htl', Htl|].
      split; [by etransitivity|].
      rewrite Hlen', Hlen, Hcs.
      replace (current_step st + 1 + Z.of_nat n)%Z
        with (current_step st + Z.pos (Pos.of_succ_nat n))%Z by lia.
      lia.
Qed.

(** A run that returns after the turns before the first checkpoint and
    that checkpoint: what the checkpoint block was run on. *)
Lemma train_loop_first_interval (k : nat) : forall st step_losses st' stop,
  1 <= k -> (Z.of_nat k <= steps_per_checkpoint FLAGS)%Z ->
  current_step st = (steps_per_checkpoint FLAGS - Z.of_nat k)%Z ->
  length step_losses = k ->
  train_loop FLAGS validate st step_losses = Ok (st', stop) ->
  checkpoint FLAGS
    {| loss :=
         foldl (fun a x =>
                  (a + x / inject_Z (steps_per_checkpoint FLAGS))%Q)
               (loss st) step_losses;
       current_step := steps_per_checkpoint FLAGS;
       previous_losses := previous_losses st;
       total_loss := foldl Qplus (total_loss st) step_losses;
       learning_rate := learning_rate st |}
  = Ok (st', stop).
Proof.
  induction k as [|k IH]; intros st step_losses st' stop Hk Hle Hcs Hlen Hloop;
    [lia|].
  destruct step_losses as [|x xs]; [done|].
  simpl in Hlen. cbn [train_loop foldl] in *.
  apply bind_Ok in Hloop as ([st1 stop1] & Hit & Hloop).
  destruct (train_iteration_Ok _ _ _ _ _ _ Hit)
    as (_ & _ & [[Hdue Hck]|(Hdue & -> & ->)] & _).
  - assert (Hk0 : k = 0).
    { destruct (decide (k = 0)) as [|Hne]; [done|]. exfalso.
      rewrite Z.mod_small in Hdue; lia. }
    subst k. destruct xs; [|done]. simpl.
    replace (current_step st + 1)%Z with (steps_per_checkpoint FLAGS)
      in Hck by lia.
    rewrite Hck. destruct stop1; by injection Hloop as <- <-.
  - assert (Hk0 : k <> 0).
    { intros ->. apply Hdue.
      replace (current_step st + 1)%Z with (steps_per_checkpoint FLAGS)
        by lia.
      apply Z.mod_same. lia. }
    apply (IH _ xs st' stop) in Hloop; [done | lia | lia | simpl; lia | lia].
Qed.

(** An empty history and a patience [lr_rate_patience] of zero or less:
    the run does not get past the first checkpoint. *)
Lemma train_loop_no_patience (k : nat) : forall st step_losses,
  1 <= k -> (Z.of_nat k <= steps_per_checkpoint FLAGS)%Z ->
  (lr_rate_patience FLAGS <= 0)%Z ->
  current_step st = (steps_per_checkpoint FLAGS - Z.of_nat k)%Z ->
  previous_losses st = [] ->
  k <= length step_losses ->
  (exists e, train_loop FLAGS validate st step_losses = Raise e) /\
  (steps_verbosity FLAGS <> 0%Z ->
   (forall s, (current_step st < s < steps_per_checkpoint FLAGS)%Z ->
      steps_per_validation FLAGS <> 0%Z /\
      ((s mod steps_per_validation FLAGS = 0)%Z ->
       exists avg_loss, validate s = Ok avg_loss)) ->
   train_loop FLAGS validate st step_losses = Raise ValueError).
Proof.
  induction k as [|k IH];
    intros st step_losses Hk Hle Hlr Hcs Hhist Hlen; [lia|].
  destruct step_losses as [|x xs]; [simpl in Hlen; lia|].
  simpl in Hlen. cbn [train_loop].
  assert (Hraise : forall loss,
    no_improvement [] (lr_rate_patience FLAGS) loss = Raise ValueError).
  { intros loss. unfold no_improvement.
    rewrite bool_decide_true by (simpl; lia).
    by rewrite py_slice_from_nil. }
  destruct (train_iteration FLAGS validate st x) as [[st1 stop1]|e] eqn:Hit.
  - destruct (train_iteration_Ok _ _ _ _ _ _ Hit)
      as (_ & _ & [[Hdue Hck]|(Hdue & -> & ->)] & _).
    + exfalso. unfold checkpoint in Hck.
      cbn [previous_losses loss] in Hck. by rewrite Hhist, Hraise in Hck.
    + assert (Hk0 : k <> 0).
      { intros ->. apply Hdue.
        replace (current_step st + 1)%Z with (steps_per_checkpoint FLAGS)
          by lia.
        apply Z.mod_same. lia. }
      rewrite ret_bind.
      destruct (IH {| loss := (loss st
                               + x / inject_Z (steps_per_checkpoint FLAGS))%Q;
                      current_step := (current_step st + 1)%Z;
                      previous_losses := previous_losses st;
                      total_loss := (total_loss st + x)%Q;
                      learning_rate := learning_rate st |} xs)
        as [Hex Hval]; [lia | lia | done | simpl; lia | done | lia |].
      split; [done|]. intros Hverb Hvals. apply Hval; [done|].
      intros s Hs. apply Hvals. simpl in Hs. lia.
  - split; [by exists e|]. intros Hverb Hvals. simpl. f_equal.
    destruct (decide (k = 0)) as [->|Hk0].
    + rewrite (train_iteration_due_raises _ _ _ _ ValueError) in Hit.
      * by injection Hit as <-.
      * lia.
      * done.
      * replace (current_step st + 1)%Z with (steps_per_checkpoint FLAGS)
          by lia.
        apply Z.mod_same. lia.
      * unfold checkpoint. cbn [previous_losses loss].
        by rewrite Hhist, Hraise.
    + exfalso.
      destruct (Hvals (current_step st + 1)%Z) as [Hspv Hv]; [lia|].
      rewrite train_iteration_run in Hit by (done || lia).
      rewrite bool_decide_false in Hit; [done|].
      rewrite Z.mod_small; lia.
Qed.

End train_loop.

Lemma foldl_Qplus (a : Q) (l : list Q) :
  (foldl Qplus a l == a + foldl Qplus 0 l)%Q.
Proof.
  revert a. induction l as [|x l IH]; intros a; simpl.
  - ring.
  - rewrite (IH (a + x)%Q), (IH (0 + x)%Q). ring.
Qed.

Lemma foldl_mean (c a : Q) (l : list Q) :
  (foldl (fun a x => a + x / c) a l == a + foldl Qplus 0 l / c)%Q.
Proof.
  revert a. induction l as [|x l IH]; intros a; simpl.
  - unfold Qdiv. ring.
  - rewrite (IH (a + x / c)%Q), (foldl_Qplus (0 + x)%Q).
    unfold Qdiv. ring.
Qed.

Section train_nonneg.

Import translate.

Variable FLAGS : flags.
Variable validate : Z -> result Q.
Hypothesis spc_pos : (0 < steps_per_checkpoint FLAGS)%Z.

Lemma step_share_nonneg (a x : Q) :
  (0 <= a)%Q -> (0 <= x)%Q ->
  (0 <= a + x / inject_Z (steps_per_checkpoint FLAGS))%Q.
Proof.
  intros Ha Hx. rewrite <- (Qplus_0_r 0).
  apply Qplus_le_compat; [done|].
  apply Qle_shift_div_l; [by rewrite <- (Zlt_Qlt 0)|].
  by rewrite Qmult_0_l.
Qed.

(** The checkpoint block on losses that are not negative: no early stop,
    the losses stay so, and for patiences of at least one it raises
    nothing. *)
Lemma checkpoint_nonneg (st : train_state) :
  (0 <= loss st)%Q ->
  (forall y, y ∈ previous_losses st -> (0 <= y)%Q) ->
  (forall st', checkpoint FLAGS st <> Ok (st', true)) /\
  (forall st', checkpoint FLAGS st = Ok (st', false) ->
     current_step st' = current_step st /\
     (0 <= loss st')%Q /\
     forall y, y ∈ previous_losses st' -> (0 <= y)%Q) /\
  ((1 <= lr_rate_patience FLAGS)%Z -> (1 <= early_stop_patience FLAGS)%Z ->
   exists st', checkpoint FLAGS st = Ok (st', false)).
Proof.
  intros Hloss Hhist.
  assert (Hall : forall y, y ∈ previous_losses st ++ [loss st] -> (0 <= y)%Q).
  { intros y Hy. apply elem_of_app in Hy as [Hy|Hy]; [by apply Hhist|].
    apply list_elem_of_singleton in Hy as ->. done. }
  assert (Hno : forall st', checkpoint FLAGS st <> Ok (st', true)).
  { intros st' Hck. apply checkpoint_Ok in Hck as (decay & _ & Hs & _).
    revert Hs. apply no_improvement_zero.
    intros y Hy. apply Hall. by eapply py_slice_from_sub. }
  split; [done|]. split.
  - intros st' Hck. apply checkpoint_Ok in Hck as (decay & _ & _ & ->).
    cbn. split; [done|]. split; [apply Qle_refl | done].
  - intros Hlr Hes. unfold checkpoint.
    destruct (no_improvement_spec (previous_losses st)
                (lr_rate_patience FLAGS) (loss st) Hlr) as (decay & Hd & _).
    destruct (no_improvement_spec (previous_losses st ++ [loss st])
                (early_stop_patience FLAGS) 0%Q Hes) as (stop & Hs & _).
    assert (Hfalse : stop = false).
    { destruct stop; [|done]. exfalso. revert Hs.
      apply no_improvement_zero.
      intros y Hy. apply Hall. by eapply py_slice_from_sub. }
    subst stop. rewrite Hd, ret_bind, Hs, ret_bind. by eexists.
Qed.

(** One turn on a loss that is not negative, from a state whose losses
    are not negative. *)
Lemma train_iteration_nonneg st step_loss :
  (0 <= loss st)%Q ->
  (forall y, y ∈ previous_losses st -> (0 <= y)%Q) ->
  (0 <= step_loss)%Q ->
  (forall st', train_iteration FLAGS validate st step_loss <> Ok (st', true)) /\
  (forall st', train_iteration FLAGS validate st step_loss = Ok (st', false) ->
     current_step st' = (current_step st + 1)%Z /\
     (0 <= loss st')%Q /\
     (forall y, y ∈ previous_losses st' -> (0 <= y)%Q) /\
     steps_per_validation FLAGS <> 0%Z /\
     (((current_step st + 1) mod steps_per_validation FLAGS = 0)%Z ->
      exists avg_loss, validate (current_step st + 1)%Z = Ok avg_loss)) /\
  ((1 <= lr_rate_patience FLAGS)%Z -> (1 <= early_stop_patience FLAGS)%Z ->
   steps_verbosity FLAGS <> 0%Z ->
   steps_per_validation FLAGS <> 0%Z ->
   (((current_step st + 1) mod steps_per_validation FLAGS = 0)%Z ->
    exists avg_loss, validate (current_step st + 1)%Z = Ok avg_loss) ->
   exists st', train_iteration FLAGS validate st step_loss = Ok (st', false)).
Proof.
  intros Hloss Hhist Hx.
  pose proof (step_share_nonneg _ _ Hloss Hx) as Hnew.
  destruct (checkpoint_nonneg
              {| loss := (loss st
                          + step_loss
                            / inject_Z (steps_per_checkpoint FLAGS))%Q;
                 current_step := (current_step st + 1)%Z;
                 previous_losses := previous_losses st;
                 total_loss := (total_loss st + step_loss)%Q;
                 learning_rate := learning_rate st |} Hnew Hhist)
    as (Hno & Hkeep & Hex).
  split; [|split].
  - intros st' Hit.
    destruct (train_iteration_Ok _ _ _ _ _ _ Hit)
      as (_ & _ & [[_ Hck]|(_ & _ & ?)] & _); [|done].
    by apply Hno in Hck.
  - intros st' Hit.
    destruct (train_iteration_Ok _ _ _ _ _ _ Hit)
      as (_ & _ & [[_ Hck]|(_ & -> & _)] & Hval).
    + destruct (Hkeep _ Hck) as (Hcs & Hl & Hh). simpl in Hcs.
      destruct (Hval eq_refl) as [Hspv Hv]. done.
    + destruct (Hval eq_refl) as [Hspv Hv]. done.
  - intros Hlr Hes Hverb Hspv Hval.
    rewrite train_iteration_run by (done || lia).
    case_bool_decide; [by apply Hex | by eexists].
Qed.

Lemma train_loop_nonneg step_losses : forall st,
  (0 <= loss st)%Q ->
  (forall y, y ∈ previous_losses st -> (0 <= y)%Q) ->
  (forall x, x ∈ step_losses -> (0 <= x)%Q) ->
  (forall st', train_loop FLAGS validate st step_losses <> Ok (st', true)) /\
  ((1 <= lr_rate_patience FLAGS)%Z -> (1 <= early_stop_patience FLAGS)%Z ->
   steps_verbosity FLAGS <> 0%Z ->
   steps_per_validation FLAGS <> 0%Z ->
   (forall s,
      (current_step st < s <= current_step st
                               + Z.of_nat (length step_losses))%Z ->
      (s mod steps_per_validation FLAGS = 0)%Z ->
      exists avg_loss, validate s = Ok avg_loss) ->
   exists st', train_loop FLAGS validate st step_losses = Ok (st', false)) /\
  (forall s e,
     (current_step st < s <= current_step st
                              + Z.of_nat (length step_losses))%Z ->
     steps_per_validation FLAGS <> 0%Z ->
     (s mod steps_per_validation FLAGS = 0)%Z ->
     validate s = Raise e ->
     exists e', train_loop FLAGS validate st step_losses = Raise e').
Proof.
  induction step_losses as [|x xs IH]; intros st Hloss Hhist Hxs.
  - split; [done|]. split; [intros; by eexists|].
    intros s e Hs. simpl in Hs. lia.
  - destruct (train_iteration_nonneg st x Hloss Hhist) as (Hno & Hkeep & Hex).
    { apply Hxs. left. }
    assert (Hrest : forall y, y ∈ xs -> (0 <= y)%Q).
    { intros y Hy. apply Hxs. by right. }
    cbn [train_loop]. split; [|split].
    + intros st' Hloop.
      apply bind_Ok in Hloop as ([st1 stop1] & Hit & Hloop).
      destruct stop1; [by apply Hno in Hit|].
      destruct (Hkeep _ Hit) as (_ & Hl1 & Hh1 & _).
      destruct (IH st1 Hl1 Hh1 Hrest) as [Hno' _].
      by apply Hno' in Hloop.
    + intros Hlr Hes Hverb Hspv Hval.
      destruct (Hex Hlr Hes Hverb Hspv) as [st1 Hit].
      { intros Hdue. apply Hval; [simpl; lia | done]. }
      rewrite Hit, ret_bind.
      destruct (Hkeep _ Hit) as (Hcs & Hl1 & Hh1 & _).
      destruct (IH st1 Hl1 Hh1 Hrest) as (_ & Hex' & _).
      apply Hex'; try done.
      intros s Hs. apply Hval. simpl. lia.
    + intros s e Hs Hspv Hdue Hraise.
      destruct (train_iteration FLAGS validate st x) as [[st1 stop1]|e']
        eqn:Hit; [|by exists e'].
      destruct stop1; [by destruct (Hno st1)|].
      destruct (Hkeep st1 eq_refl) as (Hcs & Hl1 & Hh1 & _ & Hv).
      rewrite ret_bind.
      destruct (decide (s = current_step st + 1)%Z) as [->|Hne].
      * destruct (Hv Hdue) as [avg Havg]. by rewrite Hraise in Havg.
      * destruct (IH st1 Hl1 Hh1 Hrest) as (_ & _ & Hr).
        apply (Hr s e); try done. simpl in Hs. lia.
Qed.

End train_nonneg.

(** X17.  The counters of the training loop, for a positive number of
    steps per checkpoint.  Whatever run of the loop returns, it made some
    number [n] of turns, all of them unless it stopped early, and an early
    stop only happens at a checkpoint; the step counter grew by [n], the
    total loss is the sum, added up from the left, of the first [n] step
    losses, and the history of losses grew at its end by one entry for
    each multiple of the number of steps per checkpoint that the step
    counter reached. *)
Theorem train_loop_counters (FLAGS : translate.flags)
    (validate : Z -> result Q)
    (st st' : translate.train_state) (step_losses : list Q) (stop : bool) :
  (0 < translate.steps_per_checkpoint FLAGS)%Z ->
  translate.train_loop FLAGS validate st step_losses = Ok (st', stop) ->
  exists n,
    n <= length step_losses /\
    (stop = false -> n = length step_losses) /\
    (stop = true ->
     (translate.current_step st' mod translate.steps_per_checkpoint FLAGS
      = 0)%Z) /\
    translate.current_step st'
    = (translate.current_step st + Z.of_nat n)%Z /\
    translate.total_loss st'
    = foldl Qplus (translate.total_loss st) (take n step_losses) /\
    translate.previous_losses st `prefix_of` translate.previous_losses st' /\
    Z.of_nat (length (translate.previous_losses st'))
    = (Z.of_nat (length (translate.previous_losses st))
       + (translate.current_step st + Z.of_nat n)
         / translate.steps_per_checkpoint FLAGS
       - translate.current_step st / translate.steps_per_checkpoint FLAGS)%Z.
Proof. intros Hspc Hloop. by eapply train_loop_counters_gen. Qed.

Lemma train_loop_counters_witness :
  exists st',
    translate.train_loop translate.every_second_step
      translate.quiet_validation
      (translate.train_init 1) [3; 1; 4; 1; 5]%Q = Ok (st', false) /\
    exists n,
      n <= length [3; 1; 4; 1; 5]%Q /\
      (false = false -> n = length [3; 1; 4; 1; 5]%Q) /\
      (false = true ->
       (translate.current_step st'
        mod translate.steps_per_checkpoint translate.every_second_step
        = 0)%Z) /\
      translate.current_step st'
      = (translate.current_step (translate.train_init 1) + Z.of_nat n)%Z /\
      translate.total_loss st'
      = foldl Qplus (translate.total_loss (translate.train_init 1))
              (take n [3; 1; 4; 1; 5]%Q) /\
      translate.previous_losses (translate.train_init 1)
      `prefix_of` translate.previous_losses st' /\
      Z.of_nat (length (translate.previous_losses st'))
      = (Z.of_nat (length (translate.previous_losses (translate.train_init 1)))
         + (translate.current_step (translate.train_init 1) + Z.of_nat n)
           / translate.steps_per_checkpoint translate.every_second_step
         - translate.current_step (translate.train_init 1)
           / translate.steps_per_checkpoint translate.every_second_step)%Z.
Proof.
  eexists. split; [vm_compute; reflexivity|].
  apply (train_loop_counters translate.every_second_step
           translate.quiet_validation
           (translate.train_init 1) _ [3; 1; 4; 1; 5]%Q false).
  - reflexivity.
  - vm_compute. reflexivity.
Defined.

(** X18.  With step losses that are never negative, as a cross-entropy
    is, and a positive number of steps per checkpoint, the training loop
    started from scratch never takes its early stop, whatever the
    settings and whatever the validation block does.  It runs for as long
    as there are steps when, besides, both patiences are at least one,
    neither [steps_verbosity] nor [steps_per_validation] is zero and the
    validation block raises nothing at the steps where it is due; when
    the validation block raises at a step where it is due, the run does
    not return. *)
Theorem train_loop_never_stops_early (FLAGS : translate.flags)
    (validate : Z -> result Q) (lr : Q) (step_losses : list Q) :
  (0 < translate.steps_per_checkpoint FLAGS)%Z ->
  (forall x, x ∈ step_losses -> (0 <= x)%Q) ->
  (forall st',
     translate.train_loop FLAGS validate (translate.train_init lr)
                          step_losses
     <> Ok (st', true)) /\
  ((1 <= translate.lr_rate_patience FLAGS)%Z ->
   (1 <= translate.early_stop_patience FLAGS)%Z ->
   translate.steps_verbosity FLAGS <> 0%Z ->
   translate.steps_per_validation FLAGS <> 0%Z ->
   (forall s,
      (0 < s <= Z.of_nat (length step_losses))%Z ->
      (s mod translate.steps_per_validation FLAGS = 0)%Z ->
      exists avg_loss, validate s = Ok avg_loss) ->
   exists st',
     translate.train_loop FLAGS validate (translate.train_init lr)
                          step_losses
     = Ok (st', false)) /\
  (forall s e,
     (0 < s <= Z.of_nat (length step_losses))%Z ->
     translate.steps_per_validation FLAGS <> 0%Z ->
     (s mod translate.steps_per_validation FLAGS = 0)%Z ->
     validate s = Raise e ->
     exists e',
       translate.train_loop FLAGS validate (translate.train_init lr)
                            step_losses
       = Raise e').
Proof.
  intros Hspc Hxs.
  destruct (train_loop_nonneg FLAGS validate Hspc step_losses
              (translate.train_init lr)) as (Hno & Hex & Hraise);
    [apply Qle_refl | | done |].
  { intros y Hy. by apply not_elem_of_nil in Hy. }
  split; [done|]. split; [|done].
  intros Hlr Hes Hverb Hspv Hval. by apply Hex.
Qed.

Lemma train_loop_never_stops_early_witness :
  (forall st',
     translate.train_loop translate.slow_decay translate.quiet_validation
                          (translate.train_init 1) [3; 1; 4]%Q
     <> Ok (st', true)) /\
  ((1 <= translate.lr_rate_patience translate.slow_decay)%Z ->
   (1 <= translate.early_stop_patience translate.slow_decay)%Z ->
   translate.steps_verbosity translate.slow_decay <> 0%Z ->
   translate.steps_per_validation translate.slow_decay <> 0%Z ->
   (forall s,
      (0 < s <= Z.of_nat (length [3; 1; 4]%Q))%Z ->
      (s mod translate.steps_per_validation translate.slow_decay = 0)%Z ->
      exists avg_loss, translate.quiet_validation s = Ok avg_loss) ->
   exists st',
     translate.train_loop translate.slow_decay translate.quiet_validation
                          (translate.train_init 1) [3; 1; 4]%Q
     = Ok (st', false)) /\
  (forall s e,
     (0 < s <= Z.of_nat (length [3; 1; 4]%Q))%Z ->
     translate.steps_per_validation translate.slow_decay <> 0%Z ->
     (s mod translate.steps_per_validation translate.slow_decay = 0)%Z ->
     translate.quiet_validation s = Raise e ->
     exists e',
       translate.train_loop translate.slow_decay translate.quiet_validation
                            (translate.train_init 1) [3; 1; 4]%Q
       = Raise e').
Proof.
  apply (train_loop_never_stops_early translate.slow_decay
           translate.quiet_validation 1 [3; 1; 4]%Q).
  - reflexivity.
  - intros x Hx. repeat (apply elem_of_cons in Hx as [->|Hx]; [discriminate|]).
    by apply not_elem_of_nil in Hx.
Defined.

(** X19.  A patience [lr_rate_patience] of zero or less breaks the first
    checkpoint: the history of losses is still empty there, the length
    test lets it through and the maximum of an empty slice raises
    [ValueError].  So a run of at least [steps_per_checkpoint] steps does
    not return; it ends with that [ValueError] unless an earlier
    statement raises first, that is, when [steps_verbosity] is not zero
    and, at the steps before the checkpoint, [steps_per_validation] is
    not zero and the validation block raises nothing where it is due. *)
Theorem train_loop_patience_zero (FLAGS : translate.flags)
    (validate : Z -> result Q) (lr : Q) (step_losses : list Q) :
  (0 < translate.steps_per_checkpoint FLAGS)%Z ->
  (translate.lr_rate_patience FLAGS <= 0)%Z ->
  (translate.steps_per_checkpoint FLAGS <= Z.of_nat (length step_losses))%Z ->
  (exists e,
     translate.train_loop FLAGS validate (translate.train_init lr)
                          step_losses
     = Raise e) /\
  (translate.steps_verbosity FLAGS <> 0%Z ->
   (forall s, (0 < s < translate.steps_per_checkpoint FLAGS)%Z ->
      translate.steps_per_validation FLAGS <> 0%Z /\
      ((s mod translate.steps_per_validation FLAGS = 0)%Z ->
       exists avg_loss, validate s = Ok avg_loss)) ->
   translate.train_loop FLAGS validate (translate.train_init lr) step_losses
   = Raise ValueError).
Proof.
  intros Hspc Hlr Hlen.
  apply (train_loop_no_patience FLAGS validate
           (Z.to_nat (translate.steps_per_checkpoint FLAGS)));
    [lia | lia | done | simpl; lia | done | lia].
Qed.

Lemma train_loop_patience_zero_witness :
  (exists e,
     translate.train_loop translate.no_patience translate.quiet_validation
                          (translate.train_init 1) [3; 1; 4]%Q
     = Raise e) /\
  (translate.steps_verbosity translate.no_patience <> 0%Z ->
   (forall s,
      (0 < s < translate.steps_per_checkpoint translate.no_patience)%Z ->
      translate.steps_per_validation translate.no_patience <> 0%Z /\
      ((s mod translate.steps_per_validation translate.no_patience = 0)%Z ->
       exists avg_loss, translate.quiet_validation s = Ok avg_loss)) ->
   translate.train_loop translate.no_patience translate.quiet_validation
                        (translate.train_init 1) [3; 1; 4]%Q
   = Raise ValueError).
Proof.
  apply (train_loop_patience_zero translate.no_patience
           translate.quiet_validation 1 [3; 1; 4]%Q).
  - reflexivity.
  - simpl. lia.
  - simpl. lia.
Defined.

(** X20.  What the first checkpoint records: after exactly
    [steps_per_checkpoint] steps from scratch, the history of losses holds
    one entry, which is the mean of the step losses of the interval; the
    loss accumulator is back at zero, the learning rate is the initial one
    and no early stop is taken for a patience [early_stop_patience] of two
    or more. *)
Theorem train_first_checkpoint_mean (FLAGS : translate.flags)
    (validate : Z -> result Q) (lr : Q)
    (step_losses : list Q) (st' : translate.train_state) (stop : bool) :
  (0 < translate.steps_per_checkpoint FLAGS)%Z ->
  Z.of_nat (length step_losses) = translate.steps_per_checkpoint FLAGS ->
  translate.train_loop FLAGS validate (translate.train_init lr) step_losses
  = Ok (st', stop) ->
  (exists m,
     translate.previous_losses st' = [m] /\
     (m == foldl Qplus 0 step_losses
           / inject_Z (translate.steps_per_checkpoint FLAGS))%Q) /\
  translate.loss st' = 0%Q /\
  translate.learning_rate st' = lr /\
  translate.current_step st' = translate.steps_per_checkpoint FLAGS /\
  ((2 <= translate.early_stop_patience FLAGS)%Z -> stop = false).
Proof.
  intros Hspc Hlen Hloop.
  apply (train_loop_first_interval FLAGS validate (length step_losses))
    in Hloop; [| lia | lia | simpl; lia | done].
  apply checkpoint_Ok in Hloop as (decay & Hd & Hs & ->). cbn in *.
  split; [|split; [done|split; [|split; [done|]]]].
  - eexists. split; [done|]. rewrite foldl_mean. ring.
  - unfold translate.no_improvement in Hd.
    case_bool_decide as Hp.
    + by rewrite py_slice_from_nil in Hd.
    + by injection Hd as <-.
  - intros Hes. unfold translate.no_improvement in Hs.
    rewrite bool_decide_false in Hs by (simpl; lia).
    by injection Hs as <-.
Qed.

Lemma train_first_checkpoint_mean_witness :
  exists st',
    translate.train_loop translate.every_second_step
      translate.quiet_validation
      (translate.train_init 1) [3; 1]%Q = Ok (st', false) /\
    (exists m,
       translate.previous_losses st' = [m] /\
       (m == foldl Qplus 0 [3; 1]%Q
             / inject_Z (translate.steps_per_checkpoint
                           translate.every_second_step))%Q) /\
    translate.loss st' = 0%Q /\
    translate.learning_rate st' = 1%Q /\
    translate.current_step st'
    = translate.steps_per_checkpoint translate.every_second_step /\
    ((2 <= translate.early_stop_patience translate.every_second_step)%Z ->
     false = false).
Proof.
  eexists. split; [vm_compute; reflexivity|].
  apply (train_first_checkpoint_mean translate.every_second_step
           translate.quiet_validation 1 [3; 1]%Q _ false).
  - reflexivity.
  - reflexivity.
  - vm_compute. reflexivity.
Defined.

(** ** decode_from_stdin, decode_from_file *)

Lemma decode_bucket_closed (buckets : list bucket) (token_ids : sentence) :
  translate.decode_bucket buckets token_ids
  = translate.py_min
      (List.filter
         (fun b => bool_decide (length token_ids < (nth b buckets (0, 0)).1))
         (xrange (length buckets))).
Proof.
  unfold translate.decode_bucket.
  rewrite comprehension_map
    with (g := fun b => (b, bool_decide
                              (length token_ids < (nth b buckets (0, 0)).1))).
  - by rewrite ret_bind, filter_fst_snd.
  - intros b Hb. apply xrange_elem in Hb.
    destruct (index_lt buckets b Hb) as (bk & -> & Hbk).
    by rewrite ret_bind, (nth_lookup_Some _ _ (0, 0) _ Hbk).
Qed.

Lemma decode_bucket_Ok (buckets : list bucket) (token_ids : sentence) i :
  translate.decode_bucket buckets token_ids = Ok i
  <-> (exists E D, buckets !! i = Some (E, D) /\ length token_ids < E) /\
      (forall j E D, j < i -> buckets !! j = Some (E, D) ->
                     E <= length token_ids).
Proof.
  rewrite decode_bucket_closed.
  set (g := fun b => bool_decide (length token_ids < (nth b buckets (0, 0)).1)).
  assert (Hg : forall b E D, buckets !! b = Some (E, D) ->
                 g b = true <-> length token_ids < E).
  { intros b E D Hb. unfold g.
    rewrite (nth_lookup_Some _ _ (0, 0) _ Hb). simpl.
    by rewrite bool_decide_eq_true. }
  destruct (List.filter g (xrange (length buckets))) as [|x l] eqn:Hf.
  - split; [done|]. intros [(E & D & Hi & Hlt) _]. exfalso.
    assert (Hin : In i (List.filter g (xrange (length buckets)))).
    { apply filter_In. split.
      - apply in_seq. apply lookup_lt_Some in Hi. lia.
      - by apply (Hg i E D). }
    by rewrite Hf in Hin.
  - apply filter_seq_head in Hf as (Hx & Hrange & Hmin & Hrest).
    assert (Hpy : translate.py_min (x :: l) = Ok x).
    { unfold translate.py_min. by rewrite foldl_min_head. }
    rewrite Hpy.
    destruct (lookup_lt_is_Some_2 buckets x) as [[Ex Dx] Hbx]; [lia|].
    split.
    + intros [= <-]. split.
      * exists Ex, Dx. split; [done|]. by apply (Hg x Ex Dx).
      * intros j E D Hj Hbj.
        destruct (decide (length token_ids < E)) as [Hlt|]; [|lia].
        apply (Hg j E D Hbj) in Hlt. rewrite Hmin in Hlt by lia. done.
    + intros [(E & D & Hi & Hlt) Hbefore]. f_equal.
      destruct (Nat.lt_trichotomy x i) as [Hc|[Hc|Hc]]; [|done|]; exfalso.
      * specialize (Hbefore x Ex Dx Hc Hbx).
        apply (Hg x Ex Dx Hbx) in Hx. lia.
      * apply (Hg i E D Hi) in Hlt. rewrite Hmin in Hlt by lia. done.
Qed.

Lemma decode_bucket_too_long (buckets : list bucket) (token_ids : sentence) :
  Forall (fun bk : bucket => bk.1 <= length token_ids) buckets
  <-> translate.decode_bucket buckets token_ids = Raise ValueError.
Proof.
  rewrite decode_bucket_closed.
  set (g := fun b => bool_decide (length token_ids < (nth b buckets (0, 0)).1)).
  destruct (List.filter g (xrange (length buckets))) as [|x l] eqn:Hf.
  - split; [done|]. intros _. apply Forall_lookup. intros b bk Hb.
    destruct (decide (bk.1 <= length token_ids)) as [|Hn]; [done|]. exfalso.
    assert (Hin : In b (List.filter g (xrange (length buckets)))).
    { apply filter_In. split.
      - apply in_seq. apply lookup_lt_Some in Hb. lia.
      - unfold g. rewrite (nth_lookup_Some _ _ (0, 0) _ Hb).
        apply bool_decide_eq_true. lia. }
    by rewrite Hf in Hin.
  - split; [|done]. intros Hall. exfalso.
    apply filter_seq_head in Hf as (Hx & Hrange & _).
    destruct (lookup_lt_is_Some_2 buckets x) as [bk Hbx]; [lia|].
    unfold g in Hx. rewrite (nth_lookup_Some _ _ (0, 0) _ Hbx) in Hx.
    apply bool_decide_eq_true in Hx.
    pose proof (Forall_lookup_1 _ _ _ _ Hall Hbx) as Hle. simpl in Hle. lia.
Qed.

(** X21.  The bucket chosen for a sentence to decode is the first one
    whose source size exceeds the length of the sentence; the target size
    plays no part.  When no bucket is long enough, and only then, the
    choice raises [ValueError]; it raises nothing else. *)
Theorem decode_bucket_first_long_enough (buckets : list bucket)
    (token_ids : sentence) :
  (forall i,
     translate.decode_bucket buckets token_ids = Ok i
     <-> (exists E D, buckets !! i = Some (E, D) /\ length token_ids < E) /\
         (forall j E D, j < i -> buckets !! j = Some (E, D) ->
                        E <= length token_ids)) /\
  (translate.decode_bucket buckets token_ids = Raise ValueError
   <-> Forall (fun bk : bucket => bk.1 <= length token_ids) buckets) /\
  (forall e, translate.decode_bucket buckets token_ids = Raise e ->
             e = ValueError).
Proof.
  split; [intros i; apply decode_bucket_Ok|].
  split; [symmetry; apply decode_bucket_too_long|].
  intros e. rewrite decode_bucket_closed.
  destruct (List.filter _ _); simpl; congruence.
Qed.

Lemma py_index_spec (x : Z) (l : list Z) :
  x ∈ l ->
  exists i, translate.py_index x l = Ok i /\
            l !! i = Some x /\ x ∉ take i l.
Proof.
  induction l as [|y l IH]; intros Hin; [by apply not_elem_of_nil in Hin|].
  simpl. case_bool_decide as Hy.
  - exists 0. subst y. split; [done|]. split; [done|]. simpl.
    apply not_elem_of_nil.
  - apply elem_of_cons in Hin as [->|Hin]; [done|].
    destruct (IH Hin) as (i & -> & Hi & Hnot).
    exists (S i). split; [done|]. split; [done|]. simpl.
    intros Hc. apply elem_of_cons in Hc as [->|Hc]; [done | by apply Hnot].
Qed.

Lemma cut_at_eos_spec (outputs : list Z) :
  exists words,
    translate.cut_at_eos outputs = Ok words /\
    (data_utils.EOS_ID ∉ words) /\
    ((data_utils.EOS_ID ∉ outputs) -> words = outputs) /\
    ((data_utils.EOS_ID ∈ outputs) ->
     exists rest, outputs = words ++ data_utils.EOS_ID :: rest).
Proof.
  unfold translate.cut_at_eos. case_bool_decide as Hin.
  - destruct (py_index_spec _ _ Hin) as (i & -> & Hi & Hnot).
    exists (take i outputs). rewrite ret_bind.
    split; [done|]. split; [done|]. split; [done|].
    intros _. exists (drop (S i) outputs).
    rewrite <- (take_drop i outputs) at 1. f_equal.
    by apply drop_S.
  - exists outputs. split; [done|]. split; [done|]. split; [done|]. done.
Qed.

(** X22.  The cut of the greedy outputs at the end-of-sequence id raises
    nothing.  It keeps the outputs that come before the first
    end-of-sequence id and drops that id with all that follows; outputs
    without the id are returned as they are. *)
Theorem cut_at_eos_before_first (outputs : list Z) :
  exists words,
    translate.cut_at_eos outputs = Ok words /\
    (data_utils.EOS_ID ∉ words) /\
    ((data_utils.EOS_ID ∉ outputs) -> words = outputs) /\
    ((data_utils.EOS_ID ∈ outputs) ->
     exists rest, outputs = words ++ data_utils.EOS_ID :: rest).
Proof. apply cut_at_eos_spec. Qed.

(** The batch of one sentence to decode, entry by entry. *)
Lemma decode_get_batch (buckets : list bucket) (batch_size : nat)
    (rnd : nat -> nat) (token_ids : sentence) (i E D : nat) :
  buckets !! i = Some (E, D) ->
  length token_ids < E ->
  exists batch,
    nmt_model.get_batch buckets batch_size rnd
      (translate.decode_data i token_ids) i = Ok batch /\
    forall b, b < batch_size ->
      (forall t,
         nmt_model.cell (nmt_model.batch_encoder_inputs batch) t b
         = (token_ids ++ replicate (E - length token_ids) data_utils.PAD_ID)
             !! t) /\
      (forall t,
         nmt_model.cell (nmt_model.batch_encoder_inputs_r batch) t b
         = (reverse token_ids
            ++ replicate (E - length token_ids) data_utils.PAD_ID) !! t) /\
      (forall t,
         nmt_model.cell (nmt_model.batch_decoder_inputs batch) t b
         = take D (data_utils.GO_ID :: replicate (D - 1) data_utils.PAD_ID)
             !! t) /\
      (forall t, t < D ->
         nmt_model.cell (nmt_model.batch_weights batch) t b = Some 0%Q).
Proof.
  intros Hb Hlen.
  assert (Hd : translate.decode_data i token_ids !! i
               = Some [(token_ids, reverse token_ids, ([] : list Z))]).
  { unfold translate.decode_data.
    rewrite lookup_app_r by (rewrite length_replicate; lia).
    rewrite length_replicate. by replace (i - i) with 0 by lia. }
  destruct (get_batch_cells buckets batch_size rnd _ i E D _ Hb Hd)
    as (batch & Hok & Hcells); [done|].
  exists batch. split; [done|]. intros b Hbb.
  destruct (Hcells b token_ids (reverse token_ids) [] Hbb)
    as (He & Her & Hdc & Hw).
  { cbn [length]. by rewrite Nat.mod_1_r. }
  assert (Hline : forall x : sentence, length x < E ->
    take E (nmt_model.encoder_line E x)
    = x ++ replicate (E - length x) data_utils.PAD_ID).
  { intros x Hx. unfold nmt_model.encoder_line, nmt_model.py_repeat.
    replace (Z.to_nat (Z.of_nat E - Z.of_nat (length x)))
      with (E - length x) by lia.
    apply take_ge. rewrite length_app, length_replicate. lia. }
  assert (Hdl : nmt_model.decoder_line D []
                = data_utils.GO_ID :: replicate (D - 1) data_utils.PAD_ID).
  { unfold nmt_model.decoder_line, nmt_model.py_repeat. simpl.
    do 2 f_equal. lia. }
  split; [|split; [|split]].
  - intros t. by rewrite He, Hline.
  - intros t. rewrite Her, Hline by (by rewrite length_reverse).
    by rewrite length_reverse.
  - intros t. by rewrite Hdc, Hdl.
  - intros t Ht. rewrite Hw by done. f_equal.
    case_bool_decide; [done|].
    rewrite bool_decide_true; [done|].
    rewrite Hdl. replace (t + 1) with (S t) by lia. cbn [nth].
    apply nth_lookup_Some. apply lookup_replicate_2. lia.
Qed.

(** X23.  The batch built for a sentence to decode, for the bucket chosen
    for it: each column holds the sentence followed by padding up to the
    source size of the bucket, the reversed sentence followed by the same
    padding, and as decoder inputs the GO id followed by padding only; all
    the weights are zero. *)
Theorem decode_batch_contents (model : nmt_model.NMTModel)
    (rnd : nat -> nat) (token_ids : sentence) (i E D : nat) :
  translate.decode_bucket (nmt_model.buckets model) token_ids = Ok i ->
  nmt_model.buckets model !! i = Some (E, D) ->
  exists batch,
    translate.decode_batch model rnd token_ids = Ok (i, batch) /\
    forall b, b < nmt_model.batch_size model ->
      (forall t,
         nmt_model.cell (nmt_model.batch_encoder_inputs batch) t b
         = (token_ids ++ replicate (E - length token_ids) data_utils.PAD_ID)
             !! t) /\
      (forall t,
         nmt_model.cell (nmt_model.batch_encoder_inputs_r batch) t b
         = (reverse token_ids
            ++ replicate (E - length token_ids) data_utils.PAD_ID) !! t) /\
      (forall t,
         nmt_model.cell (nmt_model.batch_decoder_inputs batch) t b
         = take D (data_utils.GO_ID :: replicate (D - 1) data_utils.PAD_ID)
             !! t) /\
      (forall t, t < D ->
         nmt_model.cell (nmt_model.batch_weights batch) t b = Some 0%Q).
Proof.
  intros Hbucket Hb.
  assert (Hlen : length token_ids < E).
  { apply decode_bucket_Ok in Hbucket as [(E' & D' & Hb' & Hlt) _].
    rewrite Hb in Hb'. by injection Hb' as <- <-. }
  destruct (decode_get_batch (nmt_model.buckets model)
              (nmt_model.batch_size model) rnd token_ids i E D Hb Hlen)
    as (batch & Hok & Hcells).
  exists batch. split; [|done].
  unfold translate.decode_batch. by rewrite Hbucket, ret_bind, Hok.
Qed.

Section decode_more.

Context {session value : Type}.
Variable session_run :
  session -> list nmt_model.fetch -> gmap string nmt_model.feed_value
  -> session * list value.
Variable argmax : value -> nat.

(** X24.  A sentence that no bucket is long enough for: the turn of the
    decoding loop raises [ValueError] at the choice of the bucket, and the
    session is not run. *)
Theorem decode_sentence_too_long (model : nmt_model.NMTModel)
    (rnd : nat -> nat) (sess : session) (token_ids : sentence) :
  Forall (fun bk : bucket => bk.1 <= length token_ids)
         (nmt_model.buckets model) ->
  translate.decode_sentence session_run argmax model rnd sess token_ids
  = (sess, Raise ValueError).
Proof.
  intros Hall. apply decode_bucket_too_long in Hall.
  unfold translate.decode_sentence, translate.decode_batch.
  by rewrite Hall.
Qed.


End decode_more.

Lemma decode_batch_contents_witness :
  exists model batch,
    nmt_model.init translate._buckets 1 = Ok model /\
    translate.decode_batch model (fun j => j) [7; 8; 9; 7; 8; 9]%Z
    = Ok (1, batch) /\
    forall b, b < nmt_model.batch_size model ->
      (forall t,
         nmt_model.cell (nmt_model.batch_encoder_inputs batch) t b
         = ([7; 8; 9; 7; 8; 9]%Z
            ++ replicate (10 - length [7; 8; 9; 7; 8; 9]%Z)
                         data_utils.PAD_ID) !! t) /\
      (forall t,
         nmt_model.cell (nmt_model.batch_encoder_inputs_r batch) t b
         = (reverse [7; 8; 9; 7; 8; 9]%Z
            ++ replicate (10 - length [7; 8; 9; 7; 8; 9]%Z)
                         data_utils.PAD_ID) !! t) /\
      (forall t,
         nmt_model.cell (nmt_model.batch_decoder_inputs batch) t b
         = take 15 (data_utils.GO_ID :: replicate (15 - 1) data_utils.PAD_ID)
             !! t) /\
      (forall t, t < 15 ->
         nmt_model.cell (nmt_model.batch_weights batch) t b = Some 0%Q).
Proof.
  eexists. 
  destruct (decode_batch_contents
              {| nmt_model.buckets := translate._buckets;
                 nmt_model.batch_size := 1;
                 nmt_model.encoder_inputs :=
                   (fun i => "encoder" +:+ pretty i) <$> xrange 40;
                 nmt_model.encoder_inputs_r :=
                   (fun i => "encoder_r" +:+ pretty i) <$> xrange 40;
                 nmt_model.decoder_inputs :=
                   (fun i => "decoder" +:+ pretty i) <$> xrange (50 + 1);
                 nmt_model.target_weights :=
                   (fun i => "weight" +:+ pretty i) <$> xrange (50 + 1) |}
              (fun j => j) [7; 8; 9; 7; 8; 9]%Z 1 10 15)
    as (batch & Hok & Hcells).
  - reflexivity.
  - reflexivity.
  - exists batch. split; [reflexivity|]. split; [exact Hok | exact Hcells].
Defined.

Lemma decode_sentence_too_long_witness :
  translate.decode_sentence
    (fun (s : nat) (_ : list nmt_model.fetch)
         (_ : gmap string nmt_model.feed_value) => (S s, [1; 2; 3]))
    (fun v : nat => v)
    {| nmt_model.buckets := [(2, 3)];
       nmt_model.batch_size := 1;
       nmt_model.encoder_inputs := [];
       nmt_model.encoder_inputs_r := [];
       nmt_model.decoder_inputs := [];
       nmt_model.target_weights := [] |}
    (fun j => j) 0 [7; 8]%Z
  = (0, Raise ValueError).
Proof.
  apply (decode_sentence_too_long
           (fun (s : nat) _ _ => (S s, [1; 2; 3])) (fun v : nat => v)).
  simpl. repeat constructor.
Defined.


(** ** gen_sample, once more *)

Section beam_search_more.

Import translate.

Context {score prob state context input : Type}.
Variable zero : score.
Variable sub_log : score -> prob -> score.
Variable argsort : list score -> list nat.
Variable f_init : input -> list state * context.
Variable f_next :
  list Z -> list context -> list state -> list (list prob) * list Z * list state.

Local Abbreviation beam := (@beam score state).

(** One iteration keeps the id 0 out of the live hypotheses and at the
    end of the finished ones. *)
Lemma sorted_by_eos_zero ctx0 k (b b' : beam) :
  sorted_by_eos zero sub_log argsort f_next ctx0 k b b' ->
  Forall (fun h => 0%Z ∉ h) (hyp_samples b) ->
  Forall zero_only_last (sample b) ->
  Forall (fun h => 0%Z ∉ h) (hyp_samples b') /\
  Forall zero_only_last (sample b').
Proof.
  intros (Hs & _ & _ & Hh & _) Hlive Hdead. rewrite Hs, Hh.
  assert (Hparent : forall i, 0%Z ∉ nth i (hyp_samples b) []).
  { intros i. destruct (decide (i < length (hyp_samples b))) as [Hi|Hi].
    - rewrite Forall_forall in Hlive. apply Hlive.
      by apply list_elem_of_In, nth_In.
    - rewrite nth_overflow by lia. apply not_elem_of_nil. }
  split.
  - apply Forall_fmap, Forall_forall. intros r Hr.
    apply elem_of_filter_list in Hr as [_ Hr].
    apply negb_true_iff, bool_decide_eq_false in Hr.
    simpl. unfold candidate. intros Hin.
    apply elem_of_app in Hin as [Hin|Hin]; [exact (Hparent _ Hin)|].
    apply list_elem_of_singleton in Hin. lia.
  - apply Forall_app. split; [done|].
    apply Forall_fmap, Forall_forall. intros r _. simpl.
    unfold candidate. intros i Hi. rewrite length_app. simpl.
    destruct (decide (i < length (nth (r / voc_size f_next ctx0 b)
                                      (hyp_samples b) []))) as [Hlt|Hge].
    + rewrite lookup_app_l in Hi by done.
      exfalso. apply (Hparent (r / voc_size f_next ctx0 b)).
      by eapply list_elem_of_lookup_2.
    + apply lookup_lt_Some in Hi. rewrite length_app in Hi. simpl in Hi.
      lia.
Qed.

Lemma chain_zero ctx0 k (trace : list beam) : forall (b bf : beam),
  chain (sorted_by_eos zero sub_log argsort f_next ctx0 k) b trace ->
  last (b :: trace) = Some bf ->
  Forall (fun h => 0%Z ∉ h) (hyp_samples b) ->
  Forall zero_only_last (sample b) ->
  Forall (fun h => 0%Z ∉ h) (hyp_samples bf) /\
  Forall zero_only_last (sample bf).
Proof.
  induction trace as [|b' trace IH]; intros b bf Hchain Hlast Hlive Hdead.
  - simpl in Hlast. by injection Hlast as <-.
  - destruct Hchain as [Hstep Hchain].
    destruct (sorted_by_eos_zero ctx0 k b b' Hstep Hlive Hdead) as [Hl' Hd'].
    apply (IH b' bf Hchain); [|done|done].
    by rewrite last_cons_cons in Hlast.
Qed.

(** No iteration at all. *)
Lemma gen_sample_maxlen_0 (x : input) (k : nat) :
  gen_sample zero sub_log argsort f_init f_next x k 0 = Ok ([[]], [zero]).
Proof.
  unfold gen_sample, gen_sample_init. by destruct (f_init x).
Qed.

(** A beam of width zero. *)
Lemma gen_sample_k_0 (x : input) (maxlen : nat) :
  1 <= maxlen ->
  gen_sample zero sub_log argsort f_init f_next x 0 maxlen = Ok ([], []).
Proof.
  intros Hmax. destruct maxlen as [|n]; [lia|].
  unfold gen_sample, gen_sample_init.
  destruct (f_init x) as [st0 ctx0].
  cbn [search_loop]. unfold search_step. cbn [live_k next_w next_state].
  destruct (f_next _ _ _) as [[next_p next_w'] next_state'].
  reflexivity.
Qed.

Section with_shapes.

Hypothesis argsort_perm : forall a, argsort a ≡ₚ seq 0 (length a).
Hypothesis f_next_shape : forall w ctx st,
  exists V,
    length (f_next w ctx st).1.1 = length w /\
    length (f_next w ctx st).2 = length w /\
    Forall (fun row => length row = V) (f_next w ctx st).1.1.

Lemma gen_sample_zero (x : input) (k maxlen : nat) :
  1 <= k ->
  exists samples scores,
    gen_sample zero sub_log argsort f_init f_next x k maxlen
    = Ok (samples, scores) /\
    Forall zero_only_last samples.
Proof.
  intros Hk. unfold gen_sample, gen_sample_init.
  destruct (f_init x) as [st0 ctx0].
  set (b0 := Beam [] [] 1 0 (replicate 1 []) (replicate 1 zero) [(-1)%Z] st0).
  assert (Hwf0 : well_formed k 0 b0).
  { unfold well_formed. simpl. repeat split; try done; try lia.
    - by repeat constructor.
    - by repeat constructor. }
  assert (Hready0 : ready b0) by (unfold ready; simpl; lia).
  destruct (search_loop_ok zero sub_log argsort f_next argsort_perm
              f_next_shape ctx0 k maxlen 0 b0 Hwf0 Hready0)
    as (bf & trace & Hloop & Hlen & Hlast & Hwf & Hchain & _).
  rewrite Hloop, ret_bind, (dump_ok k _ bf Hwf).
  eexists _, _. split; [done|].
  assert (Hend : last (b0 :: trace) = Some bf).
  { destruct maxlen as [|n].
    - simpl in Hloop. by injection Hloop as <- <-.
    - specialize (Hlast ltac:(lia)). destruct trace; [done|].
      by rewrite last_cons_cons. }
  destruct (chain_zero ctx0 k trace b0 bf Hchain Hend) as [Hlive Hdead].
  { simpl. repeat constructor. apply not_elem_of_nil. }
  { simpl. constructor. }
  apply Forall_app. split; [done|].
  eapply Forall_impl; [exact Hlive|].
  intros h Hh i Hi. exfalso. apply Hh. by eapply list_elem_of_lookup_2.
Qed.

End with_shapes.

End beam_search_more.

(** X26.  In every sample that [gen_sample] returns, the id 0 occurs at
    the last position or not at all: a hypothesis is set aside as
    finished in the iteration that appends the id 0 to it, and is never
    extended again. *)
Theorem gen_sample_zero_only_last {score prob state context input : Type}
    (zero : score) (sub_log : score -> prob -> score)
    (argsort : list score -> list nat)
    (f_init : input -> list state * context)
    (f_next : list Z -> list context -> list state
              -> list (list prob) * list Z * list state)
    (x : input) (k maxlen : nat) :
  (forall a, argsort a ≡ₚ seq 0 (length a)) ->
  (forall w ctx st,
     exists V,
       length (f_next w ctx st).1.1 = length w /\
       length (f_next w ctx st).2 = length w /\
       Forall (fun row => length row = V) (f_next w ctx st).1.1) ->
  1 <= k ->
  exists samples scores,
    translate.gen_sample zero sub_log argsort f_init f_next x k maxlen
    = Ok (samples, scores) /\
    Forall translate.zero_only_last samples.
Proof. intros Hperm Hshape Hk. by apply gen_sample_zero. Qed.

Lemma gen_sample_zero_only_last_witness :
  exists samples scores,
    translate.gen_sample 0%Z translate.sub_log_Z translate.argsort_Z
      translate.f_init_unit (translate.f_next_const [-69; -120; -161]%Z)
      tt 2 3
    = Ok (samples, scores) /\
    Forall translate.zero_only_last samples.
Proof.
  apply (gen_sample_zero_only_last 0%Z translate.sub_log_Z
           translate.argsort_Z translate.f_init_unit
           (translate.f_next_const [-69; -120; -161]%Z) tt 2 3).
  - apply argsort_Z_perm.
  - apply f_next_const_shape.
  - lia.
Defined.

(** X27.  With a length cap of zero the loop of [gen_sample] is not
    entered and neither is [f_next] called: the one initial hypothesis,
    which is empty, is returned with the score zero, whatever the width
    of the beam. *)
Theorem gen_sample_no_iteration {score prob state context input : Type}
    (zero : score) (sub_log : score -> prob -> score)
    (argsort : list score -> list nat)
    (f_init : input -> list state * context)
    (f_next : list Z -> list context -> list state
              -> list (list prob) * list Z * list state)
    (x : input) (k : nat) :
  translate.gen_sample zero sub_log argsort f_init f_next x k 0
  = Ok ([[]], [zero]).
Proof. apply gen_sample_maxlen_0. Qed.

(** X28.  With a beam of width zero [gen_sample] selects no candidate in
    its first iteration, leaves the loop there and returns no sample and
    no score, whatever the callbacks answer. *)
Theorem gen_sample_zero_width {score prob state context input : Type}
    (zero : score) (sub_log : score -> prob -> score)
    (argsort : list score -> list nat)
    (f_init : input -> list state * context)
    (f_next : list Z -> list context -> list state
              -> list (list prob) * list Z * list state)
    (x : input) (maxlen : nat) :
  1 <= maxlen ->
  translate.gen_sample zero sub_log argsort f_init f_next x 0 maxlen
  = Ok ([], []).
Proof. apply gen_sample_k_0. Qed.

Lemma gen_sample_zero_width_witness :
  translate.gen_sample 0%Z translate.sub_log_Z translate.argsort_Z
    translate.f_init_unit (translate.f_next_const [-69; -120; -161]%Z)
    tt 0 3
  = Ok ([], []).
Proof.
  apply (gen_sample_zero_width 0%Z translate.sub_log_Z translate.argsort_Z
           translate.f_init_unit (translate.f_next_const [-69; -120; -161]%Z)
           tt 3).
  lia.
Defined.

(** ** train: the validation block *)

Section validation_more.

Context {session value : Type}.
Variable session_run :
  session -> list nmt_model.fetch -> gmap string nmt_model.feed_value
  -> session * list value.
Variable loss_value : value -> Q.

Variable bs : list bucket.
Variable B : nat.
Variable model : nmt_model.NMTModel.
Variables last_E last_D : nat.
Hypothesis model_init : nmt_model.init bs B = Ok model.
Hypothesis last_bucket : last bs = Some (last_E, last_D).
Hypothesis last_largest :
  Forall (fun bk : bucket => bk.1 <= last_E /\ bk.2 <= last_D) bs.

Variable dev_set : list (list example).

Lemma model_fields :
  nmt_model.buckets model = bs /\ nmt_model.batch_size model = B.
Proof.
  destruct (init_Ok_inv _ _ _ model_init) as (lE & lD & _ & ->). done.
Qed.

(** [step] on a batch that [get_batch] built raises nothing but
    [IndexError], and nothing at all when the session answers. *)
Lemma eval_step rnd bucket_id E D batch sess :
  bs !! bucket_id = Some (E, D) ->
  nmt_model.get_batch bs B rnd dev_set bucket_id = Ok batch ->
  exists output_feed input_feed,
    nmt_model.step session_run model sess
      (nmt_model.batch_encoder_inputs batch)
      (nmt_model.batch_encoder_inputs_r batch)
      (nmt_model.batch_decoder_inputs batch)
      (nmt_model.batch_weights batch) bucket_id true
    = ((session_run sess output_feed input_feed).1,
       match (session_run sess output_feed input_feed).2 with
       | [] => Raise IndexError
       | loss :: logits => Ok (None, loss, Some logits)
       end).
Proof.
  intros Hb Hgb.
  pose proof (Forall_lookup_1 _ _ _ _ last_largest Hb) as [HE HD].
  simpl in HE, HD.
  destruct (get_batch_rows _ _ _ _ _ _ _ _ Hb Hgb)
    as ([He _] & [Her _] & [Hd _] & [Hw _]).
  destruct (step_feeds_contents bs B model
              (nmt_model.batch_encoder_inputs batch)
              (nmt_model.batch_encoder_inputs_r batch)
              (nmt_model.batch_decoder_inputs batch)
              (nmt_model.batch_weights batch)
              bucket_id E D last_E last_D true)
    as (input_feed & Hsf & _); try done; [lia|].
  exists (nmt_model.losses bucket_id
          :: (nmt_model.outputs bucket_id <$> xrange D)), input_feed.
  unfold nmt_model.step. rewrite Hsf.
  destruct (session_run sess _ input_feed) as [sess' outs]. cbn [fst snd].
  destruct outs as [|loss logits]; [done|]. simpl. by rewrite drop_0.
Qed.


Lemma eval_loop_empty bucket_ids : forall rnd sess total,
  1 <= B ->
  (exists id, id ∈ bucket_ids /\ dev_set !! id = Some []) ->
  (translate.eval_loop session_run loss_value model rnd dev_set bucket_ids
                       sess total).2 = Raise IndexError.
Proof.
  destruct model_fields as [Hbs HB].
  induction bucket_ids as [|id rest IH]; intros rnd sess total HB1 Hex.
  { destruct Hex as (i & Hi & _). by apply not_elem_of_nil in Hi. }
  cbn [translate.eval_loop]. rewrite Hbs, HB.
  destruct (get_batch_cases bs B rnd dev_set id)
    as [(batch & E & D & Hgb & Hb & Hd)|Hgb]; rewrite Hgb; [|done].
  destruct (eval_step rnd id E D batch sess Hb Hgb) as (ofd & ifd & ->).
  destruct (session_run sess ofd ifd) as [sess' [|loss logits]]; cbn; [done|].
  apply IH; [done|].
  destruct Hex as (i & Hi & Hempty). exists i. split; [|done].
  apply elem_of_cons in Hi as [->|Hi]; [|done]. exfalso.
  destruct Hd as [H0|(d & Hd & Hne)]; [lia|].
  rewrite Hempty in Hd. by injection Hd as <-.
Qed.


End validation_more.

(** X29.  The validation block builds a batch from every bucket of the
    development set, so a development set with one empty bucket stops
    training: for a model made by [__init__] whose last bucket is the
    largest and a batch size of at least one, the block raises
    [IndexError]. *)
Theorem validation_empty_bucket {session value : Type}
    (session_run :
       session -> list nmt_model.fetch -> gmap string nmt_model.feed_value
       -> session * list value)
    (loss_value : value -> Q)
    (bs : list bucket) (B : nat) (model : nmt_model.NMTModel)
    (last_E last_D : nat) (rnd : nat -> nat)
    (dev_set : list (list example)) (sess : session) (i : nat) :
  nmt_model.init bs B = Ok model ->
  last bs = Some (last_E, last_D) ->
  Forall (fun bk : bucket => bk.1 <= last_E /\ bk.2 <= last_D) bs ->
  1 <= B ->
  i < length bs ->
  dev_set !! i = Some [] ->
  (translate.validation session_run loss_value model rnd dev_set sess).2
  = Raise IndexError.
Proof.
  intros Hinit Hlast Hall HB Hi Hempty. unfold translate.validation.
  destruct (model_fields bs B model Hinit) as [Hbs _]. rewrite Hbs.
  pose proof (eval_loop_empty session_run loss_value bs B model
                last_E last_D Hinit Hlast Hall dev_set
                (xrange (length bs)) rnd sess 0%Q HB) as Hloop.
  destruct (translate.eval_loop _ _ _ _ _ _ _ _) as [sess' r].
  cbn [snd] in *. rewrite Hloop; [done|].
  exists i. split; [by apply xrange_elem | done].
Qed.

Lemma validation_empty_bucket_witness :
  exists model,
    nmt_model.init translate._buckets 2 = Ok model /\
    (translate.validation
       (fun (s : nat) (_ : list nmt_model.fetch)
            (_ : gmap string nmt_model.feed_value) => (S s, [1; 2; 3]))
       (fun v : nat => inject_Z (Z.of_nat v))
       model (fun j => j)
       (translate.read_data translate._buckets
          [[1; 2]; [5]]%Z [[3; 4]; [6]]%Z None) 0).2
    = Raise IndexError.
Proof.
  eexists. split; [reflexivity|].
  apply (validation_empty_bucket
           (fun (s : nat) _ _ => (S s, [1; 2; 3]))
           (fun v : nat => inject_Z (Z.of_nat v))
           translate._buckets 2 _ 40 50 (fun j => j)
           (translate.read_data translate._buckets
              [[1; 2]; [5]]%Z [[3; 4]; [6]]%Z None) 0 1).
  - reflexivity.
  - reflexivity.
  - simpl. repeat constructor; simpl; lia.
  - lia.
  - simpl. lia.
  - reflexivity.
Defined.


